(** * Format-preserving INI document model of [Settings.py]

    A shallow embedding of the [IniDocument] class of the HyperSpin settings
    editor, of the text-mode file I/O it goes through, and of the value
    classifier of the editing form, together with the properties of the
    document model stated in the specification.

    Python [str] values are sequences of Unicode code points and file
    contents are sequences of bytes; both are lists of [N] here. *)

From Stdlib Require Import NArith ZArith String Ascii List Lia Bool.
From Stdlib Require DecimalString.
From stdpp Require Import base option list gmap sorting.

Abbreviation str := (list N).
Abbreviation bytes := (list N).

(** ** Characters *)

Module Ch.
Local Open Scope N_scope.

Definition LF : N := 10.
Definition CR : N := 13.
Definition EQUALS : N := 61.      (* = *)
Definition SEMI : N := 59.        (* ; *)
Definition LBRACK : N := 91.      (* [ *)
Definition RBRACK : N := 93.      (* ] *)
Definition QUESTION : N := 63.    (* ? *)
Definition REPLACEMENT : N := 0xFFFD.

(** [str.isspace] on one character, which is also the class [\s] of [re]
    on [str] patterns and what [str.strip()] removes. *)
Definition isspace (c : N) : bool :=
  ((9 <=? c) && (c <=? 13)) || ((28 <=? c) && (c <=? 31)) || (c =? 32)
  || (c =? 0x85) || (c =? 0xA0) || (c =? 0x1680)
  || ((0x2000 <=? c) && (c <=? 0x200A))
  || (c =? 0x2028) || (c =? 0x2029) || (c =? 0x202F) || (c =? 0x205F)
  || (c =? 0x3000).

(** The line boundaries of [str.splitlines]. *)
Definition islinebreak (c : N) : bool :=
  ((10 <=? c) && (c <=? 13)) || ((28 <=? c) && (c <=? 30))
  || (c =? 0x85) || (c =? 0x2028) || (c =? 0x2029).

(** The character class [[^=;\r\n]] of [_KEYVAL_RE]. *)
Definition keychar (c : N) : bool :=
  negb ((c =? EQUALS) || (c =? SEMI) || (c =? CR) || (c =? LF)).

(** [.] of [re] without DOTALL: anything but a line feed. *)
Definition dotchar (c : N) : bool := negb (c =? LF).

(** The characters of ["\r\n"], as [rstrip("\r\n")] takes them. *)
Definition is_crlf (c : N) : bool := (c =? CR) || (c =? LF).

(** [str.lower] on an ASCII character. *)
Definition ascii_lower (c : N) : N :=
  if (65 <=? c) && (c <=? 90) then c + 32 else c.
End Ch.

(** ** Strings *)

Module Str.
Import Ch.

(** Code points of an ASCII literal. *)
Fixpoint py (s : string) : str :=
  match s with
  | EmptyString => []
  | String a s' => N_of_ascii a :: py s'
  end.

(** The text whose lines are the given literals, each ended by a line feed. *)
Definition text (ls : list string) : str :=
  concat (map (fun l => py l ++ [LF]) ls).

(** Longest prefix whose characters satisfy [p], and the rest. *)
Fixpoint span (p : N -> bool) (s : str) : str * str :=
  match s with
  | [] => ([], [])
  | c :: s' =>
      if p c then let '(a, b) := span p s' in (c :: a, b) else ([], s)
  end.

(** [s.lstrip(chars)] and [s.rstrip(chars)], the characters to remove given
    by [p]. *)
Fixpoint lstrip_by (p : N -> bool) (s : str) : str :=
  match s with
  | [] => []
  | c :: s' => if p c then lstrip_by p s' else s
  end.

Fixpoint rstrip_by (p : N -> bool) (s : str) : str :=
  match s with
  | [] => []
  | c :: s' =>
      match rstrip_by p s' with
      | [] => if p c then [] else [c]
      | r => c :: r
      end
  end.

(** [s.lstrip()], [s.rstrip()] and [s.strip()] *)
Definition lstrip : str -> str := lstrip_by isspace.
Definition rstrip : str -> str := rstrip_by isspace.
Definition strip (s : str) : str := rstrip (lstrip s).

(** [s.startswith(p)] *)
Fixpoint startswith (p s : str) : bool :=
  match p, s with
  | [], _ => true
  | a :: p', b :: s' => N.eqb a b && startswith p' s'
  | _ :: _, [] => false
  end.

(** [s.endswith("\n")] *)
Definition endswith_lf (s : str) : bool :=
  match last s with Some c => N.eqb c LF | None => false end.

(** [s.splitlines(True)]: the lines of [s] with their terminators; a
    carriage return directly followed by a line feed does not end the
    line, the line feed does. [cur] is the current line, reversed. *)
Fixpoint splitlines_from (cur : str) (s : str) : list str :=
  match s with
  | [] => match cur with [] => [] | _ => [rev cur] end
  | c :: s' =>
      let crlf := match s' with d :: _ => N.eqb c CR && N.eqb d LF | [] => false end in
      if islinebreak c && negb crlf
      then rev (c :: cur) :: splitlines_from [] s'
      else splitlines_from (c :: cur) s'
  end.

Definition splitlines (s : str) : list str := splitlines_from [] s.
End Str.

Import Ch Str.

(** ** Text-mode file I/O

    [open(path, "r", encoding="utf-8", errors="replace")] and
    [open(path, "w", encoding="utf-8", errors="replace")]: the UTF-8 codec
    with the [replace] error handler and the newline translation of text
    mode ([newline=None]). *)

Module Codec.
Local Open Scope N_scope.

Definition is_cont (b : N) : bool := (0x80 <=? b) && (b <=? 0xBF).

(** Range of the second byte of a three-byte sequence: no overlong form
    after E0, no surrogate after ED. *)
Definition second3 (b1 b2 : N) : bool :=
  if b1 =? 0xE0 then (0xA0 <=? b2) && (b2 <=? 0xBF)
  else if b1 =? 0xED then (0x80 <=? b2) && (b2 <=? 0x9F)
  else is_cont b2.

(** Range of the second byte of a four-byte sequence: no overlong form
    after F0, nothing above U+10FFFF after F4. *)
Definition second4 (b1 b2 : N) : bool :=
  if b1 =? 0xF0 then (0x90 <=? b2) && (b2 <=? 0xBF)
  else if b1 =? 0xF4 then (0x80 <=? b2) && (b2 <=? 0x8F)
  else is_cont b2.

Definition cp2 (b1 b2 : N) : N := (b1 - 0xC0) * 64 + (b2 - 0x80).
Definition cp3 (b1 b2 b3 : N) : N :=
  (b1 - 0xE0) * 4096 + (b2 - 0x80) * 64 + (b3 - 0x80).
Definition cp4 (b1 b2 b3 b4 : N) : N :=
  (b1 - 0xF0) * 262144 + (b2 - 0x80) * 4096 + (b3 - 0x80) * 64 + (b4 - 0x80).

(** The decoder: [Some c] for a decoded character, [None] for every
    maximal ill-formed run of bytes (an invalid start byte, or the valid
    start of a sequence cut short by a byte that cannot continue it or by
    the end of the data). *)
Fixpoint utf8_scan (s : bytes) : list (option N) :=
  match s with
  | [] => []
  | b1 :: t1 =>
      if b1 <? 0x80 then Some b1 :: utf8_scan t1
      else if (0xC2 <=? b1) && (b1 <=? 0xDF) then
        match t1 with
        | [] => [None]
        | b2 :: t2 =>
            if is_cont b2 then Some (cp2 b1 b2) :: utf8_scan t2
            else None :: utf8_scan t1
        end
      else if (0xE0 <=? b1) && (b1 <=? 0xEF) then
        match t1 with
        | [] => [None]
        | b2 :: t2 =>
            if second3 b1 b2 then
              match t2 with
              | [] => [None]
              | b3 :: t3 =>
                  if is_cont b3 then Some (cp3 b1 b2 b3) :: utf8_scan t3
                  else None :: utf8_scan t2
              end
            else None :: utf8_scan t1
        end
      else if (0xF0 <=? b1) && (b1 <=? 0xF4) then
        match t1 with
        | [] => [None]
        | b2 :: t2 =>
            if second4 b1 b2 then
              match t2 with
              | [] => [None]
              | b3 :: t3 =>
                  if is_cont b3 then
                    match t3 with
                    | [] => [None]
                    | b4 :: t4 =>
                        if is_cont b4
                        then Some (cp4 b1 b2 b3 b4) :: utf8_scan t4
                        else None :: utf8_scan t3
                    end
                  else None :: utf8_scan t2
              end
            else None :: utf8_scan t1
        end
      else None :: utf8_scan t1
  end.

(** [bytes.decode("utf-8", "replace")]. *)
Definition utf8_decode (s : bytes) : str :=
  map (fun o => match o with Some c => c | None => Ch.REPLACEMENT end)
      (utf8_scan s).

(** The data the strict decoder accepts. *)
Definition utf8_wellformed (s : bytes) : bool :=
  forallb (fun o => match o with Some _ => true | None => false end)
          (utf8_scan s).

(** One character of [str.encode("utf-8", "replace")]: a surrogate cannot
    be encoded and becomes a question mark. *)
Definition utf8_encode1 (c : N) : bytes :=
  if c <? 0x80 then [c]
  else if c <? 0x800 then [0xC0 + c / 64; 0x80 + c mod 64]
  else if (0xD800 <=? c) && (c <=? 0xDFFF) then [Ch.QUESTION]
  else if c <? 0x10000 then
    [0xE0 + c / 4096; 0x80 + (c / 64) mod 64; 0x80 + c mod 64]
  else
    [0xF0 + c / 262144; 0x80 + (c / 4096) mod 64;
     0x80 + (c / 64) mod 64; 0x80 + c mod 64].

Definition utf8_encode (s : str) : bytes := concat (map utf8_encode1 s).

(** Universal newlines on reading: [\r\n] and a lone [\r] become [\n]. *)
Fixpoint translate_newlines (s : str) : str :=
  match s with
  | [] => []
  | c :: s' =>
      if c =? Ch.CR then
        Ch.LF :: match s' with
                 | d :: s'' =>
                     if d =? Ch.LF then translate_newlines s''
                     else translate_newlines s'
                 | [] => []
                 end
      else c :: translate_newlines s'
  end.

(** Newline translation on writing: every [\n] becomes [os.linesep]. *)
Definition write_newlines (linesep : str) (s : str) : str :=
  concat (map (fun c => if c =? Ch.LF then linesep else [c]) s).

Definition posix_linesep : str := [Ch.LF].
Definition windows_linesep : str := [Ch.CR; Ch.LF].

(** [f.read()] of a file opened for reading in text mode. *)
Definition read_text (content : bytes) : str :=
  translate_newlines (utf8_decode content).

(** What [f.write(s)] puts on disk for a file opened for writing. *)
Definition write_text (linesep : str) (s : str) : bytes :=
  utf8_encode (write_newlines linesep s).
End Codec.

Import Codec.

(** ** Regular expressions

    The patterns of the program are sequences of literals and of repeated
    character classes. The [re] module searches the ways to split the
    string among them by backtracking: a greedy repetition tries its longest
    run first, a lazy one its shortest, and the first split that reaches the
    end gives the groups. *)

Module Re.
Local Open Scope N_scope.

Inductive atom :=
| Lit (c : N)
| Rep (greedy : bool) (atleast : nat) (atmost : option nat)
      (cls : N -> bool) (name : option string).

(** [cls*], [cls+], [cls*?], [cls+?], [c?] and [cls{n}], with the name of
    the group around them, if any *)
Definition star := Rep true 0 None.
Definition plus := Rep true 1 None.
Definition lazy_star := Rep false 0 None.
Definition lazy_plus := Rep false 1 None.
Definition opt (c : N) := Rep true 0 (Some 1%nat) (N.eqb c) None.
Definition times (n : nat) := Rep true n (Some n).

(** What [m.groupdict()] holds *)
Abbreviation groups := (list (string * str)).

Fixpoint first_match {A} (f : nat -> option A) (ns : list nat) : option A :=
  match ns with
  | [] => None
  | n :: ns' =>
      match f n with
      | Some a => Some a
      | None => first_match f ns'
      end
  end.

(** [$] without MULTILINE: at the end, or before a line feed that ends the
    string. *)
Definition at_end (s : str) : bool :=
  match s with
  | [] => true
  | [c] => c =? LF
  | _ => false
  end.

(** The end of the string, as [fullmatch] wants it. *)
Definition at_very_end (s : str) : bool :=
  match s with
  | [] => true
  | _ => false
  end.

Definition add_group (name : option string) (piece : str) (gs : groups)
  : groups :=
  match name with
  | Some n => (n, piece) :: gs
  | None => gs
  end.

(** The lengths a repetition can take at the start of [s]. *)
Definition lengths (atleast : nat) (atmost : option nat) (cls : N -> bool)
    (s : str) : list nat :=
  let longest := length (span cls s).1 in
  let most := match atmost with
              | Some m => Nat.min m longest
              | None => longest
              end in
  seq atleast (S most - atleast).

(** The search from the start of [s], [fin] being the test at the end of
    the pattern. *)
Fixpoint run (fin : str -> bool) (pat : list atom) (s : str) : option groups :=
  match pat with
  | [] => if fin s then Some [] else None
  | Lit c :: pat' =>
      match s with
      | x :: s' => if x =? c then run fin pat' s' else None
      | [] => None
      end
  | Rep greedy atleast atmost cls name :: pat' =>
      let lens := lengths atleast atmost cls s in
      first_match
        (fun n =>
           match run fin pat' (drop n s) with
           | Some gs => Some (add_group name (take n s) gs)
           | None => None
           end)
        (if greedy then rev lens else lens)
  end.

(** [re.compile(p).match(s)] for a pattern [p] written between [^] and
    [$] *)
Definition re_match : list atom -> str -> option groups := run at_end.

(** [re.fullmatch(p, s)] *)
Definition re_fullmatch : list atom -> str -> option groups := run at_very_end.

(** [m.group(name)] *)
Fixpoint group (name : string) (m : groups) : str :=
  match m with
  | [] => []
  | (n, piece) :: m' => if String.eqb name n then piece else group name m'
  end.

(** [^\s*\[(?P<section>[^\]]+)\]\s*$] *)
Definition _SECTION_RE : str -> option groups :=
  re_match
    [star isspace None;
     Lit LBRACK;
     plus (fun c => negb (c =? RBRACK)) (Some "section"%string);
     Lit RBRACK;
     star isspace None].

(** [^(?P<prefix>\s*] [)(?P<key>[^=;\r\n]+?)\s*=\s*(?P<val>.*?)(?P<suffix>\s*]
    [)$] *)
Definition _KEYVAL_RE : str -> option groups :=
  re_match
    [star isspace (Some "prefix"%string);
     lazy_plus keychar (Some "key"%string);
     star isspace None;
     Lit EQUALS;
     star isspace None;
     lazy_star dotchar (Some "val"%string);
     star isspace (Some "suffix"%string)].
End Re.

Import Re.

(** ** Insertion-ordered dictionaries

    A Python [dict] keeps its keys in insertion order, which [all_items]
    observes through the stable sort of [refs.values()]; assigning to a key
    that is present keeps its position. *)

Module Dict.
Section Dict.
Context {K V : Type} `{EqDecision K}.

Fixpoint get (k : K) (d : list (K * V)) : option V :=
  match d with
  | [] => None
  | (k', v) :: r => if decide (k = k') then Some v else get k r
  end.

(** [d[k] = v] *)
Fixpoint put (k : K) (v : V) (d : list (K * V)) : list (K * V) :=
  match d with
  | [] => [(k, v)]
  | (k', v') :: r =>
      if decide (k = k') then (k', v) :: r else (k', v') :: put k v r
  end.

Definition keys (d : list (K * V)) : list K := map fst d.
Definition values (d : list (K * V)) : list V := map snd d.
End Dict.
End Dict.

(** ** The document *)

Definition _norm_section (s : str) : str := strip s.
Definition _norm_key (k : str) : str := strip k.

Module Ref.
Record IniValueRef := {
  section : str;
  key : str;
  value : str;
  line_index : nat;
  prefix : str;
  suffix : str
}.
End Ref.
Export Ref.

Definition with_value (v : str) (r : IniValueRef) : IniValueRef :=
  {| section := section r; key := key r; value := v;
     line_index := line_index r; prefix := prefix r; suffix := suffix r |}.

Record IniDocument := {
  lines : list str;
  refs : list ((str * str) * IniValueRef);
  section_order : list str;
  _loaded : bool
}.

(** [IniDocument(path)]: the path is fixed throughout; what it names on
    disk is an [inode], passed to the operations that touch the disk. *)
Definition __init__ : IniDocument :=
  {| lines := []; refs := []; section_order := []; _loaded := false |}.

Inductive inode :=
| Missing
| Directory
| Regular (content : bytes).

Inductive exn := FileNotFoundError | IndexError | IsADirectoryError.

(** Methods run on the document and either return or raise, leaving the
    document as it was at that point. *)
Inductive outcome (A : Type) :=
| Returned (a : A) (d : IniDocument)
| Raised (e : exn) (d : IniDocument).
Arguments Returned {A} a d.
Arguments Raised {A} e d.

Definition M (A : Type) : Type := IniDocument -> outcome A.

Definition ret {A} (a : A) : M A := fun d => Returned a d.
Definition raise {A} (e : exn) : M A := fun d => Raised e d.
Definition bind {A B} (m : M A) (k : A -> M B) : M B :=
  fun d => match m d with
           | Returned a d' => k a d'
           | Raised e d' => Raised e d'
           end.
Definition read {A} (f : IniDocument -> A) : M A := fun d => Returned (f d) d.
Definition modify (f : IniDocument -> IniDocument) : M unit :=
  fun d => Returned tt (f d).

Declare Scope ini_scope.
Delimit Scope ini_scope with ini.
Notation "'let*' x := m 'in' k" := (bind m (fun x => k))
  (at level 10, x name, m at level 100, k at level 200) : ini_scope.
Notation "'do' m 'then' k" := (bind m (fun _ => k))
  (at level 10, m at level 100, k at level 200) : ini_scope.
Local Open Scope ini_scope.

Definition set_lines (ls : list str) (d : IniDocument) : IniDocument :=
  {| lines := ls; refs := refs d; section_order := section_order d;
     _loaded := _loaded d |}.
Definition set_refs (rs : list ((str * str) * IniValueRef)) (d : IniDocument)
  : IniDocument :=
  {| lines := lines d; refs := rs; section_order := section_order d;
     _loaded := _loaded d |}.
Definition set_section_order (o : list str) (d : IniDocument) : IniDocument :=
  {| lines := lines d; refs := refs d; section_order := o;
     _loaded := _loaded d |}.
Definition set_loaded (b : bool) (d : IniDocument) : IniDocument :=
  {| lines := lines d; refs := refs d; section_order := section_order d;
     _loaded := b |}.

(** *** load *)

(** The variables of the scanning loop of [load]. *)
Record scan := {
  current_section : str;
  seen_sections : gset str;
  sc_order : list str;
  sc_refs : list ((str * str) * IniValueRef)
}.

Definition scan_init : scan :=
  {| current_section := []; seen_sections := ∅; sc_order := []; sc_refs := [] |}.

(** One iteration of [for idx, raw in enumerate(self.lines)]. *)
Definition load_step (idx : nat) (raw : str) (st : scan) : scan :=
  match _SECTION_RE raw with
  | Some sm =>
      let cs := _norm_section (group "section" sm) in
      if decide (cs ∈ seen_sections st)
      then {| current_section := cs; seen_sections := seen_sections st;
              sc_order := sc_order st; sc_refs := sc_refs st |}
      else {| current_section := cs; seen_sections := {[cs]} ∪ seen_sections st;
              sc_order := sc_order st ++ [cs]; sc_refs := sc_refs st |}
  | None =>
      match _KEYVAL_RE raw with
      | None => st
      | Some km =>
          let k := _norm_key (group "key" km) in
          let val := rstrip_by is_crlf (group "val" km) in
          let s := _norm_section (current_section st) in
          {| current_section := current_section st;
             seen_sections := seen_sections st;
             sc_order := sc_order st;
             sc_refs := Dict.put (s, k)
                          {| section := s; key := k; value := val;
                             line_index := idx;
                             prefix := group "prefix" km;
                             suffix := group "suffix" km |}
                          (sc_refs st) |}
      end
  end.

Fixpoint load_loop (idx : nat) (ls : list str) (st : scan) : scan :=
  match ls with
  | [] => st
  | raw :: rest => load_loop (S idx) rest (load_step idx raw st)
  end.

Definition load (fs : inode) : M unit :=
  match fs with
  | Regular content =>
      let ls := splitlines (read_text content) in
      let st := load_loop 0 ls scan_init in
      modify (fun _ => {| lines := ls; refs := sc_refs st;
                          section_order := sc_order st; _loaded := true |})
  | _ => raise FileNotFoundError
  end.

Definition _ensure_loaded (fs : inode) : M unit :=
  let* loaded := read _loaded in
  if loaded then ret tt else load fs.

(** *** get, set, save *)

Definition get (fs : inode) (section key : str) : M (option str) :=
  do _ensure_loaded fs then
  let* rs := read refs in
  ret (value <$> Dict.get (_norm_section section, _norm_key key) rs).

Fixpoint find_section_from (want : str) (idx : nat) (ls : list str) : option nat :=
  match ls with
  | [] => None
  | raw :: rest =>
      match _SECTION_RE raw with
      | Some sm =>
          if decide (_norm_section (group "section" sm) = want) then Some idx
          else find_section_from want (S idx) rest
      | None => find_section_from want (S idx) rest
      end
  end.

Definition _find_section_line_index (section : str) : M (option nat) :=
  let* ls := read lines in
  ret (find_section_from (_norm_section section) 0 ls).

(** First section header among [ls], the lines from [idx] on; the number of
    lines if there is none. *)
Fixpoint section_end_from (idx : nat) (ls : list str) : nat :=
  match ls with
  | [] => idx
  | raw :: rest =>
      match _SECTION_RE raw with
      | Some _ => idx
      | None => section_end_from (S idx) rest
      end
  end.

Definition _find_section_end_index (start_idx : nat) : M nat :=
  let* ls := read lines in
  ret (if decide (start_idx <= length ls)%nat
       then section_end_from start_idx (drop start_idx ls)
       else length ls).

(** [list.insert(i, x)] *)
Definition list_insert_at {A} (i : nat) (x : A) (l : list A) : list A :=
  take i l ++ x :: drop i l.

(** The loop of [_reindex_refs_from] does nothing but index [self.lines],
    which raises when a recorded index is out of range; the method then
    re-reads the file. *)
Definition _reindex_refs_from (fs : inode) (start_idx : nat) : M unit :=
  let* rs := read refs in
  let* ls := read lines in
  do (if forallb (fun r => (line_index r <? start_idx)%nat
                           || (line_index r <? length ls)%nat)
                 (Dict.values rs)
      then ret tt else raise IndexError) then
  do modify (set_loaded false) then
  load fs.

Definition set (fs : inode) (section key value : str) : M unit :=
  do _ensure_loaded fs then
  let s := _norm_section section in
  let k := _norm_key key in
  let t := (s, k) in
  let* rs := read refs in
  match Dict.get t rs with
  | Some ref =>
      do modify (set_refs (Dict.put t (with_value value ref) rs)) then
      let* ls := read lines in
      match ls !! line_index ref with
      | None => raise IndexError
      | Some old =>
          let newline := if endswith_lf old then [LF] else [] in
          modify (set_lines
                    (<[line_index ref :=
                         prefix ref ++ Ref.key ref ++ [EQUALS] ++ value
                         ++ suffix ref ++ newline]> ls))
      end
  | None =>
      let* ls := read lines in
      let* section_line_idx := _find_section_line_index s in
      let* insert_at := match section_line_idx with
                        | Some i => _find_section_end_index (i + 1)
                        | None => ret (length ls)
                        end in
      let line := k ++ [EQUALS] ++ value ++ [LF] in
      do modify (set_lines (list_insert_at insert_at line ls)) then
      do modify (set_refs
                   (Dict.put t {| section := s; key := k; value := value;
                                  line_index := insert_at; prefix := [];
                                  suffix := [] |} rs)) then
      do _reindex_refs_from fs insert_at then
      let* order := read section_order in
      if negb (bool_decide (s = [])) && negb (bool_decide (s ∈ order))
      then modify (set_section_order (order ++ [s]))
      else ret tt
  end.

(** [save] returns what the path names afterwards. [f.writelines] writes
    the lines one after the other. *)
Definition save (linesep : str) (fs : inode) : M inode :=
  do _ensure_loaded fs then
  let* ls := read lines in
  match fs with
  | Directory => raise IsADirectoryError
  | _ => ret (Regular (concat (map (write_text linesep) ls)))
  end.

(** ** The editing form

    The part of [IniEditorWidget] that chooses a control for every value and
    writes the controls back to the document. *)

(** What the form takes from the Python runtime and from Qt and which is not
    described here: the Unicode tables, the number parsers with their error
    cases, floating point, and the spin boxes. *)
Class Runtime := {
  (** [float] *)
  float : Type;
  (** the lowercase mapping of one character outside ASCII, which can be
      several characters *)
  unicode_lower : N -> list N;
  (** the Unicode properties Cased and Case_Ignorable *)
  is_cased : N -> bool;
  is_case_ignorable : N -> bool;
  (** the class [\d] of [re]: the decimal digits of Unicode, none of which is
      white space or a sign *)
  isdecimal : N -> bool;
  (** [int(s, base)], [None] when it raises *)
  py_int : N -> str -> option Z;
  (** [float(s)], [None] when it raises *)
  py_float : str -> option float;
  (** [value()] of a [QSpinBox] of range -2147483648..2147483647 after
      [setValue(iv)], [None] when the call raises *)
  spin_setValue : Z -> option Z;
  (** [value()] of a [QDoubleSpinBox] of six decimals and range -1e12..1e12
      after [setValue(fv)] *)
  dspin_setValue : float -> float;
  (** the text [_apply_controls_to_doc] makes of the value [v] of a
      [QDoubleSpinBox]: [str(int(v))] when [v] is within 1e-12 of it, else
      [v] with six decimals, stripped of trailing zeros and of a trailing
      point *)
  float_text : float -> str
}.

Record QColor := { red : N; green : N; blue : N; alpha : N }.

Inductive QWidget `{Runtime} :=
| QLabel
| QCheckBox (isChecked : bool)
| QSpinBox (v : Z)
| QDoubleSpinBox (v : float)
| ColorEditor (line : str)
| QLineEdit (text : str).

Section Form.
Context `{Runtime}.
Local Open Scope N_scope.

(** The lowercase mapping of one character. *)
Definition lower1 (c : N) : list N :=
  if c <? 128 then [ascii_lower c] else unicode_lower c.

Definition SIGMA : N := 0x3A3.

(** What a capital sigma becomes: the final form when it ends a word, that
    is when the nearest character before it that is not case-ignorable is
    cased and the nearest such character after it, if any, is not; the
    other small sigma otherwise. [before] is what precedes it, nearest
    character first. *)
Definition final_sigma (before after : str) : N :=
  let preceded :=
    match lstrip_by is_case_ignorable before with
    | c :: _ => is_cased c
    | [] => false
    end in
  let followed :=
    match lstrip_by is_case_ignorable after with
    | c :: _ => is_cased c
    | [] => false
    end in
  if preceded && negb followed then 0x3C2 else 0x3C3.

(** [str.lower]: every character goes to its lowercase mapping, except the
    capital sigma, which depends on its neighbours. [before] holds the
    characters already passed, nearest first. *)
Fixpoint lower_from (before : str) (s : str) : str :=
  match s with
  | [] => []
  | c :: s' =>
      (if c =? SIGMA then [final_sigma before s'] else lower1 c)
      ++ lower_from (c :: before) s'
  end.

Definition lower (s : str) : str := lower_from [] s.

Definition str_in (t : str) (l : list str) : bool := bool_decide (t ∈ l).

Definition _is_bool_text (v : str) : option bool :=
  let t := lower (strip v) in
  if str_in t [py "true"; py "1"; py "yes"; py "on"] then Some true
  else if str_in t [py "false"; py "0"; py "no"; py "off"] then Some false
  else None.

Definition _parse_int (v : str) : option Z :=
  let s := strip v in
  if startswith (py "0x") (lower s) then py_int 16 s else py_int 10 s.

Definition _parse_float (v : str) : option float := py_float (strip v).

Definition ishex (c : N) : bool :=
  ((48 <=? c) && (c <=? 57)) || ((65 <=? c) && (c <=? 70))
  || ((97 <=? c) && (c <=? 102)).

(** [^\s*0x(?P<hex>...)\s*$] with [n] hexadecimal digits for the group *)
Definition hex_color_pattern (n : nat) : list atom :=
  [star isspace None; Lit 48; Lit 120; times n ishex (Some "hex"%string);
   star isspace None].

(** [_HEX_COLOR_RE]: [^\s*0x(?P<hex>[0-9a-fA-F]{6}|[0-9a-fA-F]{8})\s*$].
    What precedes the alternation can match in one way only, so the search
    amounts to that for the pattern with six digits and then, if it fails,
    for the pattern with eight. *)
Definition _HEX_COLOR_RE (v : str) : option groups :=
  match re_match (hex_color_pattern 6) v with
  | Some m => Some m
  | None => re_match (hex_color_pattern 8) v
  end.

Definition hexval (c : N) : N :=
  if c <=? 57 then c - 48 else if c <=? 70 then c - 55 else c - 87.

(** [int(hx[i:i+2], 16)] on hexadecimal digits *)
Definition hex_pair (hx : str) (i : nat) : N :=
  match drop i hx with
  | a :: b :: _ => 16 * hexval a + hexval b
  | _ => 0
  end.

Definition _parse_hex_color (v : str) : option QColor :=
  match _HEX_COLOR_RE v with
  | None => None
  | Some m =>
      let hx := group "hex" m in
      if (length hx =? 6)%nat
      then Some {| red := hex_pair hx 0; green := hex_pair hx 2;
                   blue := hex_pair hx 4; alpha := 255 |}
      else Some {| red := hex_pair hx 2; green := hex_pair hx 4;
                   blue := hex_pair hx 6; alpha := hex_pair hx 0 |}
  end.

(** [re.fullmatch(r"\s*-?\d+\s*", value)] *)
Definition fullmatch_int (value : str) : bool :=
  bool_decide
    (is_Some (re_fullmatch
                [star isspace None; opt 45; plus isdecimal None;
                 star isspace None] value)).

(** [re.fullmatch(r"\s*-?\d+(\.\d+)?\s*", value)]: whether there is a
    match with the optional group or without it. *)
Definition fullmatch_float (value : str) : bool :=
  bool_decide
    (is_Some (re_fullmatch
                [star isspace None; opt 45; plus isdecimal None;
                 Lit 46; plus isdecimal None; star isspace None] value))
  || fullmatch_int value.

(** The branch [_add_control] takes for a value, with what it has parsed. *)
Inductive kind :=
| KBool (b : bool)
| KColor (c : QColor)
| KInt (iv : Z)
| KFloat (fv : float)
| KText.

Definition classify (value : str) : kind :=
  match _is_bool_text value with
  | Some b => KBool b
  | None =>
      match _parse_hex_color value with
      | Some color => KColor color
      | None =>
          let iv := _parse_int value in
          let fv := _parse_float value in
          match iv, fv with
          | Some i, _ =>
              if startswith (py "0x") (lower (strip value))
                 || fullmatch_int value
              then KInt i
              else match fv with
                   | Some f => if fullmatch_float value
                               then KFloat f else KText
                   | None => KText
                   end
          | None, Some f =>
              if fullmatch_float value then KFloat f else KText
          | None, None => KText
          end
      end
  end.

(** The control of each branch; [None] when [setValue] raises. *)
Definition control_for (value : str) : option QWidget :=
  match classify value with
  | KBool b => Some (QCheckBox b)
  | KColor _ => Some (ColorEditor value)
  | KInt iv => QSpinBox <$> spin_setValue iv
  | KFloat fv => Some (QDoubleSpinBox (dspin_setValue fv))
  | KText => Some (QLineEdit value)
  end.

(** [self._controls], keyed by section and key; the key [""] of a section
    holds the marker of its divider. *)
Definition _add_control (section key value : str)
    (controls : list ((str * str) * QWidget))
  : option (list ((str * str) * QWidget)) :=
  let controls :=
    match Dict.get (section, []) controls with
    | None => Dict.put (section, []) QLabel controls
    | Some _ => controls
    end in
  match control_for value with
  | Some widget => Some (Dict.put (section, key) widget controls)
  | None => None
  end.
End Form.

Section FormWriteBack.
Context `{Runtime}.
Local Open Scope N_scope.

(** Order of Python strings: lexicographic on code points. *)
Fixpoint str_leb (a b : str) : bool :=
  match a, b with
  | [], _ => true
  | _ :: _, [] => false
  | x :: a', y :: b' =>
      if x <? y then true else if y <? x then false else str_leb a' b'
  end.

(** The sort key of [all_items]: [(r.section.lower(), r.key.lower())]. *)
Definition sort_key (r : IniValueRef) : str * str :=
  (lower (section r), lower (key r)).

Definition sort_key_leb (a b : IniValueRef) : bool :=
  let '(sa, ka) := sort_key a in
  let '(sb, kb) := sort_key b in
  if bool_decide (sa = sb) then str_leb ka kb else str_leb sa sb.

(** [list.sort] is stable: an element goes before the first one that is not
    smaller than it. *)
Fixpoint sort_insert (x : IniValueRef) (l : list IniValueRef)
  : list IniValueRef :=
  match l with
  | [] => [x]
  | y :: l' => if sort_key_leb x y then x :: l else y :: sort_insert x l'
  end.

Definition sort_refs (l : list IniValueRef) : list IniValueRef :=
  foldr sort_insert [] l.

Definition all_items (fs : inode) : M (list IniValueRef) :=
  do _ensure_loaded fs then
  let* rs := read refs in
  ret (sort_refs (Dict.values rs)).

Fixpoint add_controls (items : list IniValueRef)
    (controls : list ((str * str) * QWidget))
  : option (list ((str * str) * QWidget)) :=
  match items with
  | [] => Some controls
  | ref :: rest =>
      match _add_control (section ref) (key ref) (value ref) controls with
      | Some controls' => add_controls rest controls'
      | None => None
      end
  end.

(** The controls [set_document(doc)] leaves in [self._controls]; [None] when
    a control could not be made. *)
Definition set_document (fs : inode)
  : M (option (list ((str * str) * QWidget))) :=
  let* items := all_items fs in
  ret (add_controls items []).

(** [str(n)] *)
Definition py_str_int (n : Z) : str :=
  py (DecimalString.NilZero.string_of_int (Z.to_int n)).

(** The text a control is written back as; [None] for what the loop skips. *)
Definition new_val (w : QWidget) : option str :=
  match w with
  | QCheckBox b => Some (if b then py "true" else py "false")
  | QSpinBox v => Some (py_str_int v)
  | QDoubleSpinBox v => Some (float_text v)
  | ColorEditor line => Some (strip line)
  | QLineEdit text => Some text
  | QLabel => None
  end.

Fixpoint _apply_controls_to_doc (fs : inode)
    (controls : list ((str * str) * QWidget)) : M unit :=
  match controls with
  | [] => ret tt
  | ((section, key), w) :: rest =>
      if bool_decide (key = []) then _apply_controls_to_doc fs rest
      else
        match new_val w with
        | None => _apply_controls_to_doc fs rest
        | Some v =>
            do set fs section key v then _apply_controls_to_doc fs rest
        end
  end.

(** Opening a file in the form and pressing the save button without
    touching a control: [set_document], [_apply_controls_to_doc],
    [doc.save()]. The result is what the path names afterwards; [None] when
    the form could not be made. *)
Definition open_and_save (linesep : str) (fs : inode) : M (option inode) :=
  do load fs then
  let* controls := set_document fs in
  match controls with
  | None => ret None
  | Some cs =>
      do _apply_controls_to_doc fs cs then
      let* fs' := save linesep fs in
      ret (Some fs')
  end.
End FormWriteBack.

(** A runtime for evaluating the form on plain values: the letters and the
    case-ignorable characters of ASCII and the sigmas, ASCII digits, integers written as
    decimal digits or as [0x] and hexadecimal digits, without sign or
    underscore, and no floating point. *)
Definition digits_value (base : Z) (s : str) : option Z :=
  match s with
  | [] => None
  | _ :: _ =>
      foldl (fun acc c =>
               match acc with
               | Some n =>
                   if ((48 <=? c) && (c <=? 57))%N
                   then Some (base * n + Z.of_N (c - 48))%Z
                   else if (base =? 16)%Z && ((97 <=? c) && (c <=? 102))%N
                   then Some (base * n + Z.of_N (c - 87))%Z
                   else if (base =? 16)%Z && ((65 <=? c) && (c <=? 70))%N
                   then Some (base * n + Z.of_N (c - 55))%Z
                   else None
               | None => None
               end) (Some 0%Z) s
  end.

Definition plain_runtime : Runtime :=
  {| float := unit;
     unicode_lower := fun c => [c];
     is_cased := fun c =>
       (((65 <=? c) && (c <=? 90)) || ((97 <=? c) && (c <=? 122))
        || (c =? 0x3A3) || (c =? 0x3C2) || (c =? 0x3C3))%N;
     is_case_ignorable := fun c =>
       ((c =? 39) || (c =? 46) || (c =? 58) || (c =? 94) || (c =? 96))%N;
     isdecimal := fun c => ((48 <=? c) && (c <=? 57))%N;
     py_int := fun base s =>
       if (base =? 10)%N then digits_value 10 s
       else match s with
            | a :: b :: r =>
                if ((a =? 48) && ((b =? 120) || (b =? 88)))%N
                then digits_value 16 r else None
            | _ => None
            end;
     py_float := fun _ => None;
     spin_setValue := fun iv =>
       if ((-2147483648 <=? iv) && (iv <=? 2147483647))%Z
       then Some iv else None;
     dspin_setValue := fun v => v;
     float_text := fun _ => [] |}.

(** Loading a file and saving it at once, from a new document. *)
Definition load_then_save (linesep : str) (fs : inode) : outcome inode :=
  (do load fs then save linesep fs) __init__.

(** What the file holds after [load_then_save]. *)
Definition saved_bytes (linesep : str) (content : bytes) : option bytes :=
  match load_then_save linesep (Regular content) with
  | Returned (Regular b) _ => Some b
  | _ => None
  end.

(** A text without carriage return. *)
Definition no_cr (s : str) : bool := forallb (fun c => negb (N.eqb c CR)) s.

(** A text whose line feeds each follow a carriage return and whose carriage
    returns each precede a line feed. *)
Fixpoint crlf_only (s : str) : bool :=
  match s with
  | [] => true
  | c :: s' =>
      if N.eqb c CR then
        match s' with
        | d :: s'' => N.eqb d LF && crlf_only s''
        | [] => false
        end
      else negb (N.eqb c LF) && crlf_only s'
  end.

(** ** Notions used in the statements *)

(** The line [set] writes for an Entry whose line was [old]. *)
Definition rewrite_line (r : IniValueRef) (v old : str) : str :=
  prefix r ++ key r ++ [EQUALS] ++ v ++ suffix r
  ++ (if endswith_lf old then [LF] else []).

(** An Entry stored under [t] fits the lines [ls]: it is stored under its
    own normalized names and points at one of the lines. *)
Definition entry_ok (ls : list str) (t : str * str) (r : IniValueRef) : Prop :=
  t = (section r, key r)
  /\ _norm_section (section r) = section r
  /\ _norm_key (key r) = key r
  /\ line_index r < length ls.

(** The invariant of a loaded document. *)
Definition wf (d : IniDocument) : Prop :=
  _loaded d = true
  /\ Forall (fun tr => entry_ok (lines d) tr.1 tr.2) (refs d).

(** The documents a program can hold for the file [fs]: one just loaded,
    or one obtained from such a document by a [set] that returned. *)
Inductive reachable (fs : inode) : IniDocument -> Prop :=
| reach_load d0 d :
    load fs d0 = Returned tt d -> reachable fs d
| reach_set d section key value d' :
    reachable fs d -> set fs section key value d = Returned tt d' ->
    reachable fs d'.

(** The normalized name a section header line introduces. *)
Definition header_name (raw : str) : option str :=
  (fun sm => _norm_section (group "section" sm)) <$> _SECTION_RE raw.

(** The section a line at index [i] of [ls] belongs to: the one of the last
    header before it, the empty name when there is none. *)
Definition section_at (ls : list str) (i : nat) : str :=
  default [] (last (omap header_name (take i ls))).

(** Line [i] of [ls] is a [key=value] line that defines [k] in section [s]
    with value [v]: it is no section header, it matches the key pattern
    with key [k] once stripped, and [v] is its value group, without line
    terminator at its end. *)
Definition defines (ls : list str) (i : nat) (s k v : str) : Prop :=
  exists raw km,
    ls !! i = Some raw /\ _SECTION_RE raw = None /\ _KEYVAL_RE raw = Some km
    /\ _norm_key (group "key" km) = k
    /\ rstrip_by is_crlf (group "val" km) = v
    /\ section_at ls i = s.

(** An Entry stored under [t] is what the scan of [load] makes of a line of
    [ls]: a line that is no section header and matches the key pattern. *)
Definition loaded_entry (ls : list str) (t : str * str) (r : IniValueRef)
  : Prop :=
  exists raw km,
    ls !! line_index r = Some raw
    /\ _SECTION_RE raw = None /\ _KEYVAL_RE raw = Some km
    /\ key r = _norm_key (group "key" km)
    /\ value r = rstrip_by is_crlf (group "val" km)
    /\ prefix r = group "prefix" km /\ suffix r = group "suffix" km
    /\ section r = section_at ls (line_index r)
    /\ t = (section r, key r).

(** What holds of the variables of the loop after the lines [l]. *)
Definition scan_inv (l : list str) (st : scan) : Prop :=
  current_section st = section_at l (length l)
  /\ Forall (fun tr => loaded_entry l tr.1 tr.2) (sc_refs st)
  /\ NoDup (Dict.keys (sc_refs st)).

(** The document [load] makes of a file. *)
Definition loaded (content : bytes) : IniDocument :=
  let ls := splitlines (read_text content) in
  let st := load_loop 0 ls scan_init in
  {| lines := ls; refs := sc_refs st; section_order := sc_order st;
     _loaded := true |}.

(** The document [set] leaves when it rewrites the line of the Entry [r]
    stored under [t]. *)
Definition rewritten (t : str * str) (r : IniValueRef) (v old : str)
    (d : IniDocument) : IniDocument :=
  {| lines := <[line_index r := rewrite_line r v old]> (lines d);
     refs := Dict.put t (with_value v r) (refs d);
     section_order := section_order d;
     _loaded := _loaded d |}.

(** What every reachable document keeps of the document [load] made: the
    number of lines, and the Entries but for their values; the line of an
    Entry still begins with its prefix and its key, and ends with its
    suffix, followed by at most one line feed. *)
Definition entries_kept (content : bytes) (d : IniDocument) : Prop :=
  length (lines d) = length (lines (loaded content))
  /\ (forall t r,
        Dict.get t (refs d) = Some r ->
        exists r0, Dict.get t (refs (loaded content)) = Some r0
                   /\ r = with_value (value r) r0)
  /\ (forall t r old,
        Dict.get t (refs d) = Some r -> lines d !! line_index r = Some old ->
        (endswith_lf old = false -> endswith_lf (suffix r) = false)
        /\ (Ref.key r <> [] ->
            prefix r = (span isspace old).1
            /\ exists rest, old = prefix r ++ Ref.key r ++ rest)
        /\ exists b e, old = b ++ suffix r ++ e /\ (e = [] \/ e = [LF])).

(** [if s and s not in self.section_order: self.section_order.append(s)] *)
Definition register_section (s : str) (d : IniDocument) : IniDocument :=
  if negb (bool_decide (s = [])) && negb (bool_decide (s ∈ section_order d))
  then set_section_order (section_order d ++ [s]) d
  else d.

(** The text [_apply_controls_to_doc] sets for the pair [t], if any. *)
Definition planned `{Runtime} (cs : list ((str * str) * QWidget))
    (t : str * str) : option str :=
  match Dict.get t cs with
  | Some w => if bool_decide (t.2 = []) then None else new_val w
  | None => None
  end.

(** The pair an Entry is shown under in the form. *)
Definition control_key (r : IniValueRef) : str * str := (section r, key r).

(** ** The rest of the program

    The colour texts and the colour editor, the other methods of the
    document, and the file lists of the main tab. *)

(** ** Colour texts and the colour editor *)

Definition hex_digit_upper (d : N) : N := (if d <? 10 then 48 + d else 55 + d)%N.

(** The digits of [n] in upper-case hexadecimal, the most significant
    first. *)
Fixpoint hex_upper (fuel : nat) (n : N) : str :=
  match fuel with
  | O => []
  | S fuel' =>
      if (n <? 16)%N then [hex_digit_upper n]
      else hex_upper fuel' (n / 16) ++ [hex_digit_upper (n mod 16)]
  end.

(** [f"{n:02X}"]: filled with zeros up to two digits *)
Definition format_02X (n : N) : str :=
  let ds := hex_upper (S (N.size_nat n)) n in
  replicate (2 - length ds) 48%N ++ ds.

Definition _to_hex_color (c : QColor) (keep_alpha : bool) : str :=
  if keep_alpha
  then py "0x" ++ format_02X (alpha c) ++ format_02X (red c)
       ++ format_02X (green c) ++ format_02X (blue c)
  else py "0x" ++ format_02X (red c) ++ format_02X (green c)
       ++ format_02X (blue c).

(** [ColorEditor]: its fields, [_color] being [None] for the invalid
    [QColor()], and its methods. *)
Module ColorEdit.
Record state := {
  _keep_alpha : bool;
  _color : option QColor;
  line : str
}.

(** [ColorEditor(initial_text)] *)
Definition __init__ (initial_text : str) : state :=
  match _HEX_COLOR_RE initial_text with
  | Some m =>
      {| _keep_alpha := (length (group "hex" m) =? 8)%nat;
         _color := _parse_hex_color initial_text;
         line := initial_text |}
  | None => {| _keep_alpha := false; _color := None; line := initial_text |}
  end.

(** [_pick_color]: the colour the dialog opens on, and the method, the
    dialog being what the user answers to that colour: a colour, or [None]
    when the dialog is dismissed. *)
Definition current (w : state) : QColor :=
  match _parse_hex_color (line w) with
  | Some c => c
  | None =>
      match _color w with
      | Some c => c
      | None => {| red := 0; green := 0; blue := 0; alpha := 255 |}
      end
  end.

Definition _pick_color (dlg : QColor -> option QColor) (w : state) : state :=
  match dlg (current w) with
  | Some c =>
      let keep_alpha := _keep_alpha w || negb (alpha c =? 255)%N in
      {| _keep_alpha := _keep_alpha w; _color := _color w;
         line := _to_hex_color c keep_alpha |}
  | None => w
  end.

Definition text (w : state) : str := line w.
End ColorEdit.

(** The components of a [QColor] are bytes. *)
Definition color_in_range (c : QColor) : Prop :=
  (red c < 256 /\ green c < 256 /\ blue c < 256 /\ alpha c < 256)%N.

(** ** The other methods of the document *)

Definition sections (fs : inode) : M (list str) :=
  do _ensure_loaded fs then read section_order.

(** The elements of [l], each once, in the order of their first
    occurrence. *)
Fixpoint first_occurrences (l : list str) : list str :=
  match l with
  | [] => []
  | x :: l' => x :: filter (fun y => y <> x) (first_occurrences l')
  end.

(** What holds of the order of the sections after the lines [l]. *)
Definition order_inv (l : list str) (st : scan) : Prop :=
  sc_order st = first_occurrences (omap header_name l)
  /\ forall s, s ∈ seen_sections st <-> s ∈ omap header_name l.

(** The characters [str.encode("utf-8")] can encode: the code points but
    the surrogates. *)
Definition encodable (c : N) : bool :=
  ((c <? 0xD800) || ((0xDFFF <? c) && (c <? 0x110000)))%N.

(** [list.sort(key=...)] with the order [leb] on the keys: the sort is
    stable, an element goes before the first one that is not smaller. *)
Fixpoint insert_by {A} (leb : A -> A -> bool) (x : A) (l : list A) : list A :=
  match l with
  | [] => [x]
  | y :: l' => if leb x y then x :: l else y :: insert_by leb x l'
  end.

Definition sort_by {A} (leb : A -> A -> bool) (l : list A) : list A :=
  foldr (insert_by leb) [] l.

Section Items.
Context `{Runtime}.

(** The order of [kv[0].lower()] *)
Definition item_leb (a b : str * str) : bool :=
  str_leb (lower a.1) (lower b.1).

Definition items (fs : inode) (section : str) : M (list (str * str)) :=
  do _ensure_loaded fs then
  let s := _norm_section section in
  let* rs := read refs in
  let out :=
    omap (fun tr : (str * str) * IniValueRef =>
            if decide (tr.1.1 = s) then Some (tr.1.2, value tr.2) else None)
         rs in
  ret (sort_by item_leb out).
End Items.

(** [s.endswith(suffix)] *)
Definition endswith (suffix s : str) : bool := startswith (rev suffix) (rev s).

(** ** The file lists of [HyperSpinTab] *)

Module HyperSpinTab.
Definition HYPERSPIN_FILES : list str :=
  [py "Global Settings.ini"; py "Global Bezel.ini"].

Definition MAINMENUCHANGER_FILES : list str :=
  [py "PC Games.ini"; py "All.ini"; py "Arcades.ini"; py "Back.ini";
   py "Collections.ini"; py "Consoles.ini"; py "Handhelds.ini"].

(** What [_refresh_lists] leaves in the two combo boxes. *)
Record combos := {
  file_combo : list str;
  system_combo : list str;
  system_combo_visible : bool
}.

(** The names of [fixed] that are in the folder; all of them when none
    is. *)
Definition add_fixed (fixed all_inis : list str) : list str :=
  let present := filter (fun f => f ∈ all_inis) fixed in
  if (length present =? 0)%nat then fixed else present.

Definition _refresh_lists (category : str) (all_inis : list str) : combos :=
  if bool_decide (category = py "Hyperspin") then
    {| file_combo := add_fixed HYPERSPIN_FILES all_inis;
       system_combo := []; system_combo_visible := false |}
  else if bool_decide (category = py "MainMenuChanger") then
    {| file_combo := add_fixed MAINMENUCHANGER_FILES all_inis;
       system_combo := []; system_combo_visible := false |}
  else
    let exclude := HYPERSPIN_FILES ++ MAINMENUCHANGER_FILES in
    let systems := filter (fun f => f ∉ exclude) all_inis in
    {| file_combo := [py "Sistemas X"];
       system_combo := systems; system_combo_visible := true |}.

Section ListIniFiles.
Context `{Runtime}.

(** [_list_ini_files]: [folder] is the text of the path field, [dir] what
    [os.listdir] gives for it, each name with whether it is a regular file,
    and [None] when the path is no directory. *)
Definition _list_ini_files (folder : str) (dir : option (list (str * bool)))
  : list str :=
  if bool_decide (strip folder = []) then []
  else
    match dir with
    | None => []
    | Some entries =>
        let files :=
          omap (fun e : str * bool =>
                  if endswith (py ".ini") (lower e.1) && e.2
                  then Some e.1 else None)
               entries in
        sort_by (fun a b => str_leb (lower a) (lower b)) files
    end.
End ListIniFiles.
End HyperSpinTab.

(** ** Lines

    What [splitlines] makes of a text without carriage return. *)

(** A character that ends no line. *)
Definition plain (c : N) : bool := negb (islinebreak c).

(** A line with its terminator, and a last line without one. *)
Definition terminated (l : str) : Prop :=
  exists body c,
    l = body ++ [c] /\ forallb plain body = true
    /\ islinebreak c = true /\ c <> CR.

Definition unterminated (l : str) : Prop :=
  l <> [] /\ forallb plain l = true.

Inductive well_split : list str -> Prop :=
| ws_nil : well_split []
| ws_last l : unterminated l -> well_split [l]
| ws_cons l ls : terminated l -> well_split ls -> well_split (l :: ls).

(** A text whose only line boundaries are line feeds. *)
Definition lf_only (s : str) : bool :=
  forallb (fun c => plain c || N.eqb c LF) s.

(** * Properties *)

(** ** The model at work *)

Example splitlines_keeps_terminators :
  splitlines (py "a" ++ [CR; LF] ++ py "b" ++ [CR] ++ py "c" ++ [LF] ++ py "d")
  = [py "a" ++ [CR; LF]; py "b" ++ [CR]; py "c" ++ [LF]; py "d"].
Proof. reflexivity. Qed.

Example section_pattern :
  _SECTION_RE (py "  [ Main Menu ] " ++ [LF])
  = Some [("section"%string, py " Main Menu ")].
Proof. reflexivity. Qed.

(** The suffix group takes the line terminator with the trailing white
    space. *)
Example keyval_pattern :
  _KEYVAL_RE (py "  foo = 1 " ++ [LF])
  = Some [("prefix"%string, py "  "); ("key"%string, py "foo");
          ("val"%string, py "1"); ("suffix"%string, py " " ++ [LF])].
Proof. reflexivity. Qed.

Example keyval_pattern_comment : _KEYVAL_RE (py "; a=b" ++ [LF]) = None.
Proof. reflexivity. Qed.

Example keyval_pattern_empty_value :
  _KEYVAL_RE (py "foo=  " ++ [LF])
  = Some [("prefix"%string, []); ("key"%string, py "foo");
          ("val"%string, []); ("suffix"%string, [])].
Proof. reflexivity. Qed.

Example decode_replaces_bad_bytes :
  utf8_decode [0x41; 0xFF; 0xE2; 0x82; 0x41; 0xE2; 0x82; 0xAC]%N
  = [0x41; REPLACEMENT; REPLACEMENT; 0x41; 0x20AC]%N.
Proof. reflexivity. Qed.

(** The form opened on a file and saved with no control touched, where
    [os.linesep] is LF. *)
Example open_and_save_plain :
  exists d,
    @open_and_save plain_runtime posix_linesep
      (Regular (text ["[A]"; "name=hello"]%string)) __init__
    = Returned (Some (Regular (text ["[A]"; "name=hello"; ""]%string))) d.
Proof. eexists. vm_compute. reflexivity. Qed.

(** The branches of the classifier on plain values. *)
Example classify_plain :
  @classify plain_runtime (py " Yes ") = KBool true
  /\ @classify plain_runtime (py "0x1F")%string = KInt 31
  /\ @classify plain_runtime (py "42") = KInt 42
  /\ @classify plain_runtime (py "0xFF8800")
     = KColor {| red := 255; green := 136; blue := 0; alpha := 255 |}
  /\ @classify plain_runtime (py "4 2") = KText.
Proof. repeat split; vm_compute; reflexivity. Qed.

(** [str.lower] on a capital sigma at the end of a word, inside a word and
    alone. *)
Example lower_sigma :
  @lower plain_runtime [65; 0x3A3]%N = [97; 0x3C2]%N
  /\ @lower plain_runtime [65; 0x3A3; 66]%N = [97; 0x3C3; 98]%N
  /\ @lower plain_runtime [0x3A3]%N = [0x3C3]%N.
Proof. repeat split; vm_compute; reflexivity. Qed.

(** ** Strings *)

Lemma splitlines_from_concat (s cur : str) :
  concat (splitlines_from cur s) = rev cur ++ s.
Proof.
  revert cur. induction s as [|c s IH]; intros cur.
  - simpl. destruct cur; simpl; [done|]. by rewrite !app_nil_r.
  - cbn [splitlines_from].
    destruct (islinebreak c && negb _).
    + cbn [concat]. rewrite IH. cbn [rev]. by rewrite <- !app_assoc.
    + rewrite IH. cbn [rev]. by rewrite <- !app_assoc.
Qed.

Lemma splitlines_concat (s : str) : concat (splitlines s) = s.
Proof. apply (splitlines_from_concat s []). Qed.

Lemma span_app (p : N -> bool) (s : str) : (span p s).1 ++ (span p s).2 = s.
Proof.
  induction s as [|c s IH]; [done|]. simpl.
  destruct (p c); [|done]. destruct (span p s). simpl in *. by rewrite IH.
Qed.

Lemma span_fst_forall (p : N -> bool) (s : str) :
  forallb p (span p s).1 = true.
Proof.
  induction s as [|c s IH]; [done|]. simpl.
  destruct (p c) eqn:E; [|done]. destruct (span p s). simpl in *.
  by rewrite E.
Qed.

Lemma rstrip_by_idem (p : N -> bool) (s : str) :
  rstrip_by p (rstrip_by p s) = rstrip_by p s.
Proof.
  induction s as [|c s IH]; [done|]. simpl.
  destruct (rstrip_by p s) as [|x r] eqn:E.
  - destruct (p c) eqn:Ec; [done|]. simpl. by rewrite Ec.
  - cbn [rstrip_by]. cbn [rstrip_by] in IH. rewrite IH. done.
Qed.

Lemma rstrip_by_head (p : N -> bool) (c : N) (s : str) :
  p c = false -> exists r, rstrip_by p (c :: s) = c :: r.
Proof.
  intros Hc. simpl. destruct (rstrip_by p s); rewrite ?Hc; eauto.
Qed.

Lemma lstrip_by_head (p : N -> bool) (s : str) :
  match lstrip_by p s with [] => True | c :: _ => p c = false end.
Proof.
  induction s as [|c s IH]; [done|]. simpl. destruct (p c) eqn:E; [done|].
  done.
Qed.

Lemma lstrip_by_id (p : N -> bool) (c : N) (s : str) :
  p c = false -> lstrip_by p (c :: s) = c :: s.
Proof. intros Hc. simpl. by rewrite Hc. Qed.

Lemma strip_idem (s : str) : strip (strip s) = strip s.
Proof.
  unfold strip, rstrip, lstrip.
  pose proof (lstrip_by_head isspace s) as Hh.
  destruct (lstrip_by isspace s) as [|c r] eqn:E; [done|].
  destruct (rstrip_by_head isspace c r Hh) as [r' Hr]. rewrite Hr.
  rewrite (lstrip_by_id _ _ _ Hh). rewrite <- Hr. apply rstrip_by_idem.
Qed.

Lemma norm_section_idem (s : str) : _norm_section (_norm_section s) = _norm_section s.
Proof. apply strip_idem. Qed.

Lemma norm_key_idem (k : str) : _norm_key (_norm_key k) = _norm_key k.
Proof. apply strip_idem. Qed.

Lemma span_eq (p : N -> bool) (a b : str) :
  forallb p a = true ->
  match b with [] => True | c :: _ => p c = false end ->
  span p (a ++ b) = (a, b).
Proof.
  intros Ha Hb. induction a as [|x a IH]; simpl in *.
  - destruct b as [|c b]; [done|]. simpl. by rewrite Hb.
  - apply andb_true_iff in Ha as [-> Ha]. by rewrite IH.
Qed.

Lemma rstrip_by_last (p : N -> bool) (s : str) (c : N) :
  last s = Some c -> p c = false -> rstrip_by p s = s.
Proof.
  induction s as [|x s IH]; [done|]. intros Hl Hc.
  destruct s as [|y s].
  - injection Hl as ->. simpl. by rewrite Hc.
  - change (last (x :: y :: s)) with (last (y :: s)) in Hl.
    cbn [rstrip_by]. cbn [rstrip_by] in IH. rewrite (IH Hl Hc). done.
Qed.

Lemma lstrip_by_app (p : N -> bool) (pre : str) (c : N) (s : str) :
  forallb p pre = true -> p c = false ->
  lstrip_by p (pre ++ c :: s) = c :: s.
Proof.
  intros Hp Hc. induction pre as [|x pre IH]; simpl in *.
  - by rewrite Hc.
  - apply andb_true_iff in Hp as [-> Hp]. by apply IH.
Qed.

Lemma lstrip_by_first (p q : N -> bool) (pre : str) (x : N) (tail : str) :
  forallb q pre = true -> q x = true -> p x = false ->
  match lstrip_by p (pre ++ x :: tail) with
  | [] => False
  | c :: _ => q c = true
  end.
Proof.
  intros Hq Hx Hp. induction pre as [|c pre IH]; simpl in *.
  - by rewrite Hp.
  - apply andb_true_iff in Hq as [Hc Hq]. destruct (p c); [by apply IH|done].
Qed.

Lemma forallb_weaken (p q : N -> bool) (l : str) :
  (forall c, p c = true -> q c = true) ->
  forallb p l = true -> forallb q l = true.
Proof.
  intros Hpq. induction l as [|c l IH]; [done|]. simpl.
  rewrite !andb_true_iff. intros [Hc Hl]. split; [by apply Hpq|by apply IH].
Qed.

Lemma lstrip_by_all (p : N -> bool) (s : str) :
  forallb p s = true -> lstrip_by p s = [].
Proof.
  induction s as [|c s IH]; [done|]. simpl.
  rewrite andb_true_iff. intros [-> Hs]. by apply IH.
Qed.

Lemma rstrip_by_all (p : N -> bool) (s : str) :
  forallb p s = true -> rstrip_by p s = [].
Proof.
  induction s as [|c s IH]; [done|]. simpl.
  rewrite andb_true_iff. intros [-> Hs]. by rewrite IH.
Qed.

Lemma lstrip_by_ws_app (p : N -> bool) (a s : str) :
  forallb p a = true -> lstrip_by p (a ++ s) = lstrip_by p s.
Proof.
  induction a as [|c a IH]; [done|]. simpl.
  rewrite andb_true_iff. intros [-> Ha]. by apply IH.
Qed.

Lemma lstrip_by_app_r (p : N -> bool) (s b : str) :
  lstrip_by p s <> [] -> lstrip_by p (s ++ b) = lstrip_by p s ++ b.
Proof.
  induction s as [|c s IH]; [done|]. simpl.
  destruct (p c); [apply IH|done].
Qed.

Lemma rstrip_by_app_ws (p : N -> bool) (s b : str) :
  forallb p b = true -> rstrip_by p (s ++ b) = rstrip_by p s.
Proof.
  intros Hb. induction s as [|c s IH]; simpl.
  - by apply rstrip_by_all.
  - by rewrite IH.
Qed.

Lemma lstrip_by_nil (p : N -> bool) (s : str) :
  lstrip_by p s = [] -> forallb p s = true.
Proof.
  induction s as [|c s IH]; [done|]. simpl.
  destruct (p c); [apply IH|done].
Qed.

(** White space around a text does not change what [strip] makes of it. *)
Lemma strip_app_ws (a s b : str) :
  forallb isspace a = true -> forallb isspace b = true ->
  strip (a ++ s ++ b) = strip s.
Proof.
  intros Ha Hb. unfold strip, lstrip, rstrip.
  rewrite lstrip_by_ws_app by done.
  destruct (lstrip_by isspace s) as [|c r] eqn:E.
  - rewrite lstrip_by_all; [done|].
    rewrite forallb_app, Hb, andb_true_r. by apply lstrip_by_nil.
  - rewrite lstrip_by_app_r by (by rewrite E). rewrite E.
    by apply rstrip_by_app_ws.
Qed.

Lemma first_split_unique (x : N) (a b a' b' : str) :
  x ∉ a -> x ∉ a' -> a ++ [x] ++ b = a' ++ [x] ++ b' -> a = a' /\ b = b'.
Proof.
  revert a'. induction a as [|c a IH]; intros [|c' a'] Ha Ha' He; simpl in *.
  - by injection He.
  - injection He as <- _. destruct Ha'. left.
  - injection He as -> _. destruct Ha. left.
  - injection He as <- He. destruct (IH a') as [-> ->]; try done.
    + intros Hin. apply Ha. by right.
    + intros Hin. apply Ha'. by right.
Qed.

Lemma forallb_lstrip_by (p q : N -> bool) (s : str) :
  forallb p s = true -> forallb p (lstrip_by q s) = true.
Proof.
  induction s as [|c s IH]; [done|]. simpl. intros Hs.
  destruct (q c); [|done]. apply IH. by apply andb_true_iff in Hs as [_ ?].
Qed.

Lemma forallb_rstrip_by (p q : N -> bool) (s : str) :
  forallb p s = true -> forallb p (rstrip_by q s) = true.
Proof.
  induction s as [|c s IH]; [done|]. simpl.
  rewrite andb_true_iff. intros [Hc Hs]. specialize (IH Hs).
  destruct (rstrip_by q s) as [|x r].
  - destruct (q c); [done|]. simpl. by rewrite Hc.
  - change (p c && forallb p (x :: r) = true). by rewrite Hc, IH.
Qed.

Lemma rstrip_by_last_not (p : N -> bool) (s : str) (c : N) :
  last (rstrip_by p s) = Some c -> p c = false.
Proof.
  induction s as [|x s IH]; [done|]. simpl.
  destruct (rstrip_by p s) as [|y r] eqn:E.
  - destruct (p x) eqn:Ex; [done|]. by intros [= <-].
  - intros Hl. apply IH. exact Hl.
Qed.

Lemma is_crlf_space (c : N) : isspace c = false -> is_crlf c = false.
Proof.
  intros Hc. destruct (is_crlf c) eqn:E; [|done].
  unfold is_crlf in E. apply orb_true_iff in E as [E|E];
    apply N.eqb_eq in E; subst c; done.
Qed.

Lemma trimmed_fixed (v : str) :
  match v with [] => True | c :: _ => isspace c = false end ->
  match last v with None => True | Some c => isspace c = false end ->
  strip v = v /\ rstrip_by is_crlf v = v.
Proof.
  intros Hh Hl. destruct v as [|c v]; [done|].
  destruct (last (c :: v)) as [z|] eqn:El; [|by apply last_None in El].
  unfold strip, lstrip, rstrip. rewrite lstrip_by_id by done.
  split.
  - by apply (rstrip_by_last _ _ z).
  - apply (rstrip_by_last _ _ z); [done|]. by apply is_crlf_space.
Qed.

Lemma endswith_lf_app (a b : str) :
  endswith_lf (a ++ b)
  = match b with [] => endswith_lf a | _ :: _ => endswith_lf b end.
Proof.
  unfold endswith_lf. rewrite last_app. destruct b as [|c b].
  - done.
  - destruct (last (c :: b)) eqn:E; [done|]. by apply last_None in E.
Qed.

(** ** The codec *)

Section CodecFacts.
Local Open Scope N_scope.

Lemma div_mod_64 (x y : N) :
  y < 64 -> (x * 64 + y) / 64 = x /\ (x * 64 + y) mod 64 = y.
Proof.
  intros Hy. split.
  - symmetry. apply (N.div_unique _ 64 x y); lia.
  - symmetry. apply (N.mod_unique _ 64 x y); lia.
Qed.

Lemma div_4096 (x r : N) : r < 4096 -> (x * 4096 + r) / 4096 = x.
Proof. intros Hr. symmetry. apply (N.div_unique _ 4096 x r); lia. Qed.

Lemma div_262144 (x r : N) : r < 262144 -> (x * 262144 + r) / 262144 = x.
Proof. intros Hr. symmetry. apply (N.div_unique _ 262144 x r); lia. Qed.

Lemma is_cont_range (b : N) : is_cont b = true -> 0x80 <= b <= 0xBF.
Proof. unfold is_cont. rewrite andb_true_iff, !N.leb_le. lia. Qed.

Lemma encode1_cp2 (b1 b2 : N) :
  0xC2 <= b1 <= 0xDF -> 0x80 <= b2 <= 0xBF ->
  utf8_encode1 (cp2 b1 b2) = [b1; b2].
Proof.
  intros H1 H2. unfold utf8_encode1, cp2.
  set (x := b1 - 0xC0). set (y := b2 - 0x80).
  assert (Hx : 2 <= x <= 31) by lia. assert (Hy : y < 64) by lia.
  destruct (div_mod_64 x y Hy) as [Hd Hm].
  destruct (N.ltb_spec (x * 64 + y) 0x80); [lia|].
  destruct (N.ltb_spec (x * 64 + y) 0x800); [|lia].
  rewrite Hd, Hm. f_equal; [lia|]. f_equal. lia.
Qed.

Lemma encode1_cp3 (b1 b2 b3 : N) :
  0xE0 <= b1 <= 0xEF -> second3 b1 b2 = true -> 0x80 <= b3 <= 0xBF ->
  utf8_encode1 (cp3 b1 b2 b3) = [b1; b2; b3].
Proof.
  intros H1 H2 H3. unfold utf8_encode1, cp3.
  set (x := b1 - 0xE0). set (y := b2 - 0x80). set (z := b3 - 0x80).
  assert (Hz : z < 64) by lia.
  assert (Hb2 : 0x80 <= b2 <= 0xBF
                /\ (b1 = 0xE0 -> 0xA0 <= b2) /\ (b1 = 0xED -> b2 <= 0x9F)).
  { unfold second3 in H2.
    destruct (N.eqb_spec b1 0xE0); [rewrite andb_true_iff, !N.leb_le in H2; lia|].
    destruct (N.eqb_spec b1 0xED); [rewrite andb_true_iff, !N.leb_le in H2; lia|].
    apply is_cont_range in H2. lia. }
  assert (Hy : y < 64) by lia.
  replace (x * 4096 + y * 64 + z) with ((x * 64 + y) * 64 + z) by lia.
  destruct (div_mod_64 (x * 64 + y) z Hz) as [Hd Hm].
  destruct (div_mod_64 x y Hy) as [Hd' Hm'].
  assert (Hq : ((x * 64 + y) * 64 + z) / 4096 = x).
  { replace ((x * 64 + y) * 64 + z) with (x * 4096 + (y * 64 + z)) by lia.
    apply div_4096. lia. }
  destruct (N.ltb_spec ((x * 64 + y) * 64 + z) 0x80); [lia|].
  destruct (N.ltb_spec ((x * 64 + y) * 64 + z) 0x800); [lia|].
  destruct (N.leb_spec 0xD800 ((x * 64 + y) * 64 + z));
    destruct (N.leb_spec ((x * 64 + y) * 64 + z) 0xDFFF); simpl; try lia.
  all: destruct (N.ltb_spec ((x * 64 + y) * 64 + z) 0x10000); [|lia].
  all: rewrite Hq, Hd, Hm, Hm'.
  all: f_equal; [lia|]; f_equal; [lia|]; f_equal; lia.
Qed.

Lemma encode1_cp4 (b1 b2 b3 b4 : N) :
  0xF0 <= b1 <= 0xF4 -> second4 b1 b2 = true -> 0x80 <= b3 <= 0xBF ->
  0x80 <= b4 <= 0xBF ->
  utf8_encode1 (cp4 b1 b2 b3 b4) = [b1; b2; b3; b4].
Proof.
  intros H1 H2 H3 H4. unfold utf8_encode1, cp4.
  set (x := b1 - 0xF0). set (y := b2 - 0x80). set (z := b3 - 0x80).
  set (w := b4 - 0x80).
  assert (Hw : w < 64) by lia. assert (Hz : z < 64) by lia.
  assert (Hb2 : 0x80 <= b2 <= 0xBF
                /\ (b1 = 0xF0 -> 0x90 <= b2) /\ (b1 = 0xF4 -> b2 <= 0x8F)).
  { unfold second4 in H2.
    destruct (N.eqb_spec b1 0xF0); [rewrite andb_true_iff, !N.leb_le in H2; lia|].
    destruct (N.eqb_spec b1 0xF4); [rewrite andb_true_iff, !N.leb_le in H2; lia|].
    apply is_cont_range in H2. lia. }
  assert (Hy : y < 64) by lia.
  set (c := x * 262144 + y * 4096 + z * 64 + w).
  assert (Hc1 : c = ((x * 64 + y) * 64 + z) * 64 + w) by lia.
  assert (Hm0 : c mod 64 = w /\ c / 64 = (x * 64 + y) * 64 + z).
  { rewrite Hc1. destruct (div_mod_64 ((x * 64 + y) * 64 + z) w Hw). done. }
  destruct Hm0 as [Hm0 Hd0].
  assert (Hm1 : (c / 64) mod 64 = z).
  { rewrite Hd0. by destruct (div_mod_64 (x * 64 + y) z Hz). }
  assert (Hm2 : (c / 4096) mod 64 = y).
  { replace c with ((x * 64 + y) * 4096 + (z * 64 + w)) by lia.
    rewrite div_4096 by lia. by destruct (div_mod_64 x y Hy). }
  assert (Hq : c / 262144 = x).
  { replace c with (x * 262144 + (y * 4096 + z * 64 + w)) by lia.
    apply div_262144. lia. }
  destruct (N.ltb_spec c 0x80); [lia|].
  destruct (N.ltb_spec c 0x800); [lia|].
  destruct (N.leb_spec 0xD800 c); destruct (N.leb_spec c 0xDFFF);
    simpl; try lia.
  all: destruct (N.ltb_spec c 0x10000); [lia|].
  all: rewrite Hq, Hm0, Hm1, Hm2.
  all: f_equal; [lia|]; f_equal; [lia|]; f_equal; [lia|]; f_equal; lia.
Qed.
End CodecFacts.

Section CodecRoundTrip.
Local Open Scope N_scope.

Local Ltac range_of H :=
  rewrite andb_true_iff, !N.leb_le in H.

Lemma utf8_roundtrip_bounded (n : nat) (s : bytes) :
  (length s <= n)%nat -> utf8_wellformed s = true ->
  utf8_encode (utf8_decode s) = s.
Proof.
  unfold utf8_wellformed, utf8_encode, utf8_decode.
  revert s. induction n as [|n IH]; intros s Hlen Hwf.
  { destruct s; [done|]. simpl in Hlen. lia. }
  destruct s as [|b1 t1]; [done|]. simpl in Hlen.
  cbn [utf8_scan] in *.
  destruct (b1 <? 0x80) eqn:E1.
  { cbn [map concat forallb] in *. rewrite IH by (done || lia).
    unfold utf8_encode1. by rewrite E1. }
  destruct ((0xC2 <=? b1) && (b1 <=? 0xDF)) eqn:E2.
  { range_of E2.
    destruct t1 as [|b2 t2]; [done|]. simpl in Hlen.
    destruct (is_cont b2) eqn:C2; [|done].
    cbn [map concat forallb] in *. rewrite IH by (done || lia).
    rewrite encode1_cp2; [done|lia|by apply is_cont_range]. }
  destruct ((0xE0 <=? b1) && (b1 <=? 0xEF)) eqn:E3.
  { range_of E3.
    destruct t1 as [|b2 t2]; [done|]. simpl in Hlen.
    destruct (second3 b1 b2) eqn:S2; [|done].
    destruct t2 as [|b3 t3]; [done|]. simpl in Hlen.
    destruct (is_cont b3) eqn:C3; [|done].
    cbn [map concat forallb] in *. rewrite IH by (done || lia).
    rewrite encode1_cp3; [done|lia|done|by apply is_cont_range]. }
  destruct ((0xF0 <=? b1) && (b1 <=? 0xF4)) eqn:E4; [|done].
  range_of E4.
  destruct t1 as [|b2 t2]; [done|]. simpl in Hlen.
  destruct (second4 b1 b2) eqn:S2; [|done].
  destruct t2 as [|b3 t3]; [done|]. simpl in Hlen.
  destruct (is_cont b3) eqn:C3; [|done].
  destruct t3 as [|b4 t4]; [done|]. simpl in Hlen.
  destruct (is_cont b4) eqn:C4; [|done].
  cbn [map concat forallb] in *. rewrite IH by (done || lia).
  rewrite encode1_cp4;
    [done|lia|done|by apply is_cont_range|by apply is_cont_range].
Qed.

(** Encoding what the decoder made of well-formed data gives the data. *)
Lemma utf8_roundtrip (s : bytes) :
  utf8_wellformed s = true -> utf8_encode (utf8_decode s) = s.
Proof. apply (utf8_roundtrip_bounded (length s)). lia. Qed.

Lemma translate_newlines_no_cr (s : str) :
  no_cr s = true -> translate_newlines s = s.
Proof.
  induction s as [|c s IH]; [done|]. simpl.
  rewrite andb_true_iff, negb_true_iff. intros [Hc Hs].
  unfold CR in *. rewrite Hc. by rewrite IH.
Qed.

Lemma write_newlines_posix (s : str) : write_newlines posix_linesep s = s.
Proof.
  unfold write_newlines. induction s as [|c s IH]; [done|]. cbn [map concat].
  rewrite IH. destruct (N.eqb_spec c LF) as [->|]; done.
Qed.

Lemma write_translate_windows_bounded (n : nat) (s : str) :
  (length s <= n)%nat -> crlf_only s = true ->
  write_newlines windows_linesep (translate_newlines s) = s.
Proof.
  unfold write_newlines.
  revert s. induction n as [|n IH]; intros s Hlen Hs.
  { destruct s; [done|]. simpl in Hlen. lia. }
  destruct s as [|c s]; [done|]. simpl in Hlen.
  cbn [crlf_only translate_newlines] in *.
  destruct (N.eqb_spec c CR) as [->|Hc].
  - destruct s as [|d s]; [done|]. simpl in Hlen.
    rewrite andb_true_iff in Hs. destruct Hs as [Hd Hs].
    rewrite Hd. apply N.eqb_eq in Hd as ->.
    cbn [map concat]. rewrite IH by (done || lia). done.
  - rewrite andb_true_iff, negb_true_iff in Hs. destruct Hs as [Hd Hs].
    cbn [map concat]. rewrite Hd. rewrite IH by (done || lia). done.
Qed.

Lemma write_translate_windows (s : str) :
  crlf_only s = true ->
  write_newlines windows_linesep (translate_newlines s) = s.
Proof. apply (write_translate_windows_bounded (length s)). lia. Qed.

Lemma write_newlines_app (sep a b : str) :
  write_newlines sep (a ++ b) = write_newlines sep a ++ write_newlines sep b.
Proof. unfold write_newlines. by rewrite map_app, concat_app. Qed.

Lemma utf8_encode_app (a b : str) :
  utf8_encode (a ++ b) = utf8_encode a ++ utf8_encode b.
Proof. unfold utf8_encode. by rewrite map_app, concat_app. Qed.

(** Writing the lines one by one writes their concatenation. *)
Lemma writelines_concat (sep : str) (ls : list str) :
  concat (map (write_text sep) ls) = write_text sep (concat ls).
Proof.
  unfold write_text. induction ls as [|l ls IH]; [done|]. cbn [map concat].
  by rewrite IH, write_newlines_app, utf8_encode_app.
Qed.
End CodecRoundTrip.

(** ** Round trip *)

Lemma saved_bytes_eq (linesep : str) (content : bytes) :
  saved_bytes linesep content = Some (write_text linesep (read_text content)).
Proof.
  unfold saved_bytes, load_then_save, bind, load, modify, save, _ensure_loaded,
    bind, read, ret. cbn.
  by rewrite writelines_concat, splitlines_concat.
Qed.

(** The stored lines of a document just loaded, put end to end, are the
    text read from the file. *)
Lemma load_lines_concat (content : bytes) (d0 : IniDocument) :
  exists d, load (Regular content) d0 = Returned tt d
            /\ concat (lines d) = read_text content.
Proof. eexists. split; [reflexivity|]. apply splitlines_concat. Qed.

(** C1, as amended. For a file whose text, that is its bytes decoded as
    UTF-8 with every undecodable run replaced by U+FFFD, has no carriage
    return, the stored lines after [load], put end to end, are that text.
    Loading and saving at once gives back the bytes of a file that is
    well-formed UTF-8 when, where [os.linesep] is LF, its text has no
    carriage return, and when, where [os.linesep] is CRLF, all its line ends
    are CRLF. *)
Theorem load_save_round_trip (content : bytes) :
  (no_cr (utf8_decode content) = true ->
   exists d, load (Regular content) __init__ = Returned tt d
             /\ concat (lines d) = utf8_decode content)
  /\ (utf8_wellformed content = true ->
      no_cr (utf8_decode content) = true ->
      saved_bytes posix_linesep content = Some content)
  /\ (utf8_wellformed content = true ->
      crlf_only (utf8_decode content) = true ->
      saved_bytes windows_linesep content = Some content).
Proof.
  split; [|split].
  - intros Hcr. destruct (load_lines_concat content __init__) as (d & Hd & Hl).
    exists d. split; [done|]. rewrite Hl. unfold read_text.
    by apply translate_newlines_no_cr.
  - intros Hwf Hcr. rewrite saved_bytes_eq. f_equal.
    unfold write_text, read_text.
    rewrite translate_newlines_no_cr by done.
    rewrite write_newlines_posix. by apply utf8_roundtrip.
  - intros Hwf Hcr. rewrite saved_bytes_eq. f_equal.
    unfold write_text, read_text.
    rewrite write_translate_windows by done. by apply utf8_roundtrip.
Qed.

Lemma load_save_round_trip_witness :
  (exists d, load (Regular (text ["[A]"; "foo=1"]%string)) __init__
             = Returned tt d
             /\ concat (lines d) = utf8_decode (text ["[A]"; "foo=1"]%string))
  /\ saved_bytes posix_linesep (text ["[A]"; "foo=1"]%string)
     = Some (text ["[A]"; "foo=1"]%string)
  /\ saved_bytes windows_linesep
       (py "[A]" ++ [CR; LF] ++ py "foo=1" ++ [CR; LF])
     = Some (py "[A]" ++ [CR; LF] ++ py "foo=1" ++ [CR; LF]).
Proof.
  split; [|split].
  - apply (load_save_round_trip (text ["[A]"; "foo=1"]%string)). reflexivity.
  - apply (load_save_round_trip (text ["[A]"; "foo=1"]%string)); reflexivity.
  - apply (load_save_round_trip
             (py "[A]" ++ [CR; LF] ++ py "foo=1" ++ [CR; LF])); reflexivity.
Defined.

(** C1, as stated, fails. A file with a byte that is not UTF-8 comes back
    with the three bytes of U+FFFD in its place, whatever [os.linesep] is.
    A CRLF file comes back with LF where [os.linesep] is LF, and its stored
    line ends in LF alone; an LF file comes back with CRLF where
    [os.linesep] is CRLF. *)
Lemma load_save_changes_bytes :
  saved_bytes posix_linesep [255; 10]%N = Some [239; 191; 189; 10]%N
  /\ saved_bytes posix_linesep [255; 10]%N <> Some [255; 10]%N
  /\ saved_bytes windows_linesep [255; 13; 10]%N
     = Some [239; 191; 189; 13; 10]%N
  /\ saved_bytes windows_linesep [255; 13; 10]%N <> Some [255; 13; 10]%N
  /\ saved_bytes posix_linesep (py "a" ++ [CR; LF]) = Some (py "a" ++ [LF])
  /\ saved_bytes posix_linesep (py "a" ++ [CR; LF])
     <> Some (py "a" ++ [CR; LF])
  /\ saved_bytes windows_linesep (py "a" ++ [LF]) = Some (py "a" ++ [CR; LF])
  /\ saved_bytes windows_linesep (py "a" ++ [LF]) <> Some (py "a" ++ [LF])
  /\ (exists d, load (Regular (py "a" ++ [CR; LF])) __init__ = Returned tt d
                /\ concat (lines d) = py "a" ++ [LF]
                /\ concat (lines d) <> py "a" ++ [CR; LF]).
Proof.
  repeat split; try reflexivity; try (vm_compute; discriminate).
  eexists. split; [reflexivity|]. split; [reflexivity|]. discriminate.
Qed.

(** ** Dictionaries *)

Section DictFacts.
Context {K V : Type} `{EqDecision K}.
Implicit Types (d : list (K * V)) (k : K) (v : V).

Lemma dict_get_put_eq d k v : Dict.get k (Dict.put k v d) = Some v.
Proof.
  induction d as [|[k' v'] d IH]; simpl.
  - by rewrite decide_True.
  - destruct (decide (k = k')) as [->|Hne]; simpl.
    + by rewrite decide_True.
    + by rewrite decide_False.
Qed.

Lemma dict_get_put_ne d k k' v :
  k <> k' -> Dict.get k' (Dict.put k v d) = Dict.get k' d.
Proof.
  intros Hne. induction d as [|[k0 v0] d IH]; simpl.
  - by rewrite decide_False.
  - destruct (decide (k = k0)) as [->|Hk]; simpl.
    + by rewrite !decide_False.
    + destruct (decide (k' = k0)); done.
Qed.

Lemma dict_keys_put_present d k v v0 :
  Dict.get k d = Some v0 -> Dict.keys (Dict.put k v d) = Dict.keys d.
Proof.
  unfold Dict.keys. induction d as [|[k0 v1] d IH]; simpl; [done|].
  destruct (decide (k = k0)) as [->|Hk]; simpl; [done|].
  intros Hg. by rewrite IH.
Qed.

Lemma dict_get_elem d k v : Dict.get k d = Some v -> (k, v) ∈ d.
Proof.
  induction d as [|[k0 v0] d IH]; simpl; [done|].
  destruct (decide (k = k0)) as [->|Hk].
  - intros [= ->]. left.
  - intros Hg. right. by apply IH.
Qed.

Lemma dict_get_None d k : Dict.get k d = None <-> k ∉ Dict.keys d.
Proof.
  unfold Dict.keys. induction d as [|[k0 v0] d IH]; simpl.
  - split; [|done]. intros _. apply not_elem_of_nil.
  - rewrite not_elem_of_cons. destruct (decide (k = k0)) as [->|Hk].
    + split; [done|]. intros [? _]. done.
    + rewrite IH. tauto.
Qed.

Lemma dict_put_Forall (P : K * V -> Prop) d k v :
  Forall P d -> P (k, v) -> Forall P (Dict.put k v d).
Proof.
  intros Hd Hp. induction Hd as [|[k0 v0] d H0 Hd IH]; simpl.
  - by constructor.
  - destruct (decide (k = k0)) as [->|Hk]; constructor; done.
Qed.

Lemma dict_put_NoDup d k v :
  NoDup (Dict.keys d) -> NoDup (Dict.keys (Dict.put k v d)).
Proof.
  unfold Dict.keys. induction d as [|[k0 v0] d IH]; simpl; intros Hnd.
  - apply NoDup_singleton.
  - apply NoDup_cons in Hnd as [Hni Hnd].
    destruct (decide (k = k0)) as [->|Hk]; simpl.
    + by apply NoDup_cons.
    + apply NoDup_cons. split; [|by apply IH].
      intros Hin. apply Hni.
      destruct (Dict.get k d) as [v1|] eqn:Hg.
      * pose proof (dict_keys_put_present d k v v1 Hg) as Hk'.
        unfold Dict.keys in Hk'. by rewrite Hk' in Hin.
      * clear IH Hnd Hni. induction d as [|[k1 v1] d IH']; simpl in *.
        -- apply list_elem_of_singleton in Hin. done.
        -- destruct (decide (k = k1)) as [->|Hk1]; simpl in *; [done|].
           apply elem_of_cons in Hin as [->|Hin]; [left|right].
           apply IH'; [done|]. by destruct (decide (k = k1)).
Qed.

Lemma dict_elem_get d k v :
  NoDup (Dict.keys d) -> (k, v) ∈ d -> Dict.get k d = Some v.
Proof.
  unfold Dict.keys. induction d as [|[k0 v0] d IH]; simpl; intros Hnd Hin.
  - by apply elem_of_nil in Hin.
  - apply NoDup_cons in Hnd as [Hni Hnd].
    apply elem_of_cons in Hin as [[= -> ->]|Hin].
    + by rewrite decide_True.
    + rewrite decide_False; [by apply IH|].
      intros ->. apply Hni. apply list_elem_of_fmap. by exists (k0, v).
Qed.
End DictFacts.

(** ** The patterns *)

Lemma first_match_Some {A} (f : nat -> option A) (ns : list nat) (a : A) :
  first_match f ns = Some a -> exists n, n ∈ ns /\ f n = Some a.
Proof.
  induction ns as [|n ns IH]; simpl; [done|].
  destruct (f n) as [a'|] eqn:E.
  - intros [= <-]. exists n. split; [left|done].
  - intros (n' & Hin & Hn')%IH. exists n'. split; [by right|done].
Qed.

Lemma span_fst_length (p : N -> bool) (s : str) :
  length (span p s).1 <= length s.
Proof.
  rewrite <- (span_app p s) at 2. rewrite length_app. lia.
Qed.

Lemma span_snd_head (p : N -> bool) (s : str) :
  match (span p s).2 with [] => True | c :: _ => p c = false end.
Proof.
  induction s as [|c s IH]; [done|]. simpl.
  destruct (p c) eqn:E; [|done]. by destruct (span p s).
Qed.

Lemma forallb_take (p : N -> bool) (n : nat) (s : str) :
  forallb p s = true -> forallb p (take n s) = true.
Proof.
  revert n. induction s as [|c s IH]; intros [|n]; simpl; try done.
  rewrite !andb_true_iff. intros [-> Hs]. by rewrite IH.
Qed.

Lemma take_span_forall (p : N -> bool) (n : nat) (s : str) :
  n <= length (span p s).1 -> forallb p (take n s) = true.
Proof.
  intros Hn. rewrite <- (span_app p s), take_app_le by done.
  apply forallb_take, span_fst_forall.
Qed.

Lemma first_match_is_Some {A} (f : nat -> option A) (ns : list nat) (n : nat) :
  n ∈ ns -> is_Some (f n) -> is_Some (first_match f ns).
Proof.
  induction ns as [|n' ns IH]; simpl; intros Hin Hn.
  - by apply elem_of_nil in Hin.
  - destruct (f n') as [a|] eqn:E; [done|].
    apply elem_of_cons in Hin as [->|Hin]; [|by apply IH].
    rewrite E in Hn. by destruct Hn.
Qed.

Lemma span_fst_prefix (p : N -> bool) (piece rest : str) :
  forallb p piece = true -> length piece <= length (span p (piece ++ rest)).1.
Proof.
  induction piece as [|c piece IH]; simpl; [lia|].
  rewrite andb_true_iff. intros [-> Hp]. specialize (IH Hp).
  destruct (span p (piece ++ rest)). simpl in *. lia.
Qed.

(** Whether a run of [n] characters is within the bounds of a repetition *)
Definition within (atleast : nat) (atmost : option nat) (n : nat) : Prop :=
  atleast <= n /\ match atmost with Some m => n <= m | None => True end.

Lemma lengths_spec (atleast : nat) (atmost : option nat) (cls : N -> bool)
    (s : str) (n : nat) :
  In n (lengths atleast atmost cls s)
  <-> within atleast atmost n /\ n <= length (span cls s).1.
Proof.
  unfold lengths, within. rewrite in_seq. destruct atmost; lia.
Qed.

(** A match goes through a literal by taking its character. *)
Lemma run_Lit (fin : str -> bool) (c : N) (pat : list atom) (s : str)
    (gs : groups) :
  run fin (Lit c :: pat) s = Some gs ->
  exists s', s = c :: s' /\ run fin pat s' = Some gs.
Proof.
  simpl. destruct s as [|x s']; [done|].
  destruct (N.eqb_spec x c) as [->|]; [|done]. by exists s'.
Qed.

(** A match goes through a repetition by taking a run of its class, of a
    length within its bounds. *)
Lemma run_Rep (fin : str -> bool) (greedy : bool) (atleast : nat)
    (atmost : option nat) (cls : N -> bool) (name : option string)
    (pat : list atom) (s : str) (gs : groups) :
  run fin (Rep greedy atleast atmost cls name :: pat) s = Some gs ->
  exists piece rest gs',
    s = piece ++ rest /\ within atleast atmost (length piece)
    /\ forallb cls piece = true
    /\ run fin pat rest = Some gs'
    /\ gs = add_group name piece gs'.
Proof.
  cbn [run]. intros (n & Hin & Hn)%first_match_Some.
  destruct (run fin pat (drop n s)) as [gs'|] eqn:E; [|done].
  injection Hn as <-.
  assert (Hr : within atleast atmost n /\ n <= length (span cls s).1).
  { apply lengths_spec.
    destruct greedy; [apply in_rev|]; by apply list_elem_of_In. }
  destruct Hr as [Hw Hn].
  pose proof (span_fst_length cls s).
  exists (take n s), (drop n s), gs'.
  rewrite take_drop, length_take, Nat.min_l by lia.
  repeat split; try done; try apply Hw.
  by apply take_span_forall.
Qed.

(** The search finds a match whenever the string can be split among the
    atoms of the pattern. *)
Fixpoint splits (fin : str -> bool) (pat : list atom) (s : str) : Prop :=
  match pat with
  | [] => fin s = true
  | Lit c :: pat' => exists s', s = c :: s' /\ splits fin pat' s'
  | Rep _ atleast atmost cls _ :: pat' =>
      exists piece rest,
        s = piece ++ rest /\ within atleast atmost (length piece)
        /\ forallb cls piece = true /\ splits fin pat' rest
  end.

Lemma run_complete (fin : str -> bool) (pat : list atom) (s : str) :
  splits fin pat s -> is_Some (run fin pat s).
Proof.
  revert s. induction pat as [|[c|greedy atleast atmost cls name] pat IH];
    intros s; cbn [splits run].
  - by intros ->.
  - intros (s' & -> & Hs'). rewrite N.eqb_refl. by apply IH.
  - intros (piece & rest & -> & Hw & Hc & Hr).
    apply (first_match_is_Some _ _ (length piece)).
    + assert (Hin : In (length piece)
                      (lengths atleast atmost cls (piece ++ rest))).
      { apply lengths_spec. split; [done|]. by apply span_fst_prefix. }
      apply list_elem_of_In. destruct greedy; [by apply in_rev in Hin|done].
    + rewrite drop_app_length. by destruct (IH _ Hr) as [gs ->].
Qed.

Lemma run_sound (fin : str -> bool) (pat : list atom) (s : str) (gs : groups) :
  run fin pat s = Some gs -> splits fin pat s.
Proof.
  revert s gs. induction pat as [|[c|greedy atleast atmost cls name] pat IH];
    intros s gs H.
  - simpl in *. by destruct (fin s).
  - apply run_Lit in H as (s' & -> & H). exists s'. eauto.
  - apply run_Rep in H as (piece & rest & gs' & -> & Hw & Hc & H & _).
    exists piece, rest. eauto.
Qed.

Lemma at_end_length (s : str) : at_end s = true -> length s <= 1.
Proof. destruct s as [|c [|d s]]; simpl; (done || lia). Qed.

(** The greedy white space that ends a pattern takes all that is left, a
    final line feed included. *)
Lemma re_match_final_space (name : option string) (s : str) (gs : groups) :
  run at_end [star isspace name] s = Some gs ->
  forallb isspace s = true /\ gs = add_group name s [].
Proof.
  cbn [run star]. unfold lengths.
  pose proof (span_app isspace s) as Hs.
  pose proof (span_fst_forall isspace s) as Ha.
  pose proof (span_snd_head isspace s) as Hb.
  destruct (span isspace s) as [a b]. cbn [fst snd] in *.
  rewrite Nat.sub_0_r, seq_S, rev_app_distr. cbn [rev app first_match].
  rewrite Nat.add_0_l.
  assert (Hd : drop (length a) s = b) by (by rewrite <- Hs, drop_app_length).
  rewrite Hd. destruct b as [|c b].
  - cbn [at_end]. rewrite app_nil_r in Hs. subst a. rewrite firstn_all.
    by intros [= <-].
  - assert (at_end (c :: b) = false) as ->.
    { destruct b; [|done]. simpl. apply N.eqb_neq. intros ->. done. }
    intros (n & Hin & Hn)%first_match_Some. exfalso.
    apply list_elem_of_In, in_rev, in_seq in Hin.
    destruct (at_end (drop n s)) eqn:E; [|done].
    apply at_end_length in E. rewrite length_drop, <- Hs, length_app in E.
    simpl in E. lia.
Qed.

(** What a match of the key pattern is made of. *)
Lemma keyval_shape (raw : str) (km : groups) :
  _KEYVAL_RE raw = Some km ->
  exists p k w1 w2 v suf,
    raw = p ++ k ++ w1 ++ [EQUALS] ++ w2 ++ v ++ suf
    /\ km = [("prefix", p); ("key", k); ("val", v); ("suffix", suf)]%string
    /\ forallb isspace p = true /\ forallb keychar k = true /\ k <> []
    /\ forallb isspace w1 = true /\ forallb isspace w2 = true
    /\ forallb dotchar v = true /\ forallb isspace suf = true.
Proof.
  unfold _KEYVAL_RE, re_match. intros H.
  apply run_Rep in H as (p & r1 & g1 & -> & _ & Hp & H & ->).
  apply run_Rep in H as (k & r2 & g2 & -> & [Hk _] & Hkc & H & ->).
  apply run_Rep in H as (w1 & r3 & g3 & -> & _ & Hw1 & H & ->).
  apply run_Lit in H as (r4 & -> & H).
  apply run_Rep in H as (w2 & r5 & g5 & -> & _ & Hw2 & H & ->).
  apply run_Rep in H as (v & r6 & g6 & -> & _ & Hv & H & ->).
  apply re_match_final_space in H as [Hsuf ->].
  exists p, k, w1, w2, v, r6. repeat split; try done.
  intros ->. simpl in Hk. lia.
Qed.

Lemma keyval_suffix_last (raw : str) (km : groups) :
  _KEYVAL_RE raw = Some km ->
  group "suffix" km = [] \/ last (group "suffix" km) = last raw.
Proof.
  intros (p & k & w1 & w2 & v & suf & -> & -> & _)%keyval_shape.
  change (group "suffix" _) with suf.
  destruct suf as [|c suf]; [by left|]. right.
  rewrite !app_assoc, last_app.
  destruct (last (c :: suf)) eqn:E; [done|]. by apply last_None in E.
Qed.

Lemma first_match_lazy {A} (f : nat -> option A) (lo k : nat) (a : A) :
  first_match f (seq lo k) = Some a ->
  exists n, lo <= n < lo + k /\ f n = Some a
            /\ forall m, lo <= m < n -> f m = None.
Proof.
  revert lo. induction k as [|k IH]; intros lo; simpl; [done|].
  destruct (f lo) as [a'|] eqn:E.
  - intros [= <-]. exists lo. split; [lia|]. split; [done|]. lia.
  - intros (n & Hn & Hf & Hb)%IH. exists n. split; [lia|]. split; [done|].
    intros m Hm. destruct (decide (m = lo)) as [->|]; [done|].
    apply Hb. lia.
Qed.

Lemma first_match_greedy {A} (f : nat -> option A) (lo k : nat) (a : A) :
  first_match f (rev (seq lo k)) = Some a ->
  exists n, lo <= n < lo + k /\ f n = Some a
            /\ forall m, n < m < lo + k -> f m = None.
Proof.
  induction k as [|k IH]; [done|].
  rewrite seq_S, rev_app_distr. simpl.
  destruct (f (lo + k)) as [a'|] eqn:E.
  - intros [= <-]. exists (lo + k). split; [lia|]. split; [done|]. lia.
  - intros (n & Hn & Hf & Hb)%IH. exists n. split; [lia|]. split; [done|].
    intros m Hm. destruct (decide (m = lo + k)) as [->|]; [done|].
    apply Hb. lia.
Qed.

(** A lazy repetition takes the shortest run that lets the rest match, a
    greedy one the longest. *)
Lemma run_Rep_lazy (fin : str -> bool) (atleast : nat) (atmost : option nat)
    (cls : N -> bool) (name : option string) (pat : list atom) (s : str)
    (gs : groups) :
  run fin (Rep false atleast atmost cls name :: pat) s = Some gs ->
  exists piece rest gs',
    s = piece ++ rest /\ forallb cls piece = true
    /\ run fin pat rest = Some gs'
    /\ gs = add_group name piece gs'
    /\ forall m, atleast <= m < length piece -> run fin pat (drop m s) = None.
Proof.
  intros Hr.
  destruct (run_Rep _ _ _ _ _ _ _ _ _ Hr) as (piece & rest & gs' & Hs & _ & Hc & Hp & Hg).
  cbn [run] in Hr. unfold lengths in Hr.
  apply first_match_lazy in Hr as (n & Hn & Hf & Hb).
  destruct (run fin pat (drop n s)) as [gs''|] eqn:E; [|done].
  injection Hf as <-.
  pose proof (span_fst_length cls s) as Hlen.
  assert (Hnl : n <= length s).
  { destruct atmost; lia. }
  exists (take n s), (drop n s), gs''. rewrite take_drop, length_take.
  split; [done|]. split.
  { apply take_span_forall. destruct atmost; lia. }
  split; [done|]. split; [done|].
  intros m Hm. specialize (Hb m). destruct (run fin pat (drop m s)); [|done].
  discriminate Hb. lia.
Qed.

Lemma run_Rep_greedy (fin : str -> bool) (atleast : nat) (atmost : option nat)
    (cls : N -> bool) (name : option string) (pat : list atom) (s : str)
    (gs : groups) :
  run fin (Rep true atleast atmost cls name :: pat) s = Some gs ->
  exists piece rest gs',
    s = piece ++ rest /\ forallb cls piece = true
    /\ run fin pat rest = Some gs'
    /\ gs = add_group name piece gs'
    /\ forall m, length piece < m -> In m (lengths atleast atmost cls s) ->
                 run fin pat (drop m s) = None.
Proof.
  intros Hr. cbn [run] in Hr.
  assert (Hspec := lengths_spec atleast atmost cls s).
  unfold lengths in Hr, Hspec |- *.
  apply first_match_greedy in Hr as (n & Hn & Hf & Hb).
  destruct (run fin pat (drop n s)) as [gs''|] eqn:E; [|done].
  injection Hf as <-.
  pose proof (span_fst_length cls s) as Hlen.
  assert (Hnl : n <= length s).
  { destruct atmost; lia. }
  exists (take n s), (drop n s), gs''. rewrite take_drop, length_take.
  split; [done|]. split.
  { apply take_span_forall. destruct atmost; lia. }
  split; [done|]. split; [done|].
  intros m Hm Hin. apply in_seq in Hin. specialize (Hb m).
  destruct (run fin pat (drop m s)); [|done].
  discriminate Hb. lia.
Qed.

Lemma final_space_found (name : option string) (s : str) :
  forallb isspace s = true -> is_Some (run at_end [star isspace name] s).
Proof.
  intros Hs. apply run_complete. unfold star. cbn [splits].
  exists s, []. rewrite app_nil_r. split; [done|].
  split; [split; [lia|done]|]. done.
Qed.

(** The value group of a match of the key pattern has no white space at
    either end. *)
Lemma keyval_val_trimmed (raw : str) (km : groups) :
  _KEYVAL_RE raw = Some km ->
  forallb dotchar (group "val" km) = true
  /\ match group "val" km with [] => True | c :: _ => isspace c = false end
  /\ match last (group "val" km) with
     | None => True
     | Some c => isspace c = false
     end
  /\ (group "val" km = [] -> group "suffix" km = []).
Proof.
  unfold _KEYVAL_RE, re_match, star, lazy_plus, lazy_star. intros Hm.
  apply run_Rep in Hm as (p & r1 & g1 & -> & _ & Hp & Hm & ->).
  apply run_Rep in Hm as (k & r2 & g2 & -> & _ & Hkc & Hm & ->).
  apply run_Rep in Hm as (w1 & r3 & g3 & -> & _ & Hw1 & Hm & ->).
  apply run_Lit in Hm as (r4 & -> & Hm).
  apply run_Rep_greedy in Hm as (w2 & r5 & g5 & -> & Hw2 & Hm & -> & Hlong).
  apply run_Rep_lazy in Hm as (v & r6 & g6 & -> & Hv & Hm & -> & Hshort).
  pose proof Hm as Hm'.
  apply re_match_final_space in Hm' as [Hsuf ->].
  cbn [add_group group String.eqb Ascii.eqb Bool.eqb].
  split; [done|]. split.
  - destruct v as [|c v]; [done|].
    destruct (isspace c) eqn:Ec; [|done]. exfalso.
    assert (Hnone : run at_end
                      [Rep false 0 None dotchar (Some "val"%string);
                       Rep true 0 None isspace (Some "suffix"%string)]
                      (drop (S (length w2)) (w2 ++ (c :: v) ++ r6)) = None).
    { apply Hlong; [lia|]. apply lengths_spec. split; [split; [lia|done]|].
      replace (w2 ++ (c :: v) ++ r6) with ((w2 ++ [c]) ++ v ++ r6)
        by (by rewrite <- !app_assoc).
      replace (S (length w2)) with (length (w2 ++ [c]))
        by (rewrite length_app; simpl; lia).
      apply span_fst_prefix. rewrite forallb_app, Hw2. simpl. by rewrite Ec. }
    replace (w2 ++ (c :: v) ++ r6) with ((w2 ++ [c]) ++ v ++ r6) in Hnone
      by (by rewrite <- !app_assoc).
    rewrite drop_app_length' in Hnone by (rewrite length_app; simpl; lia).
    assert (Hsome : is_Some (run at_end
                      [Rep false 0 None dotchar (Some "val"%string);
                       Rep true 0 None isspace (Some "suffix"%string)]
                      (v ++ r6))).
    { apply run_complete. cbn [splits]. exists v, r6. split; [done|].
      split; [split; [lia|done]|]. simpl in Hv.
      apply andb_true_iff in Hv as [_ Hv]. split; [done|].
      exists r6, []. rewrite app_nil_r. split; [done|].
      split; [split; [lia|done]|]. done. }
    rewrite Hnone in Hsome. by destruct Hsome.
  - split.
    + destruct (last v) as [c|] eqn:El; [|done].
      destruct (isspace c) eqn:Ec; [|done]. exfalso.
      apply last_Some in El as [v' ->].
      assert (Hnone : run at_end
                        [Rep true 0 None isspace (Some "suffix"%string)]
                        (drop (length v') ((v' ++ [c]) ++ r6)) = None).
      { apply Hshort. rewrite length_app. simpl. lia. }
      rewrite <- app_assoc, drop_app_length in Hnone.
      destruct (final_space_found (Some "suffix"%string) ([c] ++ r6)) as [g Hg].
      { simpl. by rewrite Ec, Hsuf. }
      unfold star in Hg. congruence.
    + intros ->. destruct r6 as [|c r6]; [done|]. exfalso.
      simpl in Hsuf. apply andb_true_iff in Hsuf as [Ec Hsuf].
      assert (Hnone : run at_end
                        [Rep false 0 None dotchar (Some "val"%string);
                         Rep true 0 None isspace (Some "suffix"%string)]
                        (drop (S (length w2)) (w2 ++ [] ++ c :: r6)) = None).
      { apply Hlong; [lia|]. apply lengths_spec. split; [split; [lia|done]|].
        replace (w2 ++ [] ++ c :: r6) with ((w2 ++ [c]) ++ r6)
          by (by rewrite <- !app_assoc).
        replace (S (length w2)) with (length (w2 ++ [c]))
          by (rewrite length_app; simpl; lia).
        apply span_fst_prefix. rewrite forallb_app, Hw2. simpl. by rewrite Ec. }
      replace (w2 ++ [] ++ c :: r6) with ((w2 ++ [c]) ++ r6) in Hnone
        by (by rewrite <- !app_assoc).
      rewrite drop_app_length' in Hnone by (rewrite length_app; simpl; lia).
      assert (Hsome : is_Some (run at_end
                        [Rep false 0 None dotchar (Some "val"%string);
                         Rep true 0 None isspace (Some "suffix"%string)]
                        r6)).
      { apply run_complete. cbn [splits]. exists [], r6. split; [done|].
        split; [split; [simpl; lia|done]|]. split; [done|].
        exists r6, []. rewrite app_nil_r. split; [done|].
        split; [split; [lia|done]|]. done. }
      rewrite Hnone in Hsome. by destruct Hsome.
Qed.

Lemma keyval_before_after (raw : str) (km : groups) :
  _KEYVAL_RE raw = Some km ->
  exists before after,
    raw = before ++ [EQUALS] ++ after
    /\ (EQUALS ∉ before)
    /\ _norm_key (group "key" km) = strip before
    /\ rstrip_by is_crlf (group "val" km) = strip after.
Proof.
  intros Hk.
  destruct (keyval_val_trimmed raw km Hk) as (_ & Hhead & Hlast & _).
  destruct (trimmed_fixed _ Hhead Hlast) as [Hs Hr].
  apply keyval_shape in Hk
    as (p & k & w1 & w2 & v & suf & -> & -> & Hp & Hkc & _ & Hw1 & Hw2 & _ & Hsuf).
  change (group "val" _) with v in *. change (group "key" _) with k.
  exists (p ++ k ++ w1), (w2 ++ v ++ suf).
  split; [by rewrite <- !app_assoc|]. split; [|split].
  - rewrite !elem_of_app. intros [Hin|[Hin|Hin]].
    + apply list_elem_of_In in Hin.
      rewrite forallb_forall in Hp. by specialize (Hp _ Hin).
    + apply list_elem_of_In in Hin.
      rewrite forallb_forall in Hkc. by specialize (Hkc _ Hin).
    + apply list_elem_of_In in Hin.
      rewrite forallb_forall in Hw1. by specialize (Hw1 _ Hin).
  - unfold _norm_key. by rewrite strip_app_ws.
  - rewrite Hr, strip_app_ws by done. by rewrite Hs.
Qed.

Lemma strip_space_nil (c : N) : isspace c = true -> strip [c] = [].
Proof. intros Hc. unfold strip, rstrip, lstrip. simpl. by rewrite Hc. Qed.

(** The key group of a match of the key pattern has no white space at
    either end, unless it is white space only. *)
Lemma keyval_key_trimmed (raw : str) (km : groups) :
  _KEYVAL_RE raw = Some km ->
  strip (group "key" km) <> [] ->
  match group "key" km with [] => True | c :: _ => isspace c = false end
  /\ match last (group "key" km) with
     | None => True
     | Some c => isspace c = false
     end.
Proof.
  unfold _KEYVAL_RE, re_match, star, lazy_plus, lazy_star. intros Hm.
  apply run_Rep_greedy in Hm as (p & r1 & g1 & -> & Hp & Hm & -> & Hlong).
  pose proof Hm as Hm0.
  apply run_Rep_lazy in Hm as (k & r2 & g2 & -> & Hkc & Hm & -> & Hshort).
  cbn [add_group group String.eqb Ascii.eqb Bool.eqb]. intros Hne.
  pose proof (run_sound _ _ _ _ Hm) as Hrest.
  split.
  - destruct k as [|c k']; [done|].
    destruct (isspace c) eqn:Ec; [|done]. exfalso.
    assert (Hk' : k' <> []).
    { intros ->. by rewrite strip_space_nil in Hne. }
    assert (Hnone : run at_end
              [Rep false 1 None keychar (Some "key"%string);
               Rep true 0 None isspace None; Lit EQUALS;
               Rep true 0 None isspace None;
               Rep false 0 None dotchar (Some "val"%string);
               Rep true 0 None isspace (Some "suffix"%string)]
              (drop (S (length p)) (p ++ (c :: k') ++ r2)) = None).
    { apply Hlong; [lia|]. apply lengths_spec. split; [split; [lia|done]|].
      replace (p ++ (c :: k') ++ r2) with ((p ++ [c]) ++ k' ++ r2)
        by (by rewrite <- !app_assoc).
      replace (S (length p)) with (length (p ++ [c]))
        by (rewrite length_app; simpl; lia).
      apply span_fst_prefix. rewrite forallb_app, Hp. simpl. by rewrite Ec. }
    replace (p ++ (c :: k') ++ r2) with ((p ++ [c]) ++ k' ++ r2) in Hnone
      by (by rewrite <- !app_assoc).
    rewrite drop_app_length' in Hnone by (rewrite length_app; simpl; lia).
    assert (Hsome : is_Some (run at_end
              [Rep false 1 None keychar (Some "key"%string);
               Rep true 0 None isspace None; Lit EQUALS;
               Rep true 0 None isspace None;
               Rep false 0 None dotchar (Some "val"%string);
               Rep true 0 None isspace (Some "suffix"%string)]
              (k' ++ r2))).
    { apply run_complete. cbn [splits]. exists k', r2. split; [done|].
      split; [split; [destruct k'; [done|simpl; lia]|done]|].
      simpl in Hkc. apply andb_true_iff in Hkc as [_ Hkc]. split; [done|].
      exact Hrest. }
    rewrite Hnone in Hsome. by destruct Hsome.
  - destruct (last k) as [c|] eqn:El; [|done].
    destruct (isspace c) eqn:Ec; [|done]. exfalso.
    apply last_Some in El as [k' ->].
    assert (Hk' : k' <> []).
    { intros ->. change ([] ++ [c]) with [c] in Hne.
      by rewrite strip_space_nil in Hne. }
    assert (Hnone : run at_end
              [Rep true 0 None isspace None; Lit EQUALS;
               Rep true 0 None isspace None;
               Rep false 0 None dotchar (Some "val"%string);
               Rep true 0 None isspace (Some "suffix"%string)]
              (drop (length k') ((k' ++ [c]) ++ r2)) = None).
    { apply Hshort. rewrite length_app. simpl.
      destruct k'; [done|]. simpl. lia. }
    rewrite <- app_assoc, drop_app_length in Hnone.
    assert (Hsome : is_Some (run at_end
              [Rep true 0 None isspace None; Lit EQUALS;
               Rep true 0 None isspace None;
               Rep false 0 None dotchar (Some "val"%string);
               Rep true 0 None isspace (Some "suffix"%string)]
              ([c] ++ r2))).
    { apply run_complete. cbn [splits] in Hrest |- *.
      destruct Hrest as (w1 & rest & -> & _ & Hw1 & Hr).
      exists (c :: w1), rest. split; [done|].
      split; [split; [lia|done]|]. split; [|done].
      simpl. by rewrite Ec, Hw1. }
    rewrite Hnone in Hsome. by destruct Hsome.
Qed.

(** For a key that is not empty, the prefix group is all the white space
    the line begins with and the key group is the key. *)
Lemma keyval_prefix_exact (raw : str) (km : groups) :
  _KEYVAL_RE raw = Some km ->
  _norm_key (group "key" km) <> [] ->
  group "prefix" km = (span isspace raw).1
  /\ _norm_key (group "key" km) = group "key" km.
Proof.
  intros Hk Hne.
  destruct (keyval_key_trimmed raw km Hk Hne) as [Hhead Hlast].
  destruct (trimmed_fixed _ Hhead Hlast) as [Hs _].
  split; [|exact Hs].
  apply keyval_shape in Hk
    as (p & k & w1 & w2 & v & suf & -> & -> & Hp & _ & Hk0 & _).
  change (group "key" _) with k in *. change (group "prefix" _) with p.
  rewrite span_eq; [done|done|].
  destruct k as [|c k]; [done|]. done.
Qed.

(** When the value group is not empty, the suffix group is all the white
    space the line ends with; when it is empty, so is the suffix group. *)
Lemma keyval_suffix_exact (raw : str) (km : groups) :
  _KEYVAL_RE raw = Some km ->
  (group "val" km <> [] -> raw = rstrip raw ++ group "suffix" km)
  /\ (group "val" km = [] -> group "suffix" km = []).
Proof.
  intros Hk.
  destruct (keyval_val_trimmed raw km Hk) as (_ & _ & Hlast & Hempty).
  split; [|done]. intros Hne.
  apply keyval_shape in Hk
    as (p & k & w1 & w2 & v & suf & -> & -> & _ & _ & _ & _ & _ & _ & Hsuf).
  change (group "val" _) with v in *. change (group "suffix" _) with suf.
  destruct (last v) as [c|] eqn:El; [|by apply last_None in El].
  unfold rstrip.
  replace (p ++ k ++ w1 ++ [EQUALS] ++ w2 ++ v ++ suf)
    with ((p ++ k ++ w1 ++ [EQUALS] ++ w2 ++ v) ++ suf)
    by (by rewrite <- !app_assoc).
  rewrite rstrip_by_app_ws by done.
  rewrite (rstrip_by_last _ _ c); [done| |done].
  rewrite !app_assoc, last_app. by rewrite El.
Qed.

(** ** The scan of [load] *)

Lemma load_loop_snoc (l : list str) (raw : str) (idx : nat) (st : scan) :
  load_loop idx (l ++ [raw]) st
  = load_step (idx + length l) raw (load_loop idx l st).
Proof.
  revert idx st. induction l as [|x l IH]; intros idx st; simpl.
  - by rewrite Nat.add_0_r.
  - rewrite IH. f_equal. lia.
Qed.

Lemma section_at_all (l : list str) :
  section_at l (length l) = default [] (last (omap header_name l)).
Proof. unfold section_at. by rewrite firstn_all. Qed.

Lemma section_at_app (l l' : list str) (i : nat) :
  i <= length l -> section_at (l ++ l') i = section_at l i.
Proof. intros Hi. unfold section_at. by rewrite take_app_le. Qed.

Lemma section_at_snoc_header (l : list str) (raw : str) (sm : groups) :
  _SECTION_RE raw = Some sm ->
  section_at (l ++ [raw]) (length (l ++ [raw]))
  = _norm_section (group "section" sm).
Proof.
  intros Hs. rewrite section_at_all, omap_app. simpl.
  unfold header_name at 2. rewrite Hs. simpl. by rewrite last_snoc.
Qed.

Lemma section_at_snoc_other (l : list str) (raw : str) :
  _SECTION_RE raw = None ->
  section_at (l ++ [raw]) (length (l ++ [raw])) = section_at l (length l).
Proof.
  intros Hs. rewrite !section_at_all, omap_app. simpl.
  unfold header_name at 2. rewrite Hs. simpl. by rewrite app_nil_r.
Qed.

Lemma section_at_normalized (l : list str) (i : nat) :
  _norm_section (section_at l i) = section_at l i.
Proof.
  unfold section_at. destruct (last _) as [s|] eqn:E; simpl; [|done].
  apply last_Some_elem_of, list_elem_of_omap in E as (raw & _ & Hh).
  unfold header_name in Hh. destruct (_SECTION_RE raw); [|done].
  injection Hh as <-. apply norm_section_idem.
Qed.

Lemma loaded_entry_app (l l' : list str) (t : str * str) (r : IniValueRef) :
  loaded_entry l t r -> loaded_entry (l ++ l') t r.
Proof.
  intros (raw & km & Hl & Hs & Hk & Hrest). exists raw, km.
  split; [by apply lookup_app_l_Some|]. split; [done|]. split; [done|].
  rewrite section_at_app; [done|].
  apply lookup_lt_Some in Hl. lia.
Qed.

Lemma load_step_inv (l : list str) (raw : str) (st : scan) :
  scan_inv l st -> scan_inv (l ++ [raw]) (load_step (length l) raw st).
Proof.
  intros (Hcur & Hall & Hnd). unfold load_step.
  assert (Hmono : Forall (fun tr => loaded_entry (l ++ [raw]) tr.1 tr.2)
                         (sc_refs st)).
  { eapply Forall_impl; [exact Hall|]. intros [t r]. apply loaded_entry_app. }
  destruct (_SECTION_RE raw) as [sm|] eqn:Hs.
  - assert (Hsec := section_at_snoc_header l raw sm Hs).
    destruct (decide _); (split; [by rewrite Hsec|done]).
  - assert (Hsec := section_at_snoc_other l raw Hs).
    destruct (_KEYVAL_RE raw) as [km|] eqn:Hk.
    + split; [simpl; congruence|]. simpl. split.
      * apply dict_put_Forall; [done|]. simpl.
        exists raw, km. simpl.
        split; [by apply list_lookup_middle|]. do 6 (split; [done|]).
        rewrite section_at_app by lia.
        rewrite Hcur, section_at_normalized. done.
      * by apply dict_put_NoDup.
    + split; [congruence|done].
Qed.

Lemma load_loop_inv (l : list str) : scan_inv l (load_loop 0 l scan_init).
Proof.
  induction l as [|raw l IH] using rev_ind.
  - repeat split; simpl; try constructor.
  - rewrite load_loop_snoc. simpl. by apply load_step_inv.
Qed.

Lemma loaded_entry_ok (ls : list str) (t : str * str) (r : IniValueRef) :
  loaded_entry ls t r -> entry_ok ls t r.
Proof.
  intros (raw & km & Hl & Hs & Hk & Hkey & Hval & Hpre & Hsuf & Hsec & Ht).
  split; [done|]. split; [rewrite Hsec; apply section_at_normalized|].
  split; [rewrite Hkey; apply norm_key_idem|].
  by apply lookup_lt_Some in Hl.
Qed.

(** ** The operations *)

Lemma load_loaded (content : bytes) (d0 : IniDocument) :
  load (Regular content) d0 = Returned tt (loaded content).
Proof. reflexivity. Qed.

Lemma load_returns (fs : inode) (d0 d : IniDocument) :
  load fs d0 = Returned tt d -> exists content, fs = Regular content /\ d = loaded content.
Proof.
  destruct fs as [| |content]; try done. rewrite load_loaded.
  intros [= <-]. by exists content.
Qed.

Lemma loaded_entries (content : bytes) :
  Forall (fun tr => loaded_entry (lines (loaded content)) tr.1 tr.2)
         (refs (loaded content))
  /\ NoDup (Dict.keys (refs (loaded content))).
Proof.
  destruct (load_loop_inv (splitlines (read_text content))) as (_ & Ha & Hn).
  done.
Qed.

Lemma loaded_wf (content : bytes) : wf (loaded content).
Proof.
  split; [done|]. destruct (loaded_entries content) as [Ha _].
  eapply Forall_impl; [exact Ha|]. intros [t r]. apply loaded_entry_ok.
Qed.

Lemma wf_get (d : IniDocument) (t : str * str) (r : IniValueRef) :
  wf d -> Dict.get t (refs d) = Some r -> entry_ok (lines d) t r.
Proof.
  intros [_ Ha] Hg. apply dict_get_elem in Hg.
  rewrite Forall_forall in Ha. apply (Ha _ Hg).
Qed.

(** [set] on a pair that has an Entry. *)
Lemma set_existing (fs : inode) (section key v : str) (d : IniDocument)
    (r : IniValueRef) :
  wf d ->
  Dict.get (_norm_section section, _norm_key key) (refs d) = Some r ->
  exists old,
    lines d !! line_index r = Some old
    /\ set fs section key v d
       = Returned tt
           (rewritten (_norm_section section, _norm_key key) r v old d).
Proof.
  intros Hwf Hg. pose proof (wf_get _ _ _ Hwf Hg) as (_ & _ & _ & Hlt).
  destruct (lookup_lt_is_Some_2 _ _ Hlt) as [old Hold]. exists old.
  split; [done|]. destruct Hwf as [Hl _].
  unfold set, _ensure_loaded, read, ret, modify, bind. cbv beta.
  rewrite Hl. cbv beta iota. rewrite Hg. cbn [refs lines set_refs].
  rewrite Hold. done.
Qed.

Lemma rewritten_wf (t : str * str) (r : IniValueRef) (v old : str)
    (d : IniDocument) :
  wf d -> Dict.get t (refs d) = Some r -> wf (rewritten t r v old d).
Proof.
  intros Hwf Hg. pose proof (wf_get _ _ _ Hwf Hg) as (Ht & Hs & Hk & Hlt).
  destruct Hwf as [Hl Ha]. split; [done|]. simpl.
  apply dict_put_Forall.
  - eapply Forall_impl; [exact Ha|]. intros [t' r'] (? & ? & ? & ?).
    repeat split; try done. simpl. by rewrite length_insert.
  - repeat split; try done. simpl. by rewrite length_insert.
Qed.

Lemma section_end_from_le (ls : list str) (idx : nat) :
  section_end_from idx ls <= idx + length ls.
Proof.
  revert idx. induction ls as [|raw ls IH]; intros idx; simpl; [lia|].
  destruct (_SECTION_RE raw); [lia|]. specialize (IH (S idx)). lia.
Qed.

Lemma find_section_end_le (start_idx : nat) (d : IniDocument) :
  exists n, _find_section_end_index start_idx d = Returned n d
            /\ n <= length (lines d).
Proof.
  unfold _find_section_end_index, read, ret, bind. cbv beta.
  eexists. split; [reflexivity|]. destruct (decide _) as [Hle|]; [|lia].
  pose proof (section_end_from_le (drop start_idx (lines d)) start_idx) as H.
  rewrite length_drop in H. lia.
Qed.

Lemma length_list_insert_at {A} (i : nat) (x : A) (l : list A) :
  length (list_insert_at i x l) = S (length l).
Proof.
  unfold list_insert_at. rewrite length_app. simpl.
  rewrite length_take, length_drop. lia.
Qed.

Lemma forallb_values {K V} (p : V -> bool) (d : list (K * V)) :
  Forall (fun tr => p tr.2 = true) d -> forallb p (Dict.values d) = true.
Proof.
  unfold Dict.values. induction 1 as [|[k v] d Hp Hd IH]; [done|]. simpl in *.
  by rewrite Hp, IH.
Qed.

(** [set] on a pair that has no Entry: the line it inserts and the Entry it
    records are dropped when [_reindex_refs_from] reads the file again. *)
Lemma set_new (content : bytes) (section key v : str) (d : IniDocument) :
  wf d ->
  Dict.get (_norm_section section, _norm_key key) (refs d) = None ->
  set (Regular content) section key v d
  = Returned tt (register_section (_norm_section section) (loaded content)).
Proof.
  intros Hwf Hg. destruct Hwf as [Hl Ha].
  unfold set, _ensure_loaded, read, ret, modify, bind. cbv beta.
  rewrite Hl. cbv beta iota. rewrite Hg.
  unfold _find_section_line_index, read, ret, bind. cbv beta.
  set (ins := match find_section_from _ 0 (lines d) with
              | Some i => _find_section_end_index (i + 1)
              | None => fun d1 => Returned (length (lines d)) d1
              end d).
  assert (Hins : exists n, ins = Returned n d /\ n <= length (lines d)).
  { unfold ins. destruct (find_section_from _ _ _).
    - apply find_section_end_le.
    - eexists. split; [reflexivity|lia]. }
  destruct Hins as (n & -> & Hn).
  unfold _reindex_refs_from, read, ret, modify, raise, bind. cbv beta.
  cbn [refs lines set_refs set_lines].
  rewrite forallb_values.
  { rewrite load_loaded. unfold register_section. by destruct (_ && _). }
  apply dict_put_Forall.
  - eapply Forall_impl; [exact Ha|]. intros [t r] (_ & _ & _ & Hlt). simpl.
    rewrite length_list_insert_at. apply orb_true_iff. right.
    apply Nat.ltb_lt. simpl in Hlt. lia.
  - simpl. rewrite length_list_insert_at. apply orb_true_iff. right.
    apply Nat.ltb_lt. lia.
Qed.

Lemma register_section_wf (s : str) (d : IniDocument) :
  wf d -> wf (register_section s d).
Proof. unfold register_section. by destruct (_ && _). Qed.

(** Every reachable document satisfies the invariant. *)
Lemma reachable_wf (fs : inode) (d : IniDocument) :
  reachable fs d -> wf d /\ exists content, fs = Regular content.
Proof.
  induction 1 as [d0 d Hd|d s k v d' Hr [IH Hfs] Hset].
  - apply load_returns in Hd as (content & -> & ->).
    split; [apply loaded_wf|eauto].
  - split; [|done]. destruct Hfs as [content ->].
    destruct (Dict.get (_norm_section s, _norm_key k) (refs d)) as [r|] eqn:Hg.
    + destruct (set_existing (Regular content) s k v d r IH Hg)
        as (old & Hold & Hs).
      rewrite Hs in Hset. injection Hset as <-. by apply rewritten_wf.
    + rewrite (set_new content s k v d IH Hg) in Hset. injection Hset as <-.
      apply register_section_wf, loaded_wf.
Qed.

Lemma get_wf (fs : inode) (section key : str) (d : IniDocument) :
  wf d ->
  get fs section key d
  = Returned (value <$> Dict.get (_norm_section section, _norm_key key) (refs d)) d.
Proof.
  intros [Hl _]. unfold get, _ensure_loaded, read, ret, bind. cbv beta.
  by rewrite Hl.
Qed.

Lemma save_wf (linesep : str) (content : bytes) (d : IniDocument) :
  wf d ->
  save linesep (Regular content) d
  = Returned (Regular (write_text linesep (concat (lines d)))) d.
Proof.
  intros [Hl _]. unfold save, _ensure_loaded, read, ret, bind. cbv beta.
  rewrite Hl. cbv beta iota. by rewrite writelines_concat.
Qed.

Lemma get_existing (fs : inode) (section key v0 : str) (d : IniDocument) :
  wf d -> get fs section key d = Returned (Some v0) d ->
  exists r, Dict.get (_norm_section section, _norm_key key) (refs d) = Some r
            /\ value r = v0.
Proof.
  intros Hwf. rewrite get_wf by done. intros [= Hv].
  destruct (Dict.get _ _) as [r|]; [|done]. exists r. split; [done|].
  by injection Hv.
Qed.

(** What [load] records of the line of an Entry. *)
Lemma loaded_entry_parts (content : bytes) (t : str * str) (r : IniValueRef) :
  Dict.get t (refs (loaded content)) = Some r ->
  exists old k0 w1 w2 val,
    lines (loaded content) !! line_index r = Some old
    /\ _SECTION_RE old = None
    /\ old = prefix r ++ k0 ++ w1 ++ [EQUALS] ++ w2 ++ val ++ suffix r
    /\ Ref.key r = strip k0 /\ value r = val
    /\ forallb isspace (prefix r) = true /\ forallb keychar k0 = true
    /\ forallb isspace w1 = true /\ forallb isspace w2 = true
    /\ forallb dotchar val = true /\ forallb isspace (suffix r) = true
    /\ (val = [] -> suffix r = [])
    /\ match last val with None => True | Some c => isspace c = false end
    /\ Ref.section r = section_at (lines (loaded content)) (line_index r).
Proof.
  intros Hg. destruct (loaded_entries content) as [Hent _].
  rewrite Forall_forall in Hent.
  specialize (Hent _ (dict_get_elem _ _ _ Hg)). cbn [fst snd] in Hent.
  destruct Hent
    as (old & km & Hl & Hsec & Hk & Hkey & Hv & Hpre & Hsuf & Hsat & _).
  destruct (keyval_val_trimmed old km Hk) as (_ & Hhead & Hlast & Hempty).
  destruct (trimmed_fixed _ Hhead Hlast) as [_ Hr].
  apply keyval_shape in Hk
    as (p & k & w1 & w2 & val & suf & Hraw & -> & Hp & Hkc & _ & Hw1 & Hw2
        & Hd & Hs).
  change (group "prefix" _) with p in Hpre.
  change (group "suffix" _) with suf in *.
  change (group "key" _) with k in Hkey.
  change (group "val" _) with val in *.
  exists old, k, w1, w2, val. rewrite Hpre, Hsuf, Hkey, Hv, Hr. done.
Qed.

(** The operations keep the pairs that have an Entry: only [load] changes
    them. *)
Lemma reachable_keys (content : bytes) (d : IniDocument) :
  reachable (Regular content) d ->
  Dict.keys (refs d) = Dict.keys (refs (loaded content)).
Proof.
  induction 1 as [d0 d Hd|d s k v d' Hr IH Hset].
  - apply load_returns in Hd as (content' & [= <-] & ->). done.
  - destruct (reachable_wf _ _ Hr) as [Hwf _].
    destruct (Dict.get (_norm_section s, _norm_key k) (refs d)) as [r|] eqn:Hg.
    + destruct (set_existing (Regular content) s k v d r Hwf Hg)
        as (old & Hold & Hs).
      rewrite Hs in Hset. injection Hset as <-. cbn [rewritten refs].
      by rewrite (dict_keys_put_present _ _ _ _ Hg).
    + rewrite (set_new content s k v d Hwf Hg) in Hset. injection Hset as <-.
      unfold register_section. by destruct (_ && _).
Qed.

(** What [load] records of a line, next to the line. *)
Lemma loaded_entry_exact (content : bytes) (t : str * str) (r : IniValueRef) :
  Dict.get t (refs (loaded content)) = Some r ->
  forallb isspace (prefix r) = true /\ forallb isspace (suffix r) = true
  /\ exists raw,
       lines (loaded content) !! line_index r = Some raw
       /\ (Ref.key r <> [] ->
           prefix r = (span isspace raw).1
           /\ exists rest, raw = prefix r ++ Ref.key r ++ rest)
       /\ (value r <> [] -> raw = rstrip raw ++ suffix r)
       /\ (value r = [] -> suffix r = [])
       /\ (endswith_lf raw = false -> endswith_lf (suffix r) = false)
       /\ exists b, raw = b ++ suffix r.
Proof.
  intros Hg. destruct (loaded_entries content) as [Hent _].
  rewrite Forall_forall in Hent.
  specialize (Hent _ (dict_get_elem _ _ _ Hg)). cbn [fst snd] in Hent.
  destruct Hent as (raw & km & Hl & _ & Hk & Hkey & Hv & Hpre & Hsuf & _).
  destruct (keyval_val_trimmed raw km Hk) as (_ & Hhead & Hlast & _).
  destruct (trimmed_fixed _ Hhead Hlast) as [_ Hr]. rewrite Hr in Hv.
  destruct (keyval_suffix_exact raw km Hk) as [Hs1 Hs2].
  pose proof (keyval_suffix_last raw km Hk) as Hsl.
  pose proof (keyval_shape raw km Hk)
    as (p & k & w1 & w2 & v & suf & Hraw & Hkm & Hp & _ & _ & _ & _ & _ & Hsp).
  rewrite Hpre, Hsuf, Hv, Hkey.
  split; [by rewrite Hkm|]. split; [by rewrite Hkm|].
  exists raw. split; [done|].
  split; [|split; [done|split; [done|split]]].
  - intros Hne. destruct (keyval_prefix_exact raw km Hk Hne) as [Hpx Hkx].
    split; [done|]. rewrite Hkx, Hkm. eexists. exact Hraw.
  - intros He. destruct Hsl as [->|Hsl]; [done|].
    unfold endswith_lf in *. by rewrite Hsl.
  - rewrite Hkm. exists (p ++ k ++ w1 ++ [EQUALS] ++ w2 ++ v).
    rewrite Hraw. by rewrite <- !app_assoc.
Qed.

(** In a document just loaded the index of its line tells an Entry. *)
Lemma loaded_index_inj (content : bytes) (t t' : str * str)
    (r r' : IniValueRef) :
  Dict.get t (refs (loaded content)) = Some r ->
  Dict.get t' (refs (loaded content)) = Some r' ->
  line_index r = line_index r' -> t = t'.
Proof.
  intros Hg Hg' Hi. destruct (loaded_entries content) as [Hent _].
  rewrite Forall_forall in Hent.
  pose proof (Hent _ (dict_get_elem _ _ _ Hg)) as H1.
  pose proof (Hent _ (dict_get_elem _ _ _ Hg')) as H2.
  cbn [fst snd] in H1, H2.
  destruct H1 as (raw & km & Hl & _ & Hk & Hkey & _ & _ & _ & Hsec & ->).
  destruct H2 as (raw' & km' & Hl' & _ & Hk' & Hkey' & _ & _ & _ & Hsec' & ->).
  rewrite Hi in Hl, Hsec. rewrite Hl in Hl'. injection Hl' as <-.
  rewrite Hk in Hk'. injection Hk' as <-.
  by rewrite Hsec, Hsec', Hkey, Hkey'.
Qed.

Lemma with_value_value (r : IniValueRef) : with_value (value r) r = r.
Proof. by destruct r. Qed.

Lemma loaded_entries_kept (content : bytes) :
  entries_kept content (loaded content).
Proof.
  split; [done|]. split.
  - intros t r Hg. exists r. by rewrite with_value_value.
  - intros t r old Hg Hl.
    destruct (loaded_entry_exact content t r Hg)
      as (_ & _ & raw & Hl' & Hk & _ & _ & He & b & Hb).
    rewrite Hl in Hl'. injection Hl' as <-. split; [done|]. split; [done|].
    exists b, []. rewrite app_nil_r. split; [done|by left].
Qed.

Lemma rewritten_entries_kept (content : bytes) (d : IniDocument)
    (t : str * str) (r : IniValueRef) (v old : str) :
  entries_kept content d ->
  Dict.get t (refs d) = Some r -> lines d !! line_index r = Some old ->
  entries_kept content (rewritten t r v old d).
Proof.
  intros (Hlen & Hrefs & Hlines) Hg Hold.
  assert (Hlt : line_index r < length (lines d)) by (by eapply lookup_lt_Some).
  split; [|split].
  - cbn [rewritten lines]. by rewrite length_insert.
  - intros t' r'. cbn [rewritten refs].
    destruct (decide (t = t')) as [<-|Hne].
    + rewrite dict_get_put_eq. intros [= <-].
      destruct (Hrefs _ _ Hg) as (r0 & Hg0 & Hr0). exists r0.
      split; [done|]. rewrite Hr0. by destruct r0.
    + rewrite dict_get_put_ne by done. apply Hrefs.
  - intros t' r' old'. cbn [rewritten refs lines].
    destruct (decide (t = t')) as [<-|Hne].
    + rewrite dict_get_put_eq. intros [= <-]. cbn [with_value line_index].
      rewrite list_lookup_insert_eq by done. intros [= <-].
      cbn [with_value suffix prefix Ref.key].
      destruct (Hrefs _ _ Hg) as (r0 & Hg0 & Hr0).
      destruct (loaded_entry_exact content t r0 Hg0) as (Hp & _).
      assert (Hpr : prefix r = prefix r0) by (rewrite Hr0; by destruct r0).
      split; [|split].
      * unfold rewrite_line. destruct (endswith_lf old).
        { rewrite !app_assoc, endswith_lf_app. intros He.
          by vm_compute in He. }
        rewrite app_nil_r. destruct (suffix r) as [|c suf]; [done|].
        by rewrite !app_assoc, endswith_lf_app.
      * intros Hk. split; [|unfold rewrite_line; by eexists].
        unfold rewrite_line. rewrite span_eq; [done|by rewrite Hpr|].
        destruct (Hlines _ _ _ Hg Hold) as (_ & Hkk & _).
        destruct (Hkk Hk) as (Hsp & rest & Hrest).
        destruct (Ref.key r) as [|c k] eqn:Ek; [done|]. simpl.
        pose proof (span_snd_head isspace old) as Hh.
        pose proof (span_app isspace old) as Ha.
        rewrite <- Hsp in Ha. rewrite Hrest in Ha at 2.
        apply app_inv_head in Ha. rewrite Ha in Hh. exact Hh.
      * unfold rewrite_line.
        exists (prefix r ++ Ref.key r ++ [EQUALS] ++ v),
               (if endswith_lf old then [LF] else []).
        split; [by rewrite <- !app_assoc|]. destruct (endswith_lf old); eauto.
    + rewrite dict_get_put_ne by done. intros Hg' Hl'.
      assert (Hi : line_index r' <> line_index r).
      { intros Hi. apply Hne.
        destruct (Hrefs _ _ Hg) as (r0 & Hg0 & Hr0).
        destruct (Hrefs _ _ Hg') as (r0' & Hg0' & Hr0').
        apply (loaded_index_inj content _ _ _ _ Hg0 Hg0').
        rewrite Hr0, Hr0' in Hi. by destruct r0, r0'. }
      rewrite list_lookup_insert_ne in Hl' by done.
      by apply (Hlines t').
Qed.

Lemma register_section_entries_kept (content : bytes) (s : str)
    (d : IniDocument) :
  entries_kept content d -> entries_kept content (register_section s d).
Proof. unfold register_section. by destruct (_ && _). Qed.

Lemma reachable_entries_kept (content : bytes) (d : IniDocument) :
  reachable (Regular content) d -> entries_kept content d.
Proof.
  induction 1 as [d0 d Hd|d s k v d' Hr IH Hset].
  - apply load_returns in Hd as (content' & [= <-] & ->).
    apply loaded_entries_kept.
  - destruct (reachable_wf _ _ Hr) as [Hwf _].
    destruct (Dict.get (_norm_section s, _norm_key k) (refs d)) as [r|] eqn:Hg.
    + destruct (set_existing (Regular content) s k v d r Hwf Hg)
        as (old & Hold & Hs).
      rewrite Hs in Hset. injection Hset as <-.
      by apply rewritten_entries_kept.
    + rewrite (set_new content s k v d Hwf Hg) in Hset. injection Hset as <-.
      apply register_section_entries_kept, loaded_entries_kept.
Qed.

(** ** C10: reading back what was set *)

(** C10. For every loaded document and every pair that has an Entry, [set]
    returns and the [get] that follows returns exactly the value set. *)
Theorem get_after_set (fs : inode) (d : IniDocument)
    (section key v v0 : str) :
  reachable fs d ->
  get fs section key d = Returned (Some v0) d ->
  exists d', set fs section key v d = Returned tt d'
             /\ get fs section key d' = Returned (Some v) d'.
Proof.
  intros Hr Hget. destruct (reachable_wf fs d Hr) as [Hwf _].
  destruct (get_existing fs section key v0 d Hwf Hget) as (r & Hg & _).
  destruct (set_existing fs section key v d r Hwf Hg) as (old & Hold & Hs).
  eexists. split; [exact Hs|].
  rewrite get_wf by (by apply rewritten_wf). simpl.
  by rewrite dict_get_put_eq.
Qed.

Lemma get_after_set_witness :
  exists d',
    set (Regular (text ["[A]"; "foo=1"]%string)) (py "A") (py "foo") (py "9")
        (loaded (text ["[A]"; "foo=1"]%string)) = Returned tt d'
    /\ get (Regular (text ["[A]"; "foo=1"]%string)) (py "A") (py "foo") d'
       = Returned (Some (py "9")) d'.
Proof.
  apply (get_after_set (Regular (text ["[A]"; "foo=1"]%string))
           (loaded (text ["[A]"; "foo=1"]%string))
           (py "A") (py "foo") (py "9") (py "1")).
  - apply (reach_load _ __init__). reflexivity.
  - reflexivity.
Defined.

(** ** C3: what [set] changes on an existing key *)




(** ** C2: [set] on a new key *)

(** C2 does not hold of the code. On the document of the file
    [[A]\nfoo=1\n], [set("A", "baz", "x")] returns with the lines of the
    file and without the new binding: [_reindex_refs_from] has read the
    file again and dropped the inserted line with its Entry. The claim asks
    for the lines [[A]\nfoo=1\nbaz=x\n]. *)
Theorem set_new_key_is_lost :
  exists d',
    set (Regular (text ["[A]"; "foo=1"]%string)) (py "A") (py "baz") (py "x")
        (loaded (text ["[A]"; "foo=1"]%string)) = Returned tt d'
    /\ concat (lines d') = text ["[A]"; "foo=1"]%string
    /\ concat (lines d') <> text ["[A]"; "foo=1"; "baz=x"]%string
    /\ get (Regular (text ["[A]"; "foo=1"]%string)) (py "A") (py "baz") d'
       = Returned None d'.
Proof.
  eexists. split; [vm_compute; reflexivity|].
  split; [vm_compute; reflexivity|].
  split; [vm_compute; discriminate|vm_compute; reflexivity].
Qed.

(** ** C6: line terminators *)

(** C6 does not hold of the code. On the document of the file
    [[A]\nfoo=1\n[B]\nbar=2\n], [set("A", "foo", "9")] leaves the line
    [foo=9\n\n]: the recorded suffix already holds the line feed and [set]
    appends another. Saved where [os.linesep] is LF, the file has an empty
    line after the key. *)
Theorem set_existing_doubles_terminator :
  exists d',
    set (Regular (text ["[A]"; "foo=1"; "[B]"; "bar=2"]%string))
        (py "A") (py "foo") (py "9")
        (loaded (text ["[A]"; "foo=1"; "[B]"; "bar=2"]%string))
    = Returned tt d'
    /\ lines d' !! 1 = Some (py "foo=9" ++ [LF; LF])
    /\ save posix_linesep
            (Regular (text ["[A]"; "foo=1"; "[B]"; "bar=2"]%string)) d'
       = Returned (Regular (text ["[A]"; "foo=9"; ""; "[B]"; "bar=2"]%string))
                  d'.
Proof.
  eexists. split; [vm_compute; reflexivity|].
  split; vm_compute; reflexivity.
Qed.

(** ** C4: duplicate keys *)

Lemma defines_app (l l' : list str) (j : nat) (s k v : str) :
  defines l j s k v -> defines (l ++ l') j s k v.
Proof.
  intros (raw & km & Hl & Hs & Hk & Hkey & Hv & Hsec). exists raw, km.
  split; [by apply lookup_app_l_Some|]. do 4 (split; [done|]).
  rewrite section_at_app; [done|]. apply lookup_lt_Some in Hl. lia.
Qed.

Lemma defines_snoc_inv (l : list str) (raw : str) (j : nat) (s k v : str) :
  defines (l ++ [raw]) j s k v ->
  defines l j s k v
  \/ (j = length l
      /\ exists km, _SECTION_RE raw = None /\ _KEYVAL_RE raw = Some km
                    /\ _norm_key (group "key" km) = k
                    /\ rstrip_by is_crlf (group "val" km) = v
                    /\ section_at l (length l) = s).
Proof.
  intros (rawj & km & Hl & Hs & Hk & Hkey & Hv & Hsec).
  apply lookup_app_Some in Hl as [Hl|[Hge Hl]].
  - left. exists rawj, km. do 5 (split; [done|]).
    rewrite section_at_app in Hsec; [done|]. apply lookup_lt_Some in Hl. lia.
  - right. destruct (j - length l) as [|n] eqn:E; [|done].
    injection Hl as ->. assert (j = length l) as -> by lia.
    split; [done|]. exists km. do 4 (split; [done|]).
    by rewrite section_at_app in Hsec.
Qed.

(** After the scan, the Entry of a pair is that of the last line defining
    it. *)
Lemma load_loop_last (l : list str) (j : nat) (s k v : str) :
  defines l j s k v ->
  (forall n v', j < n -> ~ defines l n s k v') ->
  exists r, Dict.get (s, k) (sc_refs (load_loop 0 l scan_init)) = Some r
            /\ line_index r = j /\ value r = v.
Proof.
  revert j s k v. induction l as [|raw l IH] using rev_ind;
    intros j s k v Hdef Hlast.
  { destruct Hdef as (? & ? & Hl & _). done. }
  rewrite load_loop_snoc. simpl.
  destruct (load_loop_inv l) as (Hcur & _ & _).
  set (st := load_loop 0 l scan_init) in *.
  apply defines_snoc_inv in Hdef as [Hdef|(-> & km & Hs & Hk & Hkey & Hv & Hsec)].
  - assert (Hj : j < length l).
    { destruct Hdef as (? & ? & Hl & _). by apply lookup_lt_Some in Hl. }
    destruct (IH j s k v Hdef) as (r & Hg & Hidx & Hval).
    { intros n v' Hn Hd. apply (Hlast n v' Hn). by apply defines_app. }
    exists r. split; [|done]. unfold load_step.
    destruct (_SECTION_RE raw) as [name|] eqn:Hs.
    { by destruct (decide _). }
    destruct (_KEYVAL_RE raw) as [km|] eqn:Hk; [|done]. simpl.
    rewrite dict_get_put_ne; [done|]. intros [= Hs' Hk'].
    apply (Hlast (length l) (rstrip_by is_crlf (group "val" km)) Hj).
    exists raw, km. split; [by apply list_lookup_middle|].
    do 4 (split; [done|]).
    rewrite section_at_app by lia. rewrite <- Hs', Hcur.
    by rewrite section_at_normalized.
  - unfold load_step. rewrite Hs, Hk. simpl.
    rewrite Hcur, section_at_normalized, Hsec, Hkey, dict_get_put_eq.
    eexists. split; [reflexivity|]. done.
Qed.

(** C4. When two lines of a loaded document define the same key in the same
    section and no later line does, [get] returns the value of the second
    line; [set] rewrites the second line, which becomes its prefix group,
    the key, an equals sign, the new value, its suffix group and a line
    feed if it ended in one; every other line, the first of the two among
    them, stays as it is; [get] then returns the new value; and no pair has
    more than one Entry. *)
Theorem last_duplicate_wins (content : bytes) (i j : nat)
    (s k vi vj v : str) :
  i < j ->
  defines (lines (loaded content)) i s k vi ->
  defines (lines (loaded content)) j s k vj ->
  (forall n v', j < n -> ~ defines (lines (loaded content)) n s k v') ->
  get (Regular content) s k (loaded content)
  = Returned (Some vj) (loaded content)
  /\ (exists d' old km,
        set (Regular content) s k v (loaded content) = Returned tt d'
        /\ lines (loaded content) !! j = Some old
        /\ _KEYVAL_RE old = Some km
        /\ lines d' !! j
           = Some (group "prefix" km ++ k ++ [EQUALS] ++ v
                   ++ group "suffix" km
                   ++ (if endswith_lf old then [LF] else []))
        /\ lines d' !! i = lines (loaded content) !! i
        /\ (forall n, n <> j -> lines d' !! n = lines (loaded content) !! n)
        /\ length (lines d') = length (lines (loaded content))
        /\ get (Regular content) s k d' = Returned (Some v) d')
  /\ NoDup (Dict.keys (refs (loaded content))).
Proof.
  intros Hij Hi Hj Hlast.
  destruct (load_loop_last _ j s k vj Hj Hlast) as (r & Hg & Hidx & Hval).
  assert (Hs : _norm_section s = s).
  { destruct Hj as (? & ? & _ & _ & _ & _ & _ & <-).
    apply section_at_normalized. }
  assert (Hk : _norm_key k = k).
  { destruct Hj as (? & ? & _ & _ & _ & <- & _). apply norm_key_idem. }
  pose proof (loaded_wf content) as Hwf.
  assert (Hg' : Dict.get (_norm_section s, _norm_key k)
                         (refs (loaded content)) = Some r).
  { by rewrite Hs, Hk. }
  split; [|split].
  - rewrite get_wf by done. by rewrite Hg', <- Hval.
  - destruct (set_existing (Regular content) s k v _ r Hwf Hg')
      as (old & Hold & Hset).
    destruct (loaded_entries content) as [Hent _].
    rewrite Forall_forall in Hent.
    specialize (Hent _ (dict_get_elem _ _ _ Hg)). cbn [fst snd] in Hent.
    destruct Hent as (raw & km & Hl & _ & Hkm & _ & _ & Hpre & Hsuf & _ & Ht).
    rewrite Hold in Hl. injection Hl as <-. injection Ht as _ Hkey.
    eexists _, old, km. split; [exact Hset|]. unfold rewritten at 1 2 3 4.
    cbn [lines]. rewrite Hidx in Hold |- *.
    split; [done|]. split; [done|].
    split.
    { rewrite list_lookup_insert_eq by (by eapply lookup_lt_Some).
      unfold rewrite_line. by rewrite Hpre, Hsuf, <- Hkey. }
    split; [apply list_lookup_insert_ne; lia|].
    split; [intros n Hn; by apply list_lookup_insert_ne|].
    split; [by rewrite length_insert|].
    rewrite get_wf by (by apply rewritten_wf). simpl.
    by rewrite dict_get_put_eq.
  - apply loaded_entries.
Qed.

Lemma last_duplicate_wins_witness :
  get (Regular (text ["[A]"; "k=1"; "k = 2 "]%string)) (py "A") (py "k")
      (loaded (text ["[A]"; "k=1"; "k = 2 "]%string))
  = Returned (Some (py "2")) (loaded (text ["[A]"; "k=1"; "k = 2 "]%string))
  /\ (exists d' old km,
        set (Regular (text ["[A]"; "k=1"; "k = 2 "]%string)) (py "A") (py "k")
            (py "3") (loaded (text ["[A]"; "k=1"; "k = 2 "]%string))
        = Returned tt d'
        /\ lines (loaded (text ["[A]"; "k=1"; "k = 2 "]%string)) !! 2
           = Some old
        /\ _KEYVAL_RE old = Some km
        /\ lines d' !! 2
           = Some (group "prefix" km ++ py "k" ++ [EQUALS] ++ py "3"
                   ++ group "suffix" km
                   ++ (if endswith_lf old then [LF] else []))
        /\ lines d' !! 1
           = lines (loaded (text ["[A]"; "k=1"; "k = 2 "]%string)) !! 1
        /\ (forall n, n <> 2 ->
              lines d' !! n
              = lines (loaded (text ["[A]"; "k=1"; "k = 2 "]%string)) !! n)
        /\ length (lines d')
           = length (lines (loaded (text ["[A]"; "k=1"; "k = 2 "]%string)))
        /\ get (Regular (text ["[A]"; "k=1"; "k = 2 "]%string)) (py "A")
               (py "k") d' = Returned (Some (py "3")) d')
  /\ NoDup (Dict.keys (refs (loaded (text ["[A]"; "k=1"; "k = 2 "]%string)))).
Proof.
  apply (last_duplicate_wins (text ["[A]"; "k=1"; "k = 2 "]%string) 1 2
           (py "A") (py "k") (py "1") (py "2") (py "3")).
  - lia.
  - eexists _, _. repeat split; reflexivity.
  - eexists _, _. repeat split; reflexivity.
  - intros n v' Hn (raw & km & Hl & _).
    do 3 (destruct n as [|n]; [lia|]). done.
Defined.

(** ** C5: setting twice *)

Lemma dict_put_put {K V} `{EqDecision K} (k : K) (v v' : V)
    (d : list (K * V)) :
  Dict.put k v (Dict.put k v' d) = Dict.put k v d.
Proof.
  induction d as [|[k0 v0] d IH]; simpl.
  - by rewrite decide_True.
  - destruct (decide (k = k0)) as [->|Hk]; simpl.
    + by rewrite decide_True.
    + rewrite decide_False by done. by rewrite IH.
Qed.

(** Rewriting the line of an Entry keeps the line ending in a line feed or
    not, for a value that does not end in one. *)
Lemma rewrite_line_keeps_end (r : IniValueRef) (v old : str) :
  endswith_lf v = false ->
  (endswith_lf old = false -> endswith_lf (suffix r) = false) ->
  endswith_lf (rewrite_line r v old) = endswith_lf old.
Proof.
  intros Hv Hsuf. unfold rewrite_line.
  destruct (endswith_lf old) eqn:Ho.
  - rewrite !app_assoc. by rewrite endswith_lf_app.
  - rewrite app_nil_r. specialize (Hsuf eq_refl).
    destruct (suffix r) as [|c suf] eqn:Es.
    + rewrite app_nil_r. destruct v as [|c v].
      * rewrite app_nil_r, !app_assoc. by rewrite endswith_lf_app.
      * rewrite !app_assoc. by rewrite endswith_lf_app.
    + by rewrite !app_assoc, endswith_lf_app.
Qed.

(** C5, as amended. On every loaded document, one just loaded or one that
    calls of [set] have changed, for a value that does not end in a line
    feed, [set] returns and a second [set] of the same value returns the same
    document: same lines, same Entries, same order of the sections, for a
    pair that has an Entry and for one that has none. *)
Theorem set_twice (fs : inode) (d : IniDocument) (section key v : str) :
  reachable fs d ->
  endswith_lf v = false ->
  exists d1,
    set fs section key v d = Returned tt d1
    /\ set fs section key v d1 = Returned tt d1.
Proof.
  intros Hr Hv. destruct (reachable_wf fs d Hr) as [Hwf [content ->]].
  destruct (reachable_entries_kept content d Hr) as (_ & _ & Hlines).
  set (t := (_norm_section section, _norm_key key)).
  destruct (Dict.get t (refs d)) as [r|] eqn:Hg.
  - destruct (set_existing (Regular content) section key v _ r Hwf Hg)
      as (old & Hold & Hset).
    eexists. split; [exact Hset|]. fold t.
    set (d1 := rewritten t r v old d).
    assert (Hwf1 : wf d1) by (by apply rewritten_wf).
    assert (Hg1 : Dict.get t (refs d1) = Some (with_value v r)).
    { apply dict_get_put_eq. }
    destruct (set_existing (Regular content) section key v d1 _ Hwf1 Hg1)
      as (old1 & Hold1 & Hset1).
    rewrite Hset1. f_equal. fold t. unfold d1 in Hold1 |- *.
    unfold rewritten in Hold1 |- *.
    cbn [lines refs section_order _loaded with_value line_index prefix suffix
         Ref.key] in Hold1 |- *.
    rewrite list_lookup_insert_eq in Hold1
      by (eapply lookup_lt_Some; exact Hold).
    injection Hold1 as <-.
    rewrite list_insert_insert_eq, dict_put_put. f_equal. f_equal.
    unfold rewrite_line at 1.
    cbn [with_value line_index prefix suffix Ref.key].
    rewrite rewrite_line_keeps_end; [done|done|].
    by destruct (Hlines _ _ _ Hg Hold) as (? & _).
  - rewrite (set_new content section key v _ Hwf Hg).
    eexists. split; [reflexivity|].
    apply set_new; [apply register_section_wf, loaded_wf|].
    apply dict_get_None in Hg. rewrite (reachable_keys content d Hr) in Hg.
    apply dict_get_None in Hg. unfold register_section.
    by destruct (_ && _).
Qed.

Lemma set_twice_witness :
  exists d d1,
    set (Regular (text ["[A]"; "foo=1"]%string)) (py "A") (py "foo") (py "5")
        (loaded (text ["[A]"; "foo=1"]%string)) = Returned tt d
    /\ set (Regular (text ["[A]"; "foo=1"]%string)) (py "A") (py "foo")
           (py "9") d = Returned tt d1
    /\ set (Regular (text ["[A]"; "foo=1"]%string)) (py "A") (py "foo")
           (py "9") d1 = Returned tt d1.
Proof.
  destruct (set (Regular (text ["[A]"; "foo=1"]%string)) (py "A") (py "foo")
                (py "5") (loaded (text ["[A]"; "foo=1"]%string)))
    as [[] d|e d] eqn:Hd; [|by vm_compute in Hd].
  exists d.
  destruct (set_twice (Regular (text ["[A]"; "foo=1"]%string)) d
              (py "A") (py "foo") (py "9")) as (d1 & H1 & H2).
  - apply (reach_set _ (loaded (text ["[A]"; "foo=1"]%string))
             (py "A") (py "foo") (py "5")); [|exact Hd].
    apply (reach_load _ __init__). reflexivity.
  - reflexivity.
  - exists d1. done.
Defined.

(** C5, as stated, fails for a value that ends in a line feed: on the file
    [a=1], which has no line terminator, setting the value [2\n] once gives
    the line [a=2\n] and setting it again gives [a=2\n\n]. *)
Lemma set_twice_appends_line_feed :
  exists d1 d2,
    set (Regular (py "a=1")) [] (py "a") (py "2" ++ [LF]) (loaded (py "a=1"))
    = Returned tt d1
    /\ set (Regular (py "a=1")) [] (py "a") (py "2" ++ [LF]) d1
       = Returned tt d2
    /\ lines d1 = [py "a=2" ++ [LF]]
    /\ lines d2 = [py "a=2" ++ [LF; LF]]
    /\ d1 <> d2.
Proof.
  eexists _, _. split; [vm_compute; reflexivity|].
  split; [vm_compute; reflexivity|]. split; [reflexivity|].
  split; [reflexivity|]. discriminate.
Qed.

(** ** C7: failures *)



(** ** C8: the classifier *)

Section Classifier.
Context `{Runtime}.

Lemma is_bool_text_true (v : str) :
  _is_bool_text v = Some true
  <-> lower (strip v) ∈ [py "true"; py "1"; py "yes"; py "on"].
Proof.
  unfold _is_bool_text, str_in. repeat case_bool_decide; naive_solver.
Qed.

Lemma bool_words_disjoint (t : str) :
  t ∈ [py "false"; py "0"; py "no"; py "off"] ->
  t ∉ [py "true"; py "1"; py "yes"; py "on"].
Proof.
  intros Hin. repeat (apply elem_of_cons in Hin as [->|Hin]);
    [..|by apply elem_of_nil in Hin];
    apply (bool_decide_eq_false_1 _); vm_compute; reflexivity.
Qed.

Lemma is_bool_text_false (v : str) :
  _is_bool_text v = Some false
  <-> lower (strip v) ∈ [py "false"; py "0"; py "no"; py "off"].
Proof.
  unfold _is_bool_text, str_in. case_bool_decide as Ht.
  - split; [done|]. intros Hf. by destruct (bool_words_disjoint _ Hf).
  - case_bool_decide; naive_solver.
Qed.

(** Closes the case of a chain of tests once every test is decided. *)
Local Ltac chain_case :=
  split; intros;
  repeat match goal with
         | H : _ /\ _ |- _ => destruct H
         | H : is_Some None |- _ => destruct H as [? H]; discriminate H
         end;
  try discriminate; try congruence;
  repeat match goal with
         | |- _ /\ _ => split
         | |- ~ _ => let E := fresh in intros E; destruct E
         | H : is_Some None |- _ => destruct H as [? H]; discriminate H
         end;
  try discriminate; try congruence; try done;
  try (exfalso;
       match goal with
       | H : ~ _ |- _ => apply H; split; [by eexists|done]
       end).

Lemma classify_bool (v : str) (b : bool) :
  classify v = KBool b <-> _is_bool_text v = Some b.
Proof.
  unfold classify. destruct (_is_bool_text v) as [b'|]; [chain_case|].
  destruct (_parse_hex_color v); [chain_case|].
  destruct (_parse_int v), (_parse_float v);
    repeat (match goal with
            | |- context [if ?c then _ else _] => destruct c
            end);
    chain_case.
Qed.

Lemma hex_color_match (n : nat) (v : str) (m : groups) :
  re_match (hex_color_pattern n) v = Some m ->
  exists pre hx post,
    v = pre ++ py "0x" ++ hx ++ post /\ m = [("hex"%string, hx)]
    /\ forallb isspace pre = true /\ forallb ishex hx = true
    /\ length hx = n /\ forallb isspace post = true.
Proof.
  unfold re_match, hex_color_pattern. intros Hm.
  apply run_Rep in Hm as (pre & r1 & g1 & -> & _ & Hp & Hm & ->).
  apply run_Lit in Hm as (r2 & -> & Hm).
  apply run_Lit in Hm as (r3 & -> & Hm).
  apply run_Rep in Hm as (hx & r4 & g4 & -> & [Hl1 Hl2] & Hh & Hm & ->).
  apply re_match_final_space in Hm as [Hs ->].
  exists pre, hx, r4. repeat split; try done. lia.
Qed.

Lemma hex_color_found (n : nat) (pre hx post : str) :
  forallb isspace pre = true -> forallb ishex hx = true -> length hx = n ->
  forallb isspace post = true ->
  is_Some (re_match (hex_color_pattern n) (pre ++ py "0x" ++ hx ++ post)).
Proof.
  intros Hp Hh Hl Hs. apply run_complete.
  unfold hex_color_pattern, star, times. cbn [splits].
  exists pre, (py "0x" ++ hx ++ post).
  split; [done|]. split; [split; [lia|done]|]. split; [done|].
  exists (120%N :: hx ++ post). split; [done|].
  exists (hx ++ post). split; [done|].
  exists hx, post. split; [done|]. split; [split; lia|]. split; [done|].
  exists post, []. rewrite app_nil_r.
  split; [done|]. split; [split; [lia|done]|]. done.
Qed.

Lemma ishex_not_space (c : N) : ishex c = true -> isspace c = false.
Proof.
  intros Hh. apply not_true_is_false. intros Hs. revert Hh Hs.
  unfold ishex, isspace.
  rewrite !orb_true_iff, !andb_true_iff, !N.leb_le, !N.eqb_eq. lia.
Qed.

Lemma split_unique (p : N -> bool) (a b a' b' : str) :
  forallb p a = true -> forallb p a' = true ->
  match b with [] => True | c :: _ => p c = false end ->
  match b' with [] => True | c :: _ => p c = false end ->
  a ++ b = a' ++ b' -> a = a' /\ b = b'.
Proof.
  intros Ha Ha' Hb Hb' He.
  pose proof (span_eq p a b Ha Hb) as H1.
  pose proof (span_eq p a' b' Ha' Hb') as H2.
  rewrite He in H1. rewrite H1 in H2. by injection H2.
Qed.

(** The colour pattern has one way to match: the group holds all the
    digits. *)
Lemma hex_color_re_exact (pre hx post : str) :
  forallb isspace pre = true -> forallb ishex hx = true ->
  (length hx = 6 \/ length hx = 8)%nat -> forallb isspace post = true ->
  _HEX_COLOR_RE (pre ++ py "0x" ++ hx ++ post) = Some [("hex"%string, hx)].
Proof.
  intros Hp Hh Hl Hs.
  assert (Hhead : match post with [] => True | c :: _ => ishex c = false end).
  { destruct post as [|c post]; [done|]. simpl in Hs.
    apply andb_true_iff in Hs as [Hc _].
    destruct (ishex c) eqn:E; [|done]. apply ishex_not_space in E. congruence. }
  assert (Hexact : forall n m,
             re_match (hex_color_pattern n) (pre ++ py "0x" ++ hx ++ post)
             = Some m ->
             m = [("hex"%string, hx)]).
  { intros n m Hm.
    apply hex_color_match in Hm
      as (pre' & hx' & post' & Hv & -> & Hp' & Hh' & Hl' & Hs').
    apply (split_unique isspace) in Hv as [_ Hv]; [|done..].
    injection Hv as Hv.
    apply (split_unique ishex) in Hv as [-> _]; [done..|].
    destruct post' as [|c post']; [done|]. simpl in Hs'.
    apply andb_true_iff in Hs' as [Hc _].
    destruct (ishex c) eqn:E; [|done]. apply ishex_not_space in E. congruence. }
  unfold _HEX_COLOR_RE.
  destruct (re_match (hex_color_pattern 6) _) as [m|] eqn:E6.
  - by rewrite (Hexact _ _ E6).
  - destruct Hl as [Hl|Hl].
    + destruct (hex_color_found 6 pre hx post Hp Hh Hl Hs) as [m Hm].
      congruence.
    + destruct (hex_color_found 8 pre hx post Hp Hh Hl Hs) as [m Hm].
      rewrite Hm. by rewrite (Hexact _ _ Hm).
Qed.

Lemma hex_color_re_plain (hx : str) :
  forallb ishex hx = true -> (length hx = 6 \/ length hx = 8)%nat ->
  _HEX_COLOR_RE (py "0x" ++ hx) = Some [("hex"%string, hx)].
Proof.
  intros Hh Hl.
  pose proof (hex_color_re_exact [] hx [] eq_refl Hh Hl eq_refl) as He.
  by rewrite app_nil_r in He.
Qed.

(** The colour pattern: white space, [0x], six or eight hexadecimal digits,
    white space. *)
Lemma parse_hex_color_shape (v : str) :
  is_Some (_parse_hex_color v) <->
  exists pre hx post,
    v = pre ++ py "0x" ++ hx ++ post
    /\ forallb isspace pre = true /\ forallb ishex hx = true
    /\ (length hx = 6 \/ length hx = 8)
    /\ forallb isspace post = true.
Proof.
  assert (Hcol : is_Some (_parse_hex_color v) <-> is_Some (_HEX_COLOR_RE v)).
  { unfold _parse_hex_color. destruct (_HEX_COLOR_RE v) as [m|].
    - cbv zeta. destruct (_ =? _)%nat; split; eauto.
    - done. }
  rewrite Hcol. unfold _HEX_COLOR_RE. split.
  - destruct (re_match (hex_color_pattern 6) v) as [m|] eqn:E6.
    + intros _.
      apply hex_color_match in E6 as (pre & hx & post & -> & _ & ? & ? & ? & ?).
      exists pre, hx, post. eauto 10.
    + intros [m E8].
      apply hex_color_match in E8 as (pre & hx & post & -> & _ & ? & ? & ? & ?).
      exists pre, hx, post. eauto 10.
  - intros (pre & hx & post & -> & Hp & Hh & [Hl|Hl] & Hs).
    + by destruct (hex_color_found 6 pre hx post) as [m ->].
    + destruct (re_match (hex_color_pattern 6) _); [done|].
      by apply hex_color_found.
Qed.

(** The number patterns: white space, an optional minus sign, decimal
    digits, for the second pattern an optional point and digits, white
    space. *)
Lemma fullmatch_int_shape (v : str) :
  fullmatch_int v = true <->
  exists pre sign ds post,
    v = pre ++ sign ++ ds ++ post
    /\ forallb isspace pre = true /\ (sign = [] \/ sign = [45%N])
    /\ ds <> [] /\ forallb isdecimal ds = true
    /\ forallb isspace post = true.
Proof.
  unfold fullmatch_int. rewrite bool_decide_eq_true. split.
  - intros [m Hm]. unfold re_fullmatch in Hm.
    apply run_Rep in Hm as (pre & r1 & g1 & -> & _ & Hp & Hm & ->).
    apply run_Rep in Hm as (sg & r2 & g2 & -> & [_ Hl] & Hsg & Hm & ->).
    apply run_Rep in Hm as (ds & r3 & g3 & -> & [Hd _] & Hds & Hm & ->).
    apply run_Rep in Hm as (post & r4 & g4 & -> & _ & Hs & Hm & ->).
    cbn [run] in Hm. destruct r4; [|done]. rewrite app_nil_r.
    exists pre, sg, ds, post. repeat split; try done.
    + destruct sg as [|c [|d sg]]; [by left| |simpl in Hl; lia].
      right. cbn [forallb] in Hsg. apply andb_true_iff in Hsg as [Hsg _].
      apply N.eqb_eq in Hsg. by subst c.
    + intros ->. simpl in Hd. lia.
  - intros (pre & sg & ds & post & -> & Hp & Hsg & Hd & Hds & Hs).
    apply run_complete. unfold star, opt, plus. cbn [splits].
    exists pre, (sg ++ ds ++ post). split; [done|].
    split; [split; [lia|done]|]. split; [done|].
    exists sg, (ds ++ post). split; [done|].
    split; [by destruct Hsg as [->| ->]; split; simpl; lia|].
    split; [by destruct Hsg as [->| ->]|].
    exists ds, post. split; [done|].
    split; [split; [destruct ds; [done|simpl; lia]|done]|]. split; [done|].
    exists post, []. rewrite app_nil_r.
    split; [done|]. split; [split; [lia|done]|]. done.
Qed.

Lemma fullmatch_float_shape (v : str) :
  fullmatch_float v = true <->
  exists pre sign ds frac post,
    v = pre ++ sign ++ ds ++ frac ++ post
    /\ forallb isspace pre = true /\ (sign = [] \/ sign = [45%N])
    /\ ds <> [] /\ forallb isdecimal ds = true
    /\ (frac = [] \/ exists fs, frac = 46%N :: fs /\ fs <> []
                                /\ forallb isdecimal fs = true)
    /\ forallb isspace post = true.
Proof.
  unfold fullmatch_float. rewrite orb_true_iff, bool_decide_eq_true. split.
  - intros [[m Hm]|Hi].
    + unfold re_fullmatch in Hm.
      apply run_Rep in Hm as (pre & r1 & g1 & -> & _ & Hp & Hm & ->).
      apply run_Rep in Hm as (sg & r2 & g2 & -> & [_ Hl] & Hsg & Hm & ->).
      apply run_Rep in Hm as (ds & r3 & g3 & -> & [Hd _] & Hds & Hm & ->).
      apply run_Lit in Hm as (r4 & -> & Hm).
      apply run_Rep in Hm as (fs & r5 & g5 & -> & [Hf _] & Hfs & Hm & ->).
      apply run_Rep in Hm as (post & r6 & g6 & -> & _ & Hs & Hm & ->).
      cbn [run] in Hm. destruct r6; [|done]. rewrite app_nil_r.
      exists pre, sg, ds, (46%N :: fs), post. repeat split; try done.
      * destruct sg as [|c [|d sg]]; [by left| |simpl in Hl; lia].
        right. cbn [forallb] in Hsg. apply andb_true_iff in Hsg as [Hsg _].
        apply N.eqb_eq in Hsg. by subst c.
      * intros ->. simpl in Hd. lia.
      * right. exists fs. repeat split; try done.
        intros ->. simpl in Hf. lia.
    + apply fullmatch_int_shape in Hi
        as (pre & sg & ds & post & -> & Hp & Hsg & Hd & Hds & Hs).
      exists pre, sg, ds, [], post. repeat split; try done. by left.
  - intros (pre & sg & ds & frac & post & -> & Hp & Hsg & Hd & Hds & Hfr & Hs).
    destruct Hfr as [->|(fs & -> & Hf & Hfs)].
    + right. apply fullmatch_int_shape. exists pre, sg, ds, post. eauto 10.
    + left. apply run_complete. unfold star, opt, plus. cbn [splits].
      exists pre, (sg ++ ds ++ (46%N :: fs) ++ post). split; [done|].
      split; [split; [lia|done]|]. split; [done|].
      exists sg, (ds ++ (46%N :: fs) ++ post). split; [done|].
      split; [by destruct Hsg as [->| ->]; split; simpl; lia|].
      split; [by destruct Hsg as [->| ->]|].
      exists ds, ((46%N :: fs) ++ post). split; [done|].
      split; [split; [destruct ds; [done|simpl; lia]|done]|]. split; [done|].
      exists (fs ++ post). split; [done|].
      exists fs, post. split; [done|].
      split; [split; [destruct fs; [done|simpl; lia]|done]|]. split; [done|].
      exists post, []. rewrite app_nil_r.
      split; [done|]. split; [split; [lia|done]|]. done.
Qed.

(** The colour of a text of the colour pattern: its digits are read two by
    two, the alpha channel first when there are eight. *)
Lemma parse_hex_color_digits (v : str) (c : QColor) :
  _parse_hex_color v = Some c
  <-> exists pre hx post,
        v = pre ++ py "0x" ++ hx ++ post
        /\ forallb isspace pre = true /\ forallb ishex hx = true
        /\ (length hx = 6 \/ length hx = 8)
        /\ forallb isspace post = true
        /\ c = if (length hx =? 6)%nat
               then {| red := hex_pair hx 0; green := hex_pair hx 2;
                       blue := hex_pair hx 4; alpha := 255 |}
               else {| red := hex_pair hx 2; green := hex_pair hx 4;
                       blue := hex_pair hx 6; alpha := hex_pair hx 0 |}.
Proof.
  split.
  - intros Hc.
    assert (Hs : is_Some (_parse_hex_color v)) by (by rewrite Hc).
    apply parse_hex_color_shape in Hs
      as (pre & hx & post & -> & Hp & Hh & Hl & Hs).
    exists pre, hx, post. do 5 (split; [done|]).
    unfold _parse_hex_color in Hc.
    rewrite hex_color_re_exact in Hc by done.
    cbn [group String.eqb Ascii.eqb Bool.eqb] in Hc. cbv zeta in Hc.
    destruct (length hx =? 6)%nat; by injection Hc.
  - intros (pre & hx & post & -> & Hp & Hh & Hl & Hs & ->).
    unfold _parse_hex_color. rewrite hex_color_re_exact by done.
    cbn [group String.eqb Ascii.eqb Bool.eqb]. cbv zeta.
    by destruct (length hx =? 6)%nat.
Qed.

(** The chain of tests of [_add_control]. *)
Lemma classify_chain (v : str) :
  (forall c,
     classify v = KColor c
     <-> _is_bool_text v = None /\ _parse_hex_color v = Some c)
  /\ (forall iv,
        classify v = KInt iv
        <-> _is_bool_text v = None /\ _parse_hex_color v = None
            /\ _parse_int v = Some iv
            /\ (startswith (py "0x") (lower (strip v))
                || fullmatch_int v) = true)
  /\ (forall fv,
        classify v = KFloat fv
        <-> _is_bool_text v = None /\ _parse_hex_color v = None
            /\ ~ (is_Some (_parse_int v)
                  /\ (startswith (py "0x") (lower (strip v))
                      || fullmatch_int v) = true)
            /\ _parse_float v = Some fv
            /\ fullmatch_float v = true)
  /\ (classify v = KText
      <-> _is_bool_text v = None /\ _parse_hex_color v = None
          /\ ~ (is_Some (_parse_int v)
                /\ (startswith (py "0x") (lower (strip v))
                    || fullmatch_int v) = true)
          /\ ~ (is_Some (_parse_float v) /\ fullmatch_float v = true)).
Proof.
  split; [intros c|split; [intros iv|split; [intros fv|]]];
    unfold classify;
    (destruct (_is_bool_text v); [chain_case|]);
    (destruct (_parse_hex_color v); [chain_case|]);
    destruct (_parse_int v), (_parse_float v);
    repeat (match goal with
            | |- context [if ?c then _ else _] => destruct c
            end);
    chain_case.
Qed.

Lemma is_bool_text_None (v : str) :
  _is_bool_text v = None
  <-> (lower (strip v) ∉ [py "true"; py "1"; py "yes"; py "on"])
      /\ lower (strip v) ∉ [py "false"; py "0"; py "no"; py "off"].
Proof.
  pose proof (is_bool_text_true v) as Ht.
  pose proof (is_bool_text_false v) as Hf.
  destruct (_is_bool_text v) as [[]|].
  - split; [done|]. intros [Hn _]. destruct Hn. by apply Ht.
  - split; [done|]. intros [_ Hn]. destruct Hn. by apply Hf.
  - split; [|done]. intros _. split; intros Hin.
    + by apply Ht in Hin.
    + by apply Hf in Hin.
Qed.

Lemma parse_hex_color_None (v : str) :
  _parse_hex_color v = None
  <-> ~ exists hx pre post,
          v = pre ++ py "0x" ++ hx ++ post
          /\ forallb isspace pre = true /\ forallb ishex hx = true
          /\ (length hx = 6 \/ length hx = 8)
          /\ forallb isspace post = true.
Proof.
  pose proof (parse_hex_color_shape v) as Hs.
  destruct (_parse_hex_color v) as [c|].
  - split; [done|]. intros Hn. destruct Hn.
    destruct (proj1 Hs (ltac:(eauto))) as (pre & hx & post & Hv).
    by exists hx, pre, post.
  - split; [|done]. intros _ (hx & pre & post & Hv).
    assert (Hn : is_Some (@None QColor)).
    { apply Hs. by exists pre, hx, post. }
    by destruct Hn.
Qed.

(** The integer branch: a text that starts with [0x] once stripped and
    lowercased and that [int(s, 16)] accepts, or one of the first number
    pattern that [int(s, 10)] accepts. *)
Lemma int_branch (v : str) (iv : Z) :
  _parse_int v = Some iv
  /\ (startswith (py "0x") (lower (strip v)) || fullmatch_int v) = true
  <-> (startswith (py "0x") (lower (strip v)) = true
       /\ py_int 16 (strip v) = Some iv)
      \/ (startswith (py "0x") (lower (strip v)) = false
          /\ py_int 10 (strip v) = Some iv
          /\ exists pre sign ds post,
               v = pre ++ sign ++ ds ++ post
               /\ forallb isspace pre = true /\ (sign = [] \/ sign = [45%N])
               /\ ds <> [] /\ forallb isdecimal ds = true
               /\ forallb isspace post = true).
Proof.
  unfold _parse_int. rewrite <- fullmatch_int_shape.
  destruct (startswith (py "0x") (lower (strip v))); simpl.
  - split; [intros [? _]; by left|]. by intros [[_ ?]|[? _]].
  - split; [intros [? ?]; by right|]. by intros [[? _]|(_ & ? & ?)].
Qed.

(** C8. The classifier takes the first branch that applies, in the order
    boolean, colour, integer, floating point, text. The boolean branch is
    taken exactly by the values whose stripped and lowercased text is one of
    the eight words, with the truth value of the word. The colour branch is
    taken exactly by the other values made of white space, [0x], six or
    eight hexadecimal digits and white space, with the colour the digits
    give. The integer branch is taken exactly by the remaining values that,
    once stripped, either start with [0x] in either case and are accepted by
    [int(s, 16)], or are accepted by [int(s, 10)] and are an optional minus
    sign and decimal digits between white space. The floating-point branch
    is taken exactly by the remaining values that [float] accepts and that
    are an optional minus sign, decimal digits and an optional fraction
    between white space. The text branch takes all others. [TRUE], [1],
    [yes] and [on] are boolean and true; [2] is not boolean. *)
Theorem classify_priority (v : str) :
  let s := strip v in
  let is_true := lower s ∈ [py "true"; py "1"; py "yes"; py "on"] in
  let is_false := lower s ∈ [py "false"; py "0"; py "no"; py "off"] in
  let colour (hx : str) :=
    exists pre post,
      v = pre ++ py "0x" ++ hx ++ post
      /\ forallb isspace pre = true /\ forallb ishex hx = true
      /\ (length hx = 6 \/ length hx = 8)
      /\ forallb isspace post = true in
  let digits :=
    exists pre sign ds post,
      v = pre ++ sign ++ ds ++ post
      /\ forallb isspace pre = true /\ (sign = [] \/ sign = [45%N])
      /\ ds <> [] /\ forallb isdecimal ds = true
      /\ forallb isspace post = true in
  let digits_fraction :=
    exists pre sign ds frac post,
      v = pre ++ sign ++ ds ++ frac ++ post
      /\ forallb isspace pre = true /\ (sign = [] \/ sign = [45%N])
      /\ ds <> [] /\ forallb isdecimal ds = true
      /\ (frac = [] \/ exists fs, frac = 46%N :: fs /\ fs <> []
                                  /\ forallb isdecimal fs = true)
      /\ forallb isspace post = true in
  let integer (iv : Z) :=
    (startswith (py "0x") (lower s) = true /\ py_int 16 s = Some iv)
    \/ (startswith (py "0x") (lower s) = false /\ py_int 10 s = Some iv
        /\ digits) in
  let floating (fv : float) := py_float s = Some fv /\ digits_fraction in
  (classify v = KBool true <-> is_true)
  /\ (classify v = KBool false <-> is_false)
  /\ (forall c,
        classify v = KColor c
        <-> ~ is_true /\ ~ is_false
            /\ exists hx,
                 colour hx
                 /\ c = if (length hx =? 6)%nat
                        then {| red := hex_pair hx 0; green := hex_pair hx 2;
                                blue := hex_pair hx 4; alpha := 255 |}
                        else {| red := hex_pair hx 2; green := hex_pair hx 4;
                                blue := hex_pair hx 6;
                                alpha := hex_pair hx 0 |})
  /\ (forall iv,
        classify v = KInt iv
        <-> ~ is_true /\ ~ is_false /\ ~ (exists hx, colour hx)
            /\ integer iv)
  /\ (forall fv,
        classify v = KFloat fv
        <-> ~ is_true /\ ~ is_false /\ ~ (exists hx, colour hx)
            /\ ~ (exists iv, integer iv) /\ floating fv)
  /\ (classify v = KText
      <-> ~ is_true /\ ~ is_false /\ ~ (exists hx, colour hx)
          /\ ~ (exists iv, integer iv) /\ ~ (exists fv, floating fv))
  /\ classify (py "TRUE") = KBool true
  /\ classify (py "1") = KBool true
  /\ classify (py "yes") = KBool true
  /\ classify (py "on") = KBool true
  /\ (forall b, classify (py "2") <> KBool b).
Proof.
  cbv zeta.
  destruct (classify_chain v) as (Hc & Hi & Hf & Ht).
  pose proof (is_bool_text_None v) as Hb.
  pose proof (parse_hex_color_None v) as Hn.
  assert (Hint :
            ~ (is_Some (_parse_int v)
               /\ (startswith (py "0x") (lower (strip v))
                   || fullmatch_int v) = true)
            <-> ~ exists iv,
                  (startswith (py "0x") (lower (strip v)) = true
                   /\ py_int 16 (strip v) = Some iv)
                  \/ (startswith (py "0x") (lower (strip v)) = false
                      /\ py_int 10 (strip v) = Some iv
                      /\ exists pre sign ds post,
                           v = pre ++ sign ++ ds ++ post
                           /\ forallb isspace pre = true
                           /\ (sign = [] \/ sign = [45%N])
                           /\ ds <> [] /\ forallb isdecimal ds = true
                           /\ forallb isspace post = true)).
  { split; intros Hno.
    - intros (iv & Hiv). apply int_branch in Hiv as [Hp Hm].
      apply Hno. split; [by rewrite Hp|done].
    - intros [[iv Hp] Hm]. apply Hno. exists iv. apply int_branch. done. }
  assert (Hfl : forall fv,
            _parse_float v = Some fv /\ fullmatch_float v = true
            <-> py_float (strip v) = Some fv
                /\ exists pre sign ds frac post,
                     v = pre ++ sign ++ ds ++ frac ++ post
                     /\ forallb isspace pre = true
                     /\ (sign = [] \/ sign = [45%N])
                     /\ ds <> [] /\ forallb isdecimal ds = true
                     /\ (frac = [] \/ exists fs, frac = 46%N :: fs /\ fs <> []
                                                 /\ forallb isdecimal fs = true)
                     /\ forallb isspace post = true).
  { intros fv. unfold _parse_float. by rewrite fullmatch_float_shape. }
  split; [rewrite classify_bool; apply is_bool_text_true|].
  split; [rewrite classify_bool; apply is_bool_text_false|].
  split; [|split; [|split; [|split]]].
  - intros c. rewrite Hc, Hb, parse_hex_color_digits. split.
    + intros ([Hnt Hnf] & pre & hx & post & Hv & Hp & Hh & Hl & Hs & Hcol).
      split; [done|]. split; [done|]. exists hx. split; [|done].
      by exists pre, post.
    + intros (Hnt & Hnf & hx & (pre & post & Hv & Hp & Hh & Hl & Hs) & Hcol).
      split; [done|]. by exists pre, hx, post.
  - intros iv. rewrite Hi, Hb, Hn, int_branch. tauto.
  - intros fv. rewrite Hf, Hb, Hn, Hint. specialize (Hfl fv). tauto.
  - rewrite Ht, Hb, Hn, Hint. split.
    + intros (Hb' & Hn' & Hi' & Hf'). do 3 (split; [tauto|]).
      split; [done|]. intros (fv & Hfv). apply Hfl in Hfv as [Hp Hm].
      apply Hf'. split; [by rewrite Hp|done].
    + intros (Hnt & Hnf & Hn' & Hi' & Hf'). do 3 (split; [tauto|]).
      intros [[fv Hp] Hm]. apply Hf'. exists fv. by apply Hfl.
  - repeat split; try (by vm_compute).
    intros b Hb'. apply classify_bool in Hb'. by vm_compute in Hb'.
Qed.
End Classifier.

(** ** C9: writing the form back *)

Section WriteBack.
Context `{Runtime}.

Lemma sort_insert_perm (x : IniValueRef) (l : list IniValueRef) :
  sort_insert x l ≡ₚ x :: l.
Proof.
  induction l as [|y l IH]; simpl; [done|].
  destruct (sort_key_leb x y); [done|]. rewrite IH. apply Permutation_swap.
Qed.

Lemma sort_refs_perm (l : list IniValueRef) : sort_refs l ≡ₚ l.
Proof.
  unfold sort_refs. induction l as [|x l IH]; simpl; [done|].
  by rewrite sort_insert_perm, IH.
Qed.

Lemma control_for_new_val (v : str) (w : QWidget) :
  control_for v = Some w ->
  exists nv,
    new_val w = Some nv
    /\ match classify v with
       | KText => nv = v
       | KColor _ => nv = strip v
       | KBool b => nv = if b then py "true" else py "false"
       | KInt iv => exists z, spin_setValue iv = Some z /\ nv = py_str_int z
       | KFloat fv => nv = float_text (dspin_setValue fv)
       end.
Proof.
  unfold control_for. destruct (classify v) as [b|c|iv|fv|].
  - intros [= <-]. by eexists.
  - intros [= <-]. by eexists.
  - destruct (spin_setValue iv) as [z|]; [|done]. intros [= <-].
    eexists. split; [done|]. by exists z.
  - intros [= <-]. by eexists.
  - intros [= <-]. by eexists.
Qed.

Lemma add_control_get (s0 k0 v0 s k : str)
    (cs0 cs1 : list ((str * str) * QWidget)) :
  _add_control s0 k0 v0 cs0 = Some cs1 ->
  k <> [] -> (s0, k0) <> (s, k) ->
  Dict.get (s, k) cs1 = Dict.get (s, k) cs0.
Proof.
  unfold _add_control. intros Hadd Hk Hne.
  destruct (control_for v0) as [w|]; [|done]. injection Hadd as <-.
  rewrite dict_get_put_ne by done.
  destruct (Dict.get (s0, []) cs0); [done|].
  apply dict_get_put_ne. intros [= _ <-]. done.
Qed.

Lemma add_control_NoDup (s0 k0 v0 : str)
    (cs0 cs1 : list ((str * str) * QWidget)) :
  _add_control s0 k0 v0 cs0 = Some cs1 ->
  NoDup (Dict.keys cs0) -> NoDup (Dict.keys cs1).
Proof.
  unfold _add_control. intros Hadd Hnd.
  destruct (control_for v0) as [w|]; [|done]. injection Hadd as <-.
  apply dict_put_NoDup. destruct (Dict.get (s0, []) cs0); [done|].
  by apply dict_put_NoDup.
Qed.

Lemma add_controls_NoDup (items : list IniValueRef)
    (cs0 cs : list ((str * str) * QWidget)) :
  add_controls items cs0 = Some cs ->
  NoDup (Dict.keys cs0) -> NoDup (Dict.keys cs).
Proof.
  revert cs0. induction items as [|r items IH]; intros cs0; simpl.
  - by intros [= <-].
  - destruct (_add_control _ _ _ cs0) as [cs1|] eqn:E; [|done].
    intros Hrest Hnd. apply (IH cs1 Hrest). by eapply add_control_NoDup.
Qed.

(** A pair no item is shown under keeps the control it had. *)
Lemma add_controls_get_other (items : list IniValueRef)
    (cs0 cs : list ((str * str) * QWidget)) (s k : str) :
  add_controls items cs0 = Some cs ->
  k <> [] ->
  Forall (fun r => control_key r <> (s, k)) items ->
  Dict.get (s, k) cs = Dict.get (s, k) cs0.
Proof.
  revert cs0. induction items as [|r items IH]; intros cs0; simpl.
  - by intros [= <-].
  - destruct (_add_control _ _ _ cs0) as [cs1|] eqn:E; [|done].
    intros Hrest Hk Hall. apply Forall_cons in Hall as [Hr Hall].
    rewrite (IH cs1 Hrest Hk Hall). by eapply add_control_get.
Qed.

(** An item with a key is shown under its pair with the control of its
    value. *)
Lemma add_controls_get_item (items : list IniValueRef)
    (cs0 cs : list ((str * str) * QWidget)) (r : IniValueRef) :
  add_controls items cs0 = Some cs ->
  NoDup (control_key <$> items) ->
  r ∈ items -> key r <> [] ->
  exists w, control_for (value r) = Some w
            /\ Dict.get (control_key r) cs = Some w.
Proof.
  revert cs0. induction items as [|r0 items IH]; intros cs0; simpl.
  { intros _ _ Hin. by apply elem_of_nil in Hin. }
  destruct (_add_control _ _ _ cs0) as [cs1|] eqn:E; [|done].
  intros Hrest Hnd Hin Hk. apply NoDup_cons in Hnd as [Hni Hnd].
  apply elem_of_cons in Hin as [->|Hin]; [|by apply (IH cs1)].
  unfold _add_control in E.
  destruct (control_for (value r0)) as [w|]; [|done]. injection E as <-.
  exists w. split; [done|]. unfold control_key at 1.
  rewrite (add_controls_get_other items _ cs (section r0) (key r0) Hrest Hk).
  - apply dict_get_put_eq.
  - apply Forall_forall. intros r' Hr' Heq. apply Hni.
    apply list_elem_of_fmap. by exists r'.
Qed.
End WriteBack.

Section WriteBackLoop.
Context `{Runtime}.

Lemma planned_cons_ne (t0 t : str * str) (w : QWidget)
    (cs : list ((str * str) * QWidget)) :
  t <> t0 -> planned ((t0, w) :: cs) t = planned cs t.
Proof. intros Hne. unfold planned. simpl. by rewrite decide_False. Qed.

Lemma planned_cons_eq (t : str * str) (w : QWidget)
    (cs : list ((str * str) * QWidget)) :
  planned ((t, w) :: cs) t
  = if bool_decide (t.2 = []) then None else new_val w.
Proof. unfold planned. simpl. by rewrite decide_True. Qed.

Lemma planned_absent (t : str * str) (cs : list ((str * str) * QWidget)) :
  t ∉ Dict.keys cs -> planned cs t = None.
Proof. intros Hni. unfold planned. by apply dict_get_None in Hni as ->. Qed.

(** The loop of [_apply_controls_to_doc] on controls whose pairs all have
    an Entry: it returns, and every pair ends with the text planned for it,
    or with the value it had when none is planned. *)
Lemma apply_controls_spec (content : bytes)
    (cs : list ((str * str) * QWidget)) (d : IniDocument) :
  wf d -> NoDup (Dict.keys cs) ->
  (forall t w, Dict.get t cs = Some w -> t.2 <> [] ->
               is_Some (Dict.get t (refs d))) ->
  exists d',
    _apply_controls_to_doc (Regular content) cs d = Returned tt d'
    /\ wf d'
    /\ forall t,
         value <$> Dict.get t (refs d')
         = match planned cs t with
           | Some nv => Some nv
           | None => value <$> Dict.get t (refs d)
           end.
Proof.
  revert d. induction cs as [|[[s k] w] cs IH]; intros d Hwf Hnd Hex.
  { exists d. split; [done|]. split; [done|]. done. }
  change (NoDup ((s, k) :: Dict.keys cs)) in Hnd.
  apply NoDup_cons in Hnd as [Hni Hnd].
  assert (Hrest : forall t w', Dict.get t cs = Some w' ->
                               Dict.get t (((s, k), w) :: cs) = Some w').
  { intros t w' Hg. simpl. rewrite decide_False; [done|]. intros ->.
    apply Hni. unfold Dict.keys. apply list_elem_of_fmap.
    exists ((s, k), w').
    split; [done|]. by apply dict_get_elem. }
  assert (Hskip :
    (if bool_decide (k = []) then None else new_val w) = None ->
    exists d',
      _apply_controls_to_doc (Regular content) cs d = Returned tt d'
      /\ wf d'
      /\ forall t,
           value <$> Dict.get t (refs d')
           = match planned (((s, k), w) :: cs) t with
             | Some nv => Some nv
             | None => value <$> Dict.get t (refs d)
             end).
  { intros Hnone. destruct (IH d Hwf Hnd) as (d' & Happ & Hwf' & Hval).
    { intros t w' Hg Ht2. apply (Hex t w'); [by apply Hrest|done]. }
    exists d'. split; [done|]. split; [done|]. intros t. rewrite Hval.
    destruct (decide (t = (s, k))) as [->|Hne].
    - rewrite planned_cons_eq. simpl. rewrite Hnone.
      by rewrite planned_absent.
    - by rewrite planned_cons_ne. }
  simpl. case_bool_decide as Hk; [by apply Hskip|].
  destruct (new_val w) as [nv|] eqn:Hnv; [|by apply Hskip]. clear Hskip.
  destruct (Hex (s, k) w) as [r Hg]; [simpl; by rewrite decide_True|done|].
  pose proof (wf_get _ _ _ Hwf Hg) as (Ht & Hs & Hkn & _).
  injection Ht as -> ->.
  assert (Hg' : Dict.get (_norm_section (section r), _norm_key (key r))
                         (refs d) = Some r) by (by rewrite Hs, Hkn).
  destruct (set_existing (Regular content) (section r) (key r) nv d r Hwf Hg')
    as (old & Hold & Hset).
  rewrite Hs, Hkn in Hset. unfold bind at 1. rewrite Hset.
  set (d1 := rewritten (section r, key r) r nv old d).
  assert (Hwf1 : wf d1) by (by apply rewritten_wf).
  destruct (IH d1 Hwf1 Hnd) as (d' & Happ & Hwf' & Hval).
  { intros t w' Hgt Ht2. simpl.
    destruct (decide (t = (section r, key r))) as [->|Hne].
    - rewrite dict_get_put_eq. by eexists.
    - rewrite dict_get_put_ne by done. apply (Hex t w'); [|done].
      by apply Hrest. }
  exists d'. split; [done|]. split; [done|]. intros t. rewrite Hval.
  destruct (decide (t = (section r, key r))) as [->|Hne].
  - rewrite planned_cons_eq. simpl. rewrite bool_decide_false by done.
    rewrite Hnv, planned_absent by done. simpl.
    by rewrite dict_get_put_eq.
  - rewrite planned_cons_ne by done. simpl.
    by rewrite dict_get_put_ne.
Qed.

Lemma set_document_wf (fs : inode) (d : IniDocument) :
  wf d ->
  set_document fs d
  = Returned (add_controls (sort_refs (Dict.values (refs d))) []) d.
Proof.
  intros [Hl _].
  unfold set_document, all_items, _ensure_loaded, read, ret, bind. cbv beta.
  by rewrite Hl.
Qed.

Lemma control_keys_of_values (d : list ((str * str) * IniValueRef)) :
  Forall (fun tr => tr.1 = control_key tr.2) d ->
  control_key <$> Dict.values d = Dict.keys d.
Proof.
  unfold Dict.values, Dict.keys.
  induction 1 as [|[t r] d Ht Hd IH]; [done|]. simpl in *.
  by rewrite <- Ht, <- IH.
Qed.
End WriteBackLoop.

Section WriteBackTheorem.
Context `{Runtime}.

(** C9, as amended. When the form of a document just loaded is written back
    with no control touched, every key is set to the text of its control:
    a value shown as free text keeps its exact text, a colour is stripped of
    the white space around it, and a boolean, an integer and a
    floating-point value are written anew, as [true] or [false], in decimal,
    and in the compact form of the spin box. A key that is empty is not
    written. *)
Theorem write_back_untouched (content : bytes)
    (cs : list ((str * str) * QWidget)) :
  set_document (Regular content) (loaded content)
  = Returned (Some cs) (loaded content) ->
  exists d',
    _apply_controls_to_doc (Regular content) cs (loaded content)
    = Returned tt d'
    /\ forall s k v,
         get (Regular content) s k (loaded content)
         = Returned (Some v) (loaded content) ->
         exists nv,
           get (Regular content) s k d' = Returned (Some nv) d'
           /\ if bool_decide (_norm_key k = []) then nv = v
              else match classify v with
                   | KText => nv = v
                   | KColor _ => nv = strip v
                   | KBool b => nv = if b then py "true" else py "false"
                   | KInt iv =>
                       exists z, spin_setValue iv = Some z
                                 /\ nv = py_str_int z
                   | KFloat fv => nv = float_text (dspin_setValue fv)
                   end.
Proof.
  pose proof (loaded_wf content) as Hwf.
  destruct (loaded_entries content) as [Hent Hnd].
  set (d0 := loaded content) in *.
  rewrite set_document_wf by done. intros [= Hcs].
  set (items := sort_refs (Dict.values (refs d0))) in *.
  assert (Hperm : items ≡ₚ Dict.values (refs d0)) by apply sort_refs_perm.
  assert (Hkeys : Forall (fun tr => tr.1 = control_key tr.2) (refs d0)).
  { eapply Forall_impl; [exact Hent|]. intros [t r] Hl.
    by destruct Hl as (? & ? & _ & _ & _ & _ & _ & _ & _ & _ & ->). }
  assert (Hndi : NoDup (control_key <$> items)).
  { rewrite Hperm, control_keys_of_values by done. done. }
  assert (Hin : forall t r, Dict.get t (refs d0) = Some r -> r ∈ items).
  { intros t r Hg. rewrite Hperm. unfold Dict.values.
    apply list_elem_of_fmap. exists (t, r). split; [done|].
    by apply dict_get_elem. }
  assert (Hndc : NoDup (Dict.keys cs)).
  { apply (add_controls_NoDup items [] cs Hcs). constructor. }
  assert (Hex : forall t w, Dict.get t cs = Some w -> t.2 <> [] ->
                            is_Some (Dict.get t (refs d0))).
  { intros [s k] w Hg Hk. simpl in Hk.
    destruct (decide (Exists (fun r => control_key r = (s, k)) items))
      as [Hx|Hx].
    - apply Exists_exists in Hx as (r & Hr & Hkr).
      rewrite Hperm in Hr. unfold Dict.values in Hr.
      apply list_elem_of_fmap in Hr as ([t r'] & -> & Hr). simpl in Hkr.
      rewrite Forall_forall in Hkeys. pose proof (Hkeys _ Hr) as Ht.
      simpl in Ht. subst t. rewrite Hkr in Hr.
      exists r'. by apply dict_elem_get.
    - apply not_Exists_Forall in Hx; [|intros r; apply _].
      rewrite (add_controls_get_other items [] cs s k Hcs Hk) in Hg; [done|].
      eapply Forall_impl; [exact Hx|]. done. }
  destruct (apply_controls_spec content cs d0 Hwf Hndc Hex)
    as (d' & Happ & Hwf' & Hval).
  exists d'. split; [done|]. intros s k v Hget.
  destruct (get_existing _ s k v d0 Hwf Hget) as (r & Hg & Hv).
  pose proof (wf_get _ _ _ Hwf Hg) as (Ht & _).
  specialize (Hval (_norm_section s, _norm_key k)).
  rewrite (get_wf _ s k d' Hwf').
  case_bool_decide as Hk.
  - exists v. split; [|done]. f_equal. rewrite Hval.
    assert (planned cs (_norm_section s, _norm_key k) = None) as ->.
    { unfold planned. destruct (Dict.get _ cs); [|done].
      by rewrite bool_decide_true. }
    rewrite Hg. simpl. by rewrite Hv.
  - assert (Hkr : key r <> []) by (injection Ht as _ <-; done).
    destruct (add_controls_get_item items [] cs r Hcs Hndi (Hin _ _ Hg) Hkr)
      as (w & Hw & Hgw).
    rewrite Hv in Hw.
    destruct (control_for_new_val v w Hw) as (nv & Hnv & Hshape).
    exists nv. split; [|done]. f_equal. rewrite Hval.
    assert (planned cs (_norm_section s, _norm_key k) = Some nv) as ->; [|done].
    unfold planned. rewrite Ht. unfold control_key in Hgw. rewrite Hgw.
    rewrite bool_decide_false by done. done.
Qed.
End WriteBackTheorem.

Lemma write_back_untouched_witness :
  exists d',
    @_apply_controls_to_doc plain_runtime
      (Regular (text ["[A]"; "name=hello"]%string))
      [((py "A", []), QLabel); ((py "A", py "name"), QLineEdit (py "hello"))]
      (loaded (text ["[A]"; "name=hello"]%string))
    = Returned tt d'
    /\ forall s k v,
         get (Regular (text ["[A]"; "name=hello"]%string)) s k
             (loaded (text ["[A]"; "name=hello"]%string))
         = Returned (Some v) (loaded (text ["[A]"; "name=hello"]%string)) ->
         exists nv,
           get (Regular (text ["[A]"; "name=hello"]%string)) s k d'
           = Returned (Some nv) d'
           /\ if bool_decide (_norm_key k = []) then nv = v
              else match @classify plain_runtime v with
                   | KText => nv = v
                   | KColor _ => nv = strip v
                   | KBool b => nv = if b then py "true" else py "false"
                   | KInt iv =>
                       exists z, @spin_setValue plain_runtime iv = Some z
                                 /\ nv = py_str_int z
                   | KFloat fv =>
                       nv = @float_text plain_runtime
                              (@dspin_setValue plain_runtime fv)
                   end.
Proof.
  apply (@write_back_untouched plain_runtime
           (text ["[A]"; "name=hello"]%string)).
  reflexivity.
Defined.

(** C9, as stated, fails: in the file [[A]\nflag=TRUE\nn=0x10\n], opened in
    the form and written back with no control touched, [flag] has become
    [true] and [n] has become [16]. *)
Lemma untouched_values_are_rewritten :
  exists cs d',
    @set_document plain_runtime
      (Regular (text ["[A]"; "flag=TRUE"; "n=0x10"]%string))
      (loaded (text ["[A]"; "flag=TRUE"; "n=0x10"]%string))
    = Returned (Some cs) (loaded (text ["[A]"; "flag=TRUE"; "n=0x10"]%string))
    /\ @_apply_controls_to_doc plain_runtime
         (Regular (text ["[A]"; "flag=TRUE"; "n=0x10"]%string)) cs
         (loaded (text ["[A]"; "flag=TRUE"; "n=0x10"]%string))
       = Returned tt d'
    /\ get (Regular (text ["[A]"; "flag=TRUE"; "n=0x10"]%string))
           (py "A") (py "flag")
           (loaded (text ["[A]"; "flag=TRUE"; "n=0x10"]%string))
       = Returned (Some (py "TRUE"))
                  (loaded (text ["[A]"; "flag=TRUE"; "n=0x10"]%string))
    /\ get (Regular (text ["[A]"; "flag=TRUE"; "n=0x10"]%string))
           (py "A") (py "flag") d'
       = Returned (Some (py "true")) d'
    /\ get (Regular (text ["[A]"; "flag=TRUE"; "n=0x10"]%string))
           (py "A") (py "n")
           (loaded (text ["[A]"; "flag=TRUE"; "n=0x10"]%string))
       = Returned (Some (py "0x10"))
                  (loaded (text ["[A]"; "flag=TRUE"; "n=0x10"]%string))
    /\ get (Regular (text ["[A]"; "flag=TRUE"; "n=0x10"]%string))
           (py "A") (py "n") d'
       = Returned (Some (py "16")) d'.
Proof.
  eexists _, _. split; [reflexivity|].
  split; [vm_compute; reflexivity|].
  repeat split; vm_compute; reflexivity.
Qed.

(** * Further properties of the program *)

(** ** Colour texts *)

Section ColourTexts.
Local Open Scope N_scope.

Lemma format_02X_byte (n : N) :
  n < 256 ->
  format_02X n = [hex_digit_upper (n / 16); hex_digit_upper (n mod 16)].
Proof.
  intros Hn. unfold format_02X. cbn [hex_upper].
  destruct (N.ltb_spec n 16) as [Hlt|Hge].
  - simpl. rewrite N.div_small, N.mod_small by done. done.
  - destruct (N.size_nat n) as [|k] eqn:Ek.
    { destruct n; [lia|]. by destruct p. }
    cbn [hex_upper].
    assert (n / 16 < 16) as Hq.
    { apply N.Div0.div_lt_upper_bound. lia. }
    apply N.ltb_lt in Hq. rewrite Hq. done.
Qed.

Lemma hex_digit_upper_ok (d : N) :
  d < 16 -> hexval (hex_digit_upper d) = d /\ ishex (hex_digit_upper d) = true.
Proof.
  intros Hd. split.
  - unfold hexval, hex_digit_upper.
    destruct (N.ltb_spec d 10).
    + destruct (N.leb_spec (48 + d) 57); lia.
    + destruct (N.leb_spec (55 + d) 57); [lia|].
      destruct (N.leb_spec (55 + d) 70); lia.
  - unfold ishex, hex_digit_upper.
    rewrite !orb_true_iff, !andb_true_iff, !N.leb_le.
    destruct (N.ltb_spec d 10); lia.
Qed.

Lemma hexval_pair (n : N) :
  n < 256 ->
  16 * hexval (hex_digit_upper (n / 16)) + hexval (hex_digit_upper (n mod 16))
  = n.
Proof.
  intros Hn.
  assert (n / 16 < 16) as Hq by (apply N.Div0.div_lt_upper_bound; lia).
  assert (n mod 16 < 16) as Hr by (apply N.mod_lt; lia).
  destruct (hex_digit_upper_ok _ Hq) as [-> _].
  destruct (hex_digit_upper_ok _ Hr) as [-> _].
  pose proof (N.div_mod n 16). lia.
Qed.

Lemma format_02X_hex (n : N) :
  n < 256 -> forallb ishex (format_02X n) = true.
Proof.
  intros Hn. rewrite format_02X_byte by done.
  assert (n / 16 < 16) as Hq by (apply N.Div0.div_lt_upper_bound; lia).
  assert (n mod 16 < 16) as Hr by (apply N.mod_lt; lia).
  destruct (hex_digit_upper_ok _ Hq) as [_ H1].
  destruct (hex_digit_upper_ok _ Hr) as [_ H2].
  simpl. by rewrite H1, H2.
Qed.

(** What [_parse_hex_color] makes of a text written by [_to_hex_color]. *)
Lemma parse_to_hex_color (c : QColor) (keep_alpha : bool) :
  color_in_range c ->
  _parse_hex_color (_to_hex_color c keep_alpha)
  = Some (if keep_alpha then c
          else {| red := red c; green := green c; blue := blue c;
                  alpha := 255 |}).
Proof.
  intros (Hr & Hg & Hb & Ha).
  pose proof (format_02X_hex _ Hr) as Hr1.
  pose proof (format_02X_hex _ Hg) as Hg1.
  pose proof (format_02X_hex _ Hb) as Hb1.
  pose proof (format_02X_hex _ Ha) as Ha1.
  destruct keep_alpha.
  - unfold _parse_hex_color, _to_hex_color.
    rewrite hex_color_re_plain.
    + rewrite !format_02X_byte by done.
      cbv zeta. cbn [group String.eqb Ascii.eqb Bool.eqb app length Nat.eqb
                     hex_pair drop].
      rewrite !hexval_pair by done. by destruct c.
    + by rewrite !forallb_app, Hr1, Hg1, Hb1, Ha1.
    + right. by rewrite !format_02X_byte by done.
  - unfold _parse_hex_color, _to_hex_color.
    rewrite hex_color_re_plain.
    + rewrite !format_02X_byte by done.
      cbv zeta. cbn [group String.eqb Ascii.eqb Bool.eqb app length Nat.eqb
                     hex_pair drop].
      by rewrite !hexval_pair by done.
    + by rewrite !forallb_app, Hr1, Hg1, Hb1.
    + left. by rewrite !format_02X_byte by done.
Qed.

(** X1. A colour written by [_to_hex_color] is read back by
    [_parse_hex_color]: with the alpha channel kept, as the same colour;
    without it, as the colour with the same red, green and blue and an
    alpha of 255. *)
Theorem to_hex_color_round_trip (c : QColor) :
  color_in_range c ->
  _parse_hex_color (_to_hex_color c true) = Some c
  /\ _parse_hex_color (_to_hex_color c false)
     = Some {| red := red c; green := green c; blue := blue c; alpha := 255 |}.
Proof.
  intros Hc. split.
  - exact (parse_to_hex_color c true Hc).
  - exact (parse_to_hex_color c false Hc).
Qed.

Lemma to_hex_color_round_trip_witness :
  _parse_hex_color
    (_to_hex_color {| red := 255; green := 128; blue := 0; alpha := 64 |} true)
  = Some {| red := 255; green := 128; blue := 0; alpha := 64 |}
  /\ _parse_hex_color
       (_to_hex_color {| red := 255; green := 128; blue := 0; alpha := 64 |}
                      false)
     = Some {| red := 255; green := 128; blue := 0; alpha := 255 |}.
Proof.
  apply (to_hex_color_round_trip
           {| red := 255; green := 128; blue := 0; alpha := 64 |}).
  unfold color_in_range. simpl. lia.
Defined.

Lemma to_hex_color_length (c : QColor) (keep_alpha : bool) :
  color_in_range c ->
  length (_to_hex_color c keep_alpha) = if keep_alpha then 10%nat else 8%nat.
Proof.
  intros (Hr & Hg & Hb & Ha). unfold _to_hex_color.
  destruct keep_alpha; by rewrite !format_02X_byte by done.
Qed.

(** X2. When the user accepts a colour in the dialog of a [ColorEditor], the
    text of the editor reads back as exactly that colour, alpha channel
    included, and the editor keeps its alpha setting; when the dialog is
    dismissed the editor is as before. *)
Theorem pick_color_round_trip (dlg : QColor -> option QColor)
    (w : ColorEdit.state) :
  (forall c,
     dlg (ColorEdit.current w) = Some c -> color_in_range c ->
     _parse_hex_color (ColorEdit.text (ColorEdit._pick_color dlg w)) = Some c
     /\ ColorEdit._keep_alpha (ColorEdit._pick_color dlg w)
        = ColorEdit._keep_alpha w)
  /\ (dlg (ColorEdit.current w) = None -> ColorEdit._pick_color dlg w = w).
Proof.
  split.
  - intros c Hd Hc. unfold ColorEdit._pick_color, ColorEdit.text.
    rewrite Hd. cbn [ColorEdit.line ColorEdit._keep_alpha]. split; [|done].
    pose proof (parse_to_hex_color c true Hc) as Ht.
    pose proof (parse_to_hex_color c false Hc) as Hf.
    cbv iota in Ht, Hf.
    destruct (ColorEdit._keep_alpha w); [done|]. cbn [orb].
    destruct (N.eqb_spec (alpha c) 255) as [Ha|Ha]; [|done].
    cbn [negb]. rewrite Hf. destruct c. simpl in Ha. by subst.
  - intros Hd. unfold ColorEdit._pick_color. by rewrite Hd.
Qed.

Lemma pick_color_round_trip_witness :
  _parse_hex_color
    (ColorEdit.text
       (ColorEdit._pick_color
          (fun _ => Some {| red := 16; green := 32; blue := 48; alpha := 255 |})
          (ColorEdit.__init__ (py "0xFFFFFF"))))
  = Some {| red := 16; green := 32; blue := 48; alpha := 255 |}
  /\ ColorEdit._keep_alpha
       (ColorEdit._pick_color
          (fun _ => Some {| red := 16; green := 32; blue := 48; alpha := 255 |})
          (ColorEdit.__init__ (py "0xFFFFFF")))
     = ColorEdit._keep_alpha (ColorEdit.__init__ (py "0xFFFFFF")).
Proof.
  apply (pick_color_round_trip
           (fun _ => Some {| red := 16; green := 32; blue := 48; alpha := 255 |})
           (ColorEdit.__init__ (py "0xFFFFFF"))).
  - reflexivity.
  - unfold color_in_range. simpl. lia.
Defined.

(** X3. An editor opened on a colour text of eight digits writes every
    accepted colour with eight digits; opened on six digits, it writes six
    digits unless the accepted colour has an alpha other than 255, which it
    writes with eight. *)
Theorem color_editor_keeps_format (pre hx post : str)
    (dlg : QColor -> option QColor) (c : QColor) :
  forallb isspace pre = true -> forallb ishex hx = true ->
  (length hx = 6 \/ length hx = 8)%nat -> forallb isspace post = true ->
  dlg (ColorEdit.current (ColorEdit.__init__ (pre ++ py "0x" ++ hx ++ post)))
  = Some c ->
  color_in_range c ->
  ColorEdit.text
    (ColorEdit._pick_color dlg
       (ColorEdit.__init__ (pre ++ py "0x" ++ hx ++ post)))
  = _to_hex_color c ((length hx =? 8)%nat || negb (alpha c =? 255))
  /\ length (ColorEdit.text
               (ColorEdit._pick_color dlg
                  (ColorEdit.__init__ (pre ++ py "0x" ++ hx ++ post))))
     = if (length hx =? 8)%nat || negb (alpha c =? 255) then 10%nat else 8%nat.
Proof.
  intros Hp Hh Hl Hs Hd Hc.
  assert (Ht : ColorEdit.text
                 (ColorEdit._pick_color dlg
                    (ColorEdit.__init__ (pre ++ py "0x" ++ hx ++ post)))
               = _to_hex_color c ((length hx =? 8)%nat
                                  || negb (alpha c =? 255))).
  { unfold ColorEdit._pick_color, ColorEdit.text. rewrite Hd.
    cbn [ColorEdit.line]. f_equal. f_equal.
    unfold ColorEdit.__init__. by rewrite hex_color_re_exact. }
  split; [done|]. rewrite Ht. by apply to_hex_color_length.
Qed.

Lemma color_editor_keeps_format_witness :
  ColorEdit.text
    (ColorEdit._pick_color
       (fun _ => Some {| red := 1; green := 2; blue := 3; alpha := 255 |})
       (ColorEdit.__init__ ([] ++ py "0x" ++ py "80FFFFFF" ++ [LF])))
  = _to_hex_color {| red := 1; green := 2; blue := 3; alpha := 255 |}
      ((length (py "80FFFFFF") =? 8)%nat || negb (255 =? 255))
  /\ length (ColorEdit.text
               (ColorEdit._pick_color
                  (fun _ => Some {| red := 1; green := 2; blue := 3;
                                    alpha := 255 |})
                  (ColorEdit.__init__
                     ([] ++ py "0x" ++ py "80FFFFFF" ++ [LF]))))
     = if (length (py "80FFFFFF") =? 8)%nat || negb (255 =? 255)
       then 10%nat else 8%nat.
Proof.
  apply (color_editor_keeps_format [] (py "80FFFFFF") [LF]
           (fun _ => Some {| red := 1; green := 2; blue := 3; alpha := 255 |})
           {| red := 1; green := 2; blue := 3; alpha := 255 |}).
  - reflexivity.
  - reflexivity.
  - right. reflexivity.
  - reflexivity.
  - reflexivity.
  - unfold color_in_range. simpl. lia.
Defined.

Section WrittenColor.
Context `{Runtime}.

Lemma lower_ascii_length (s : str) :
  forallb (fun c => c <? 128) s = true -> length (lower s) = length s.
Proof.
  unfold lower. generalize (@nil N) as before.
  induction s as [|c s IH]; intros before; [done|]. cbn [forallb lower_from].
  rewrite andb_true_iff. intros [Hc Hs].
  rewrite length_app, (IH _ Hs). unfold lower1. rewrite Hc.
  by destruct (c =? SIGMA).
Qed.

Lemma long_text_not_bool (v : str) :
  (5 < length (lower (strip v)))%nat -> _is_bool_text v = None.
Proof.
  intros Hl. unfold _is_bool_text, str_in. cbv zeta.
  rewrite !bool_decide_eq_false_2; [done|..];
    intros Hin;
    repeat (apply elem_of_cons in Hin as [Hin|Hin];
            [rewrite Hin in Hl; simpl in Hl; lia|]);
    by apply elem_of_nil in Hin.
Qed.

Lemma ishex_ascii (c : N) : ishex c = true -> (c <? 128) = true.
Proof.
  unfold ishex. rewrite !orb_true_iff, !andb_true_iff, !N.leb_le, N.ltb_lt. lia.
Qed.

(** X4. A text written by [_to_hex_color] is shown in the form as a colour
    again: the classifier takes the colour branch on it, with the colour
    written, and its control is a colour editor. *)
Theorem written_color_is_color (c : QColor) (keep_alpha : bool) :
  color_in_range c ->
  classify (_to_hex_color c keep_alpha)
  = KColor (if keep_alpha then c
            else {| red := red c; green := green c; blue := blue c;
                    alpha := 255 |})
  /\ control_for (_to_hex_color c keep_alpha)
     = Some (ColorEditor (_to_hex_color c keep_alpha)).
Proof.
  intros Hc.
  assert (Hcl : classify (_to_hex_color c keep_alpha)
                = KColor (if keep_alpha then c
                          else {| red := red c; green := green c;
                                  blue := blue c; alpha := 255 |})).
  { unfold classify.
    pose proof (parse_to_hex_color c true Hc) as Ht.
    pose proof (parse_to_hex_color c false Hc) as Hf.
    cbv iota in Ht, Hf.
    rewrite long_text_not_bool.
    - destruct keep_alpha; by rewrite ?Ht, ?Hf.
    - destruct Hc as (Hr & Hg & Hb & Ha).
      assert (Hx : forallb ishex (drop 2 (_to_hex_color c keep_alpha)) = true).
      { unfold _to_hex_color. destruct keep_alpha; cbn [py app drop].
        all: by rewrite drop_0, !forallb_app, !format_02X_hex. }
      assert (Hlen : (8 <= length (_to_hex_color c keep_alpha))%nat).
      { rewrite to_hex_color_length by done. destruct keep_alpha; lia. }
      assert (Hst : strip (_to_hex_color c keep_alpha)
                    = _to_hex_color c keep_alpha).
      { unfold strip, lstrip, rstrip.
        destruct (_to_hex_color c keep_alpha) as [|a [|b r]] eqn:E;
          [simpl in Hlen; lia..|].
        assert (a = 48 /\ b = 120) as [-> ->].
        { unfold _to_hex_color in E. by destruct keep_alpha; injection E. }
        rewrite lstrip_by_id by done.
        change (forallb ishex r = true) in Hx.
        destruct (last r) as [z|] eqn:El.
        - apply (rstrip_by_last _ _ z).
          + change (last (48 :: 120 :: r)) with (last (120 :: r)).
            destruct r; [done|]. done.
          + apply ishex_not_space.
            apply last_Some in El as [r' ->].
            rewrite forallb_app in Hx. apply andb_true_iff in Hx as [_ Hz].
            simpl in Hz. by apply andb_true_iff in Hz as [-> _].
        - apply last_None in El. subst r. simpl in Hlen. lia. }
      rewrite Hst, lower_ascii_length; [lia|].
      destruct (_to_hex_color c keep_alpha) as [|a [|b r]] eqn:E;
        [simpl in Hlen; lia..|].
      assert (a = 48 /\ b = 120) as [-> ->].
      { unfold _to_hex_color in E. by destruct keep_alpha; injection E. }
      change (forallb ishex r = true) in Hx.
      change (forallb (fun c => c <? 128) r = true).
      clear -Hx. induction r as [|x r IH]; [done|].
      simpl in *. apply andb_true_iff in Hx as [Hx Hr].
      by rewrite (ishex_ascii _ Hx), IH. }
  split; [done|]. unfold control_for. by rewrite Hcl.
Qed.
End WrittenColor.

Lemma written_color_is_color_witness :
  @classify plain_runtime
    (_to_hex_color {| red := 255; green := 128; blue := 0; alpha := 64 |} true)
  = KColor {| red := 255; green := 128; blue := 0; alpha := 64 |}
  /\ @control_for plain_runtime
       (_to_hex_color {| red := 255; green := 128; blue := 0; alpha := 64 |}
                      true)
     = Some (@ColorEditor plain_runtime
               (_to_hex_color {| red := 255; green := 128; blue := 0;
                                 alpha := 64 |} true)).
Proof.
  apply (@written_color_is_color plain_runtime
           {| red := 255; green := 128; blue := 0; alpha := 64 |} true).
  unfold color_in_range. simpl. lia.
Defined.
End ColourTexts.

(** ** Sections and keys of a loaded document *)

Lemma first_occurrences_elem (l : list str) (x : str) :
  x ∈ first_occurrences l <-> x ∈ l.
Proof.
  revert x. induction l as [|y l IH]; intros x; simpl; [done|].
  rewrite !elem_of_cons, list_elem_of_filter, IH.
  destruct (decide (x = y)); tauto.
Qed.

Lemma first_occurrences_NoDup (l : list str) : NoDup (first_occurrences l).
Proof.
  induction l as [|y l IH]; simpl; [constructor|].
  constructor.
  - rewrite list_elem_of_filter. by intros [? _].
  - by apply NoDup_filter.
Qed.

Lemma first_occurrences_snoc (l : list str) (x : str) :
  first_occurrences (l ++ [x])
  = if decide (x ∈ l) then first_occurrences l else first_occurrences l ++ [x].
Proof.
  induction l as [|y l IH].
  - simpl. destruct (decide (x ∈ [])) as [Hin|]; [|done].
    by apply elem_of_nil in Hin.
  - cbn [app first_occurrences]. rewrite IH.
    destruct (decide (x = y)) as [->|Hxy].
    + destruct (decide (y ∈ y :: l)) as [_|Hn]; [|by destruct Hn; left].
      f_equal. destruct (decide (y ∈ l)); [done|].
      rewrite filter_app, filter_cons_False, filter_nil by (by intros ?).
      by rewrite app_nil_r.
    + destruct (decide (x ∈ l)) as [Hin|Hin].
      * destruct (decide (x ∈ y :: l)) as [_|Hn]; [done|].
        destruct Hn. by right.
      * destruct (decide (x ∈ y :: l)) as [Hn|_].
        { apply elem_of_cons in Hn as [?|?]; done. }
        by rewrite filter_app, filter_cons_True, filter_nil by done.
Qed.

Lemma load_step_order (l : list str) (raw : str) (idx : nat) (st : scan) :
  order_inv l st -> order_inv (l ++ [raw]) (load_step idx raw st).
Proof.
  intros [Ho Hs]. unfold order_inv, load_step. rewrite omap_app. simpl.
  unfold header_name at 2 4.
  destruct (_SECTION_RE raw) as [sm|] eqn:Es; simpl.
  - set (cs := _norm_section (group "section" sm)).
    rewrite first_occurrences_snoc.
    destruct (decide (cs ∈ seen_sections st)) as [Hin|Hin]; simpl.
    + rewrite decide_True by (by apply Hs). split; [done|].
      intros s. rewrite elem_of_app, list_elem_of_singleton, Hs.
      split; [by left|]. intros [?| ->]; [done|]. by apply Hs.
    + rewrite decide_False by (by rewrite <- Hs). split; [by rewrite Ho|].
      intros s. rewrite elem_of_union, elem_of_singleton, elem_of_app,
        list_elem_of_singleton, Hs. tauto.
  - rewrite app_nil_r. destruct (_KEYVAL_RE raw); simpl; done.
Qed.

Lemma load_loop_order (l : list str) : order_inv l (load_loop 0 l scan_init).
Proof.
  induction l as [|raw l IH] using rev_ind.
  - split; [done|]. intros s. simpl. set_solver.
  - rewrite load_loop_snoc. by apply load_step_order.
Qed.

Lemma loaded_section_order (content : bytes) :
  section_order (loaded content)
  = first_occurrences (omap header_name (lines (loaded content)))
  /\ forall s,
       s ∈ section_order (loaded content)
       <-> exists i raw, lines (loaded content) !! i = Some raw
                         /\ header_name raw = Some s.
Proof.
  assert (Ho : section_order (loaded content)
               = first_occurrences (omap header_name (lines (loaded content)))).
  { apply load_loop_order. }
  split; [done|]. rewrite Ho.
  intros s. rewrite first_occurrences_elem, list_elem_of_omap.
  split.
  - intros (raw & Hin & Hh). apply list_elem_of_lookup in Hin as [i Hi]. eauto.
  - intros (i & raw & Hi & Hh). exists raw. split; [|done].
    by eapply list_elem_of_lookup_2.
Qed.

(** X6. [sections()] on a document just loaded lists the normalized names
    of the section headers of the file, each once, in the order in which
    they first occur. *)
Theorem sections_first_occurrence (content : bytes) :
  exists ss,
    sections (Regular content) (loaded content) = Returned ss (loaded content)
    /\ ss = first_occurrences (omap header_name (lines (loaded content)))
    /\ NoDup ss
    /\ forall s,
         s ∈ ss
         <-> exists i raw, lines (loaded content) !! i = Some raw
                           /\ header_name raw = Some s.
Proof.
  eexists. split; [reflexivity|].
  destruct (loaded_section_order content) as [Ho Hin].
  split; [done|]. split; [|done].
  rewrite Ho. apply first_occurrences_NoDup.
Qed.

Lemma find_section_from_spec (want : str) (idx : nat) (ls : list str) :
  match find_section_from want idx ls with
  | Some i =>
      idx <= i
      /\ (exists raw, ls !! (i - idx) = Some raw /\ header_name raw = Some want)
      /\ forall j raw, j < i - idx -> ls !! j = Some raw ->
                       header_name raw <> Some want
  | None => forall j raw, ls !! j = Some raw -> header_name raw <> Some want
  end.
Proof.
  revert idx. induction ls as [|raw ls IH]; intros idx; simpl; [done|].
  assert (Hskip : header_name raw <> Some want ->
            match find_section_from want (S idx) ls with
            | Some i =>
                idx <= i
                /\ (exists raw0, (raw :: ls) !! (i - idx) = Some raw0
                                 /\ header_name raw0 = Some want)
                /\ forall j raw0, j < i - idx -> (raw :: ls) !! j = Some raw0 ->
                                  header_name raw0 <> Some want
            | None => forall j raw0, (raw :: ls) !! j = Some raw0 ->
                                     header_name raw0 <> Some want
            end).
  { intros Hne. specialize (IH (S idx)).
    destruct (find_section_from want (S idx) ls) as [i|].
    - destruct IH as (Hi & (raw0 & Hl & Hh) & Hbefore).
      split; [lia|]. split.
      + exists raw0. split; [|done].
        replace (i - idx) with (S (i - S idx)) by lia. done.
      + intros [|j] raw1 Hj Hl1.
        * by injection Hl1 as <-.
        * apply (Hbefore j); [lia|done].
    - intros [|j] raw1 Hl1.
      + by injection Hl1 as <-.
      + by apply (IH j). }
  destruct (_SECTION_RE raw) as [sm|] eqn:Es.
  - assert (Hh : header_name raw = Some (_norm_section (group "section" sm))).
    { unfold header_name. by rewrite Es. }
    destruct (decide (_norm_section (group "section" sm) = want)) as [Hw|Hw].
    + split; [lia|]. rewrite Nat.sub_diag. split.
      * exists raw. split; [done|]. by rewrite Hh, Hw.
      * intros j raw' Hj. lia.
    + apply Hskip. rewrite Hh. by intros [= ?].
  - apply Hskip. unfold header_name. by rewrite Es.
Qed.

(** X7. [_find_section_line_index] returns the index of the first line that
    is a header of the section, [None] when no line is; on a document just
    loaded it finds a line exactly for the sections that [sections()]
    lists. *)
Theorem find_section_line_index_first (section : str) (d : IniDocument)
    (content : bytes) :
  (exists o,
     _find_section_line_index section d = Returned o d
     /\ match o with
        | Some i =>
            (exists raw, lines d !! i = Some raw
                         /\ header_name raw = Some (_norm_section section))
            /\ forall j raw, j < i -> lines d !! j = Some raw ->
                             header_name raw <> Some (_norm_section section)
        | None =>
            forall j raw, lines d !! j = Some raw ->
                          header_name raw <> Some (_norm_section section)
        end)
  /\ ((exists i, _find_section_line_index section (loaded content)
                 = Returned (Some i) (loaded content))
      <-> _norm_section section ∈ section_order (loaded content)).
Proof.
  split.
  - pose proof (find_section_from_spec (_norm_section section) 0 (lines d))
      as Hs.
    eexists. split; [reflexivity|].
    destruct (find_section_from _ 0 (lines d)) as [i|].
    + destruct Hs as (_ & Hl & Hb). rewrite Nat.sub_0_r in Hl.
      split; [done|]. intros j raw Hj. apply Hb. lia.
    + done.
  - pose proof (find_section_from_spec (_norm_section section) 0
                  (lines (loaded content))) as Hs.
    destruct (loaded_section_order content) as [_ Hin]. rewrite Hin.
    unfold _find_section_line_index, bind, read, ret.
    destruct (find_section_from _ 0 _) as [i|].
    + destruct Hs as (_ & (raw & Hl & Hh) & _). rewrite Nat.sub_0_r in Hl.
      split; [|by eauto]. intros _. eauto.
    + split; [by intros [i [=]]|]. intros (i & raw & Hl & Hh).
      by destruct (Hs i raw Hl).
Qed.

Lemma section_end_from_spec (idx : nat) (ls : list str) :
  idx <= section_end_from idx ls <= idx + length ls
  /\ (forall j raw, j < section_end_from idx ls - idx -> ls !! j = Some raw ->
                    _SECTION_RE raw = None)
  /\ (section_end_from idx ls < idx + length ls ->
      exists raw, ls !! (section_end_from idx ls - idx) = Some raw
                  /\ is_Some (_SECTION_RE raw)).
Proof.
  revert idx. induction ls as [|raw ls IH]; intros idx; simpl.
  - split; [lia|]. split; [intros j raw Hj; lia|lia].
  - destruct (_SECTION_RE raw) as [sm|] eqn:Es.
    + split; [lia|]. split; [intros j raw' Hj; lia|]. intros _.
      rewrite Nat.sub_diag. exists raw. by rewrite Es.
    + destruct (IH (S idx)) as (Hr & Hb & He).
      split; [lia|]. split.
      * intros [|j] raw' Hj Hl; [by injection Hl as <-|].
        apply (Hb j); [lia|done].
      * intros Hlt. destruct He as (raw' & Hl & Hh); [lia|].
        exists raw'. split; [|done].
        replace (section_end_from (S idx) ls - idx)
          with (S (section_end_from (S idx) ls - S idx)) by lia.
        done.
Qed.

(** X8. [_find_section_end_index(start)] returns the index of the first
    section header at or after [start], and the number of lines when there
    is none or when [start] is beyond the last line: no line between [start]
    and the result is a header. *)
Theorem find_section_end_index_first (start_idx : nat) (d : IniDocument) :
  exists n,
    _find_section_end_index start_idx d = Returned n d
    /\ n <= length (lines d)
    /\ (length (lines d) < start_idx -> n = length (lines d))
    /\ (start_idx <= length (lines d) ->
        start_idx <= n
        /\ (forall j raw, start_idx <= j < n -> lines d !! j = Some raw ->
                          _SECTION_RE raw = None)
        /\ (n < length (lines d) ->
            exists raw, lines d !! n = Some raw /\ is_Some (_SECTION_RE raw))).
Proof.
  unfold _find_section_end_index, bind, read, ret.
  eexists. split; [reflexivity|].
  destruct (decide (start_idx <= length (lines d))) as [Hle|Hgt].
  - destruct (section_end_from_spec start_idx (drop start_idx (lines d)))
      as (Hr & Hb & He).
    rewrite length_drop in Hr, He.
    split; [lia|]. split; [lia|]. intros _. split; [lia|]. split.
    + intros j raw Hj Hl. apply (Hb (j - start_idx)); [lia|].
      rewrite lookup_drop. by replace (start_idx + (j - start_idx)) with j by lia.
    + intros Hlt. destruct He as (raw & Hl & Hh); [lia|].
      exists raw. split; [|done]. rewrite lookup_drop in Hl.
      by replace (start_idx + (section_end_from start_idx
                                 (drop start_idx (lines d)) - start_idx))
        with (section_end_from start_idx (drop start_idx (lines d)))
        in Hl by lia.
  - split; [done|]. split; [done|]. lia.
Qed.

(** After the scan, a pair has an Entry exactly when a line defines it, and
    the Entry is that of the last such line. *)
Lemma load_loop_get (l : list str) (s k : str) :
  match Dict.get (s, k) (sc_refs (load_loop 0 l scan_init)) with
  | Some r =>
      defines l (line_index r) s k (value r)
      /\ forall n v', line_index r < n -> ~ defines l n s k v'
  | None => forall j v, ~ defines l j s k v
  end.
Proof.
  induction l as [|raw l IH] using rev_ind.
  { simpl. intros j v (? & ? & Hl & _). done. }
  rewrite load_loop_snoc. simpl.
  destruct (load_loop_inv l) as (Hcur & _ & _).
  set (st := load_loop 0 l scan_init) in *.
  assert (Hkeep :
            (forall km,
               _KEYVAL_RE raw = Some km ->
               _SECTION_RE raw = None ->
               (section_at l (length l), _norm_key (group "key" km)) = (s, k) ->
               False) ->
          match Dict.get (s, k) (sc_refs st) with
          | Some r =>
              defines (l ++ [raw]) (line_index r) s k (value r)
              /\ forall n v', line_index r < n -> ~ defines (l ++ [raw]) n s k v'
          | None => forall j v, ~ defines (l ++ [raw]) j s k v
          end).
  { intros Hno. destruct (Dict.get (s, k) (sc_refs st)) as [r|].
    - destruct IH as [Hd Hlast]. split; [by apply defines_app|].
      intros n v' Hn [Hd'|(-> & km & Hs & Hk & Hkey & _ & Hsec)]%defines_snoc_inv.
      + by apply (Hlast n v').
      + apply (Hno km Hk Hs). by rewrite Hsec, Hkey.
    - intros j v [Hd'|(-> & km & Hs & Hk & Hkey & _ & Hsec)]%defines_snoc_inv.
      + by apply (IH j v).
      + apply (Hno km Hk Hs). by rewrite Hsec, Hkey. }
  unfold load_step.
  destruct (_SECTION_RE raw) as [sm|] eqn:Hs.
  { assert (Hr : forall st', sc_refs st' = sc_refs st ->
              match Dict.get (s, k) (sc_refs st') with
              | Some r =>
                  defines (l ++ [raw]) (line_index r) s k (value r)
                  /\ forall n v', line_index r < n ->
                                  ~ defines (l ++ [raw]) n s k v'
              | None => forall j v, ~ defines (l ++ [raw]) j s k v
              end).
    { intros st' ->. apply Hkeep. intros km _ [=]. }
    destruct (decide _); by apply Hr. }
  destruct (_KEYVAL_RE raw) as [km|] eqn:Hk.
  2:{ apply Hkeep. intros km [=]. }
  cbn [sc_refs]. rewrite Hcur, section_at_normalized.
  destruct (decide ((section_at l (length l), _norm_key (group "key" km))
                    = (s, k))) as [He|Hne].
  - rewrite He, dict_get_put_eq. cbn [line_index value].
    injection He as Hsec Hkey. split.
    + exists raw, km. split; [by apply list_lookup_middle|].
      do 4 (split; [done|]). by rewrite section_at_app.
    + intros n v' Hn (? & ? & Hl & _). apply lookup_lt_Some in Hl.
      rewrite length_app in Hl. simpl in Hl. lia.
  - rewrite dict_get_put_ne by done. apply Hkeep.
    intros km' Hk' _ He. injection Hk' as <-. done.
Qed.

(** X9. On a document just loaded, [get] returns [None] exactly for the
    pairs that no line defines, and for the others the value of the last
    line that defines the key in that section. *)
Theorem get_reads_last_definition (content : bytes) (section key : str) :
  exists o,
    get (Regular content) section key (loaded content)
    = Returned o (loaded content)
    /\ match o with
       | Some v =>
           exists j,
             defines (lines (loaded content)) j
                     (_norm_section section) (_norm_key key) v
             /\ forall n v', j < n ->
                  ~ defines (lines (loaded content)) n
                            (_norm_section section) (_norm_key key) v'
       | None =>
           forall j v,
             ~ defines (lines (loaded content)) j
                       (_norm_section section) (_norm_key key) v
       end.
Proof.
  rewrite get_wf by apply loaded_wf. eexists. split; [reflexivity|].
  pose proof (load_loop_get (lines (loaded content))
                (_norm_section section) (_norm_key key)) as Hg.
  change (sc_refs (load_loop 0 (lines (loaded content)) scan_init))
    with (refs (loaded content)) in Hg.
  destruct (Dict.get _ (refs (loaded content))) as [r|]; simpl; [|done].
  exists (line_index r). done.
Qed.

(** *** Values and comments *)

(** X10. The values [get] returns from a document just loaded are trimmed:
    a value has no white space at either end, so stripping it changes
    nothing, and it holds no line feed. *)
Theorem loaded_values_trimmed (content : bytes) (section key v : str) :
  get (Regular content) section key (loaded content)
  = Returned (Some v) (loaded content) ->
  strip v = v /\ forallb dotchar v = true.
Proof.
  intros Hget.
  destruct (get_existing _ section key v _ (loaded_wf content) Hget)
    as (r & Hg & <-).
  destruct (loaded_entries content) as [Hent _].
  rewrite Forall_forall in Hent.
  specialize (Hent _ (dict_get_elem _ _ _ Hg)). cbn [fst snd] in Hent.
  destruct Hent as (raw & km & _ & _ & Hk & _ & Hv & _).
  destruct (keyval_val_trimmed raw km Hk) as (Hdot & Hhead & Hlast & _).
  destruct (trimmed_fixed _ Hhead Hlast) as [Hs Hr].
  rewrite Hv, Hr. done.
Qed.

Lemma loaded_values_trimmed_witness :
  strip (py "a b") = py "a b" /\ forallb dotchar (py "a b") = true.
Proof.
  apply (loaded_values_trimmed (text ["[A]"; " k =  a b  "]%string)
           (py "A") (py "k") (py "a b")).
  reflexivity.
Defined.

(** X12. A line whose first character after leading white space is a
    semicolon is a comment: it matches neither the section pattern nor the
    key pattern, and [load] records no Entry for it. *)
Theorem comment_line_ignored (raw rest : str) :
  lstrip raw = SEMI :: rest ->
  _SECTION_RE raw = None /\ _KEYVAL_RE raw = None
  /\ forall content i,
       lines (loaded content) !! i = Some raw ->
       forall t r, (t, r) ∈ refs (loaded content) -> line_index r <> i.
Proof.
  intros Hc.
  assert (Hk : _KEYVAL_RE raw = None).
  { destruct (_KEYVAL_RE raw) as [km|] eqn:Hk; [|done]. exfalso.
    apply keyval_shape in Hk
      as (p & k & w1 & w2 & v & suf & -> & _ & Hp & Hkc & _ & Hw1 & _).
    pose proof (lstrip_by_first isspace (fun c => negb (N.eqb c SEMI))
                  (p ++ k ++ w1) EQUALS (w2 ++ v ++ suf)) as Hf.
    unfold lstrip in Hc. rewrite <- !app_assoc in Hf. cbn [app] in Hc.
    rewrite Hc in Hf. cbn in Hf. apply diff_false_true, Hf; [|done..].
    rewrite !forallb_app. rewrite !andb_true_iff. split; [|split].
    - eapply forallb_weaken; [|exact Hp]. intros c Hs.
      destruct (N.eqb_spec c SEMI) as [->|]; done.
    - eapply forallb_weaken; [|exact Hkc]. intros c Hs.
      destruct (N.eqb_spec c SEMI) as [->|]; done.
    - eapply forallb_weaken; [|exact Hw1]. intros c Hs.
      destruct (N.eqb_spec c SEMI) as [->|]; done. }
  assert (Hs : _SECTION_RE raw = None).
  { destruct (_SECTION_RE raw) as [sm|] eqn:Hs; [|done]. exfalso.
    unfold _SECTION_RE, re_match, star in Hs.
    apply run_Rep in Hs as (p & r1 & g1 & -> & _ & Hp & Hs & ->).
    apply run_Lit in Hs as (r2 & -> & _).
    unfold lstrip in Hc. by rewrite lstrip_by_app in Hc. }
  split; [done|]. split; [done|].
  intros content i Hl t r Hin Hi.
  destruct (loaded_entries content) as [Hent _].
  rewrite Forall_forall in Hent. specialize (Hent _ Hin). cbn [fst snd] in Hent.
  destruct Hent as (raw' & km & Hl' & _ & Hk' & _).
  rewrite Hi, Hl in Hl'. injection Hl' as <-. congruence.
Qed.

Lemma comment_line_ignored_witness :
  _SECTION_RE (py "  ; volume=3") = None
  /\ _KEYVAL_RE (py "  ; volume=3") = None
  /\ forall content i,
       lines (loaded content) !! i = Some (py "  ; volume=3") ->
       forall t r, (t, r) ∈ refs (loaded content) -> line_index r <> i.
Proof.
  apply (comment_line_ignored (py "  ; volume=3") (py " volume=3")).
  reflexivity.
Defined.

(** X13. [set] on a pair that has no Entry keeps nothing of what it
    inserts, and nothing of earlier calls of [set] either: the document is
    again the one [load] makes of the file, with the name of the section
    added to the order of the sections when it is not empty and not there;
    the pair still has no Entry. *)
Theorem set_new_key_reverts (content : bytes) (d : IniDocument)
    (section key v : str) :
  reachable (Regular content) d ->
  get (Regular content) section key d = Returned None d ->
  exists d',
    set (Regular content) section key v d = Returned tt d'
    /\ lines d' = lines (loaded content)
    /\ refs d' = refs (loaded content)
    /\ section_order d'
       = (if negb (bool_decide (_norm_section section = []))
             && negb (bool_decide (_norm_section section
                                   ∈ section_order (loaded content)))
          then section_order (loaded content) ++ [_norm_section section]
          else section_order (loaded content))
    /\ get (Regular content) section key d' = Returned None d'.
Proof.
  intros Hr Hget. destruct (reachable_wf _ _ Hr) as [Hwf _].
  rewrite get_wf in Hget by done. injection Hget as Hget.
  assert (Hg : Dict.get (_norm_section section, _norm_key key) (refs d) = None).
  { by destruct (Dict.get _ (refs d)). }
  rewrite (set_new content section key v d Hwf Hg). eexists.
  split; [reflexivity|].
  assert (Hreg : forall s,
            lines (register_section s (loaded content)) = lines (loaded content)
            /\ refs (register_section s (loaded content))
               = refs (loaded content)).
  { intros s. unfold register_section. by destruct (_ && _). }
  destruct (Hreg (_norm_section section)) as [Hl Hrf].
  split; [done|]. split; [done|]. split.
  { unfold register_section. by destruct (_ && _). }
  rewrite get_wf by apply register_section_wf, loaded_wf.
  rewrite Hrf. f_equal.
  apply dict_get_None in Hg. rewrite (reachable_keys content d Hr) in Hg.
  apply dict_get_None in Hg. by rewrite Hg.
Qed.

Lemma set_new_key_reverts_witness :
  exists d',
    set (Regular (text ["[A]"; "foo=1"]%string)) (py "B") (py "bar") (py "2")
        (rewritten (py "A", py "foo")
           {| section := py "A"; key := py "foo"; value := py "1";
              line_index := 1; prefix := []; suffix := [LF] |}
           (py "9") (py "foo=1" ++ [LF])
           (loaded (text ["[A]"; "foo=1"]%string)))
    = Returned tt d'
    /\ lines d' = lines (loaded (text ["[A]"; "foo=1"]%string))
    /\ refs d' = refs (loaded (text ["[A]"; "foo=1"]%string))
    /\ section_order d'
       = (if negb (bool_decide (_norm_section (py "B") = []))
             && negb (bool_decide
                        (_norm_section (py "B")
                         ∈ section_order
                             (loaded (text ["[A]"; "foo=1"]%string))))
          then section_order (loaded (text ["[A]"; "foo=1"]%string))
               ++ [_norm_section (py "B")]
          else section_order (loaded (text ["[A]"; "foo=1"]%string)))
    /\ get (Regular (text ["[A]"; "foo=1"]%string)) (py "B") (py "bar") d'
       = Returned None d'.
Proof.
  apply (set_new_key_reverts (text ["[A]"; "foo=1"]%string)).
  - apply (reach_set _ (loaded (text ["[A]"; "foo=1"]%string))
             (py "A") (py "foo") (py "9")).
    + apply (reach_load _ __init__). reflexivity.
    + vm_compute. reflexivity.
  - vm_compute. reflexivity.
Defined.

(** X14. On a document just loaded, [set] on a pair that has an Entry
    rewrites a line that ends in a line feed as a line that ends in two line
    feeds when the value of the Entry is not empty, and in one when it is
    empty; a line without line feed gets none. *)
Theorem set_existing_line_feeds (content : bytes) (section key v v0 : str) :
  get (Regular content) section key (loaded content)
  = Returned (Some v0) (loaded content) ->
  exists r old d',
    Dict.get (_norm_section section, _norm_key key) (refs (loaded content))
    = Some r
    /\ lines (loaded content) !! line_index r = Some old
    /\ set (Regular content) section key v (loaded content) = Returned tt d'
    /\ (endswith_lf old = true -> v0 <> [] ->
        exists suf,
          suffix r = suf ++ [LF]
          /\ lines d' !! line_index r
             = Some ((prefix r ++ Ref.key r ++ [EQUALS] ++ v ++ suf)
                     ++ [LF; LF]))
    /\ (endswith_lf old = true -> v0 = [] ->
        lines d' !! line_index r
        = Some (prefix r ++ Ref.key r ++ [EQUALS] ++ v ++ [LF]))
    /\ (endswith_lf old = false ->
        lines d' !! line_index r
        = Some (prefix r ++ Ref.key r ++ [EQUALS] ++ v ++ suffix r)).
Proof.
  intros Hget. pose proof (loaded_wf content) as Hwf.
  destruct (get_existing _ section key v0 _ Hwf Hget) as (r & Hg & Hv0).
  destruct (set_existing (Regular content) section key v _ r Hwf Hg)
    as (old & Hold & Hset).
  exists r, old. eexists. do 3 (split; [done|]).
  cbn [rewritten lines].
  rewrite list_lookup_insert_eq by (by eapply lookup_lt_Some).
  destruct (loaded_entries content) as [Hent _].
  rewrite Forall_forall in Hent.
  specialize (Hent _ (dict_get_elem _ _ _ Hg)). cbn [fst snd] in Hent.
  destruct Hent as (raw & km & Hl & _ & Hk & _ & Hv & _ & Hsuf & _).
  rewrite Hold in Hl. injection Hl as <-.
  destruct (keyval_val_trimmed old km Hk) as (_ & Hhead & Hlast & Hempty).
  destruct (trimmed_fixed _ Hhead Hlast) as [_ Hr].
  rewrite Hr in Hv. rewrite Hv in Hv0.
  apply keyval_shape in Hk
    as (p & k & w1 & w2 & val & suf & Hraw & -> & _).
  change (group "val" _) with val in *.
  change (group "suffix" _) with suf in *.
  unfold rewrite_line. split; [|split].
  - intros Hlf Hne. rewrite Hlf.
    destruct (last val) as [c|] eqn:El.
    2:{ apply last_None in El. congruence. }
    destruct suf as [|x suf'] eqn:Es.
    { exfalso. rewrite Hraw, app_nil_r, !app_assoc in Hlf.
      unfold endswith_lf in Hlf. rewrite last_app, El in Hlf.
      apply N.eqb_eq in Hlf. subst c. done. }
    rewrite <- Es in *.
    assert (Hls : last suf = Some LF).
    { rewrite Hraw, !app_assoc in Hlf. unfold endswith_lf in Hlf.
      rewrite last_app in Hlf. destruct (last suf) as [z|] eqn:Ez.
      - apply N.eqb_eq in Hlf. by subst z.
      - apply last_None in Ez. congruence. }
    apply last_Some in Hls as [suf0 Hs0]. exists suf0.
    split; [congruence|]. rewrite Hsuf, Hs0. f_equal.
    by rewrite <- !app_assoc.
  - intros Hlf He. rewrite Hlf, Hsuf. rewrite Hempty by congruence. done.
  - intros Hlf. rewrite Hlf. by rewrite app_nil_r.
Qed.

Lemma set_existing_line_feeds_witness :
  exists r old d',
    Dict.get (_norm_section (py "A"), _norm_key (py "foo"))
             (refs (loaded (text ["[A]"; "foo=1"]%string))) = Some r
    /\ lines (loaded (text ["[A]"; "foo=1"]%string)) !! line_index r = Some old
    /\ set (Regular (text ["[A]"; "foo=1"]%string)) (py "A") (py "foo")
           (py "9") (loaded (text ["[A]"; "foo=1"]%string)) = Returned tt d'
    /\ (endswith_lf old = true -> py "1" <> [] ->
        exists suf,
          suffix r = suf ++ [LF]
          /\ lines d' !! line_index r
             = Some ((prefix r ++ Ref.key r ++ [EQUALS] ++ py "9" ++ suf)
                     ++ [LF; LF]))
    /\ (endswith_lf old = true -> py "1" = [] ->
        lines d' !! line_index r
        = Some (prefix r ++ Ref.key r ++ [EQUALS] ++ py "9" ++ [LF]))
    /\ (endswith_lf old = false ->
        lines d' !! line_index r
        = Some (prefix r ++ Ref.key r ++ [EQUALS] ++ py "9" ++ suffix r)).
Proof.
  apply (set_existing_line_feeds (text ["[A]"; "foo=1"]%string)
           (py "A") (py "foo") (py "9") (py "1")).
  reflexivity.
Defined.

(** ** Key lines *)

(** X11. How [load] reads a key line: the line of an Entry has an equals
    sign; the key of the Entry is the text before the first equals sign,
    stripped, and its value is the text after it, stripped. *)
Theorem entry_key_and_value (content : bytes) (t : str * str)
    (r : IniValueRef) :
  (t, r) ∈ refs (loaded content) ->
  exists before after,
    lines (loaded content) !! line_index r
    = Some (before ++ [EQUALS] ++ after)
    /\ (EQUALS ∉ before)
    /\ key r = strip before
    /\ value r = strip after.
Proof.
  intros Hin. destruct (loaded_entries content) as [Hent _].
  rewrite Forall_forall in Hent. specialize (Hent _ Hin). cbn [fst snd] in Hent.
  destruct Hent as (raw & km & Hl & _ & Hk & Hkey & Hv & _).
  destruct (keyval_before_after raw km Hk)
    as (before & after & -> & Hne & Hkb & Hva).
  exists before, after. rewrite Hkey, Hv. done.
Qed.

Lemma entry_key_and_value_witness :
  exists before after,
    lines (loaded (py "  volume = 3 ; loud ")) !! 0
    = Some (before ++ [EQUALS] ++ after)
    /\ (EQUALS ∉ before)
    /\ py "volume" = strip before
    /\ py "3 ; loud" = strip after.
Proof.
  apply (entry_key_and_value (py "  volume = 3 ; loud ") ([], py "volume")
           {| section := []; key := py "volume"; value := py "3 ; loud";
              line_index := 0; prefix := py "  "; suffix := py " " |}).
  vm_compute. left.
Defined.

(** What a match of the section pattern is made of. *)
Lemma section_shape (raw : str) (sm : groups) :
  _SECTION_RE raw = Some sm ->
  exists a name b,
    raw = a ++ [LBRACK] ++ name ++ [RBRACK] ++ b
    /\ forallb isspace a = true /\ forallb isspace b = true.
Proof.
  unfold _SECTION_RE, re_match, star, plus. intros Hm.
  apply run_Rep in Hm as (a & r1 & g1 & -> & _ & Ha & Hm & ->).
  apply run_Lit in Hm as (r2 & -> & Hm).
  apply run_Rep in Hm as (name & r3 & g3 & -> & _ & _ & Hm & ->).
  apply run_Lit in Hm as (r4 & -> & Hm).
  apply re_match_final_space in Hm as [Hb _].
  by exists a, name, r4.
Qed.

(** A section header ends, white space apart, in a closing bracket. *)
Lemma section_last (raw : str) (sm : groups) :
  _SECTION_RE raw = Some sm -> last (rstrip raw) = Some RBRACK.
Proof.
  intros (a & name & b & -> & _ & Hb)%section_shape. unfold rstrip.
  rewrite !app_assoc, rstrip_by_app_ws by done.
  rewrite (rstrip_by_last _ _ RBRACK); [by rewrite last_snoc|..|done].
  by rewrite last_snoc.
Qed.

(** A line made of white space, a key, an equals sign, a value and white
    space is read as that key and that value. *)
Lemma written_line_parses (p k v tail : str) :
  forallb isspace p = true ->
  k <> [] -> strip k = k -> forallb keychar k = true ->
  strip v = v -> forallb dotchar v = true ->
  forallb isspace tail = true ->
  exists km,
    _KEYVAL_RE (p ++ k ++ [EQUALS] ++ v ++ tail) = Some km
    /\ _norm_key (group "key" km) = k
    /\ rstrip_by is_crlf (group "val" km) = v
    /\ (last v <> Some RBRACK ->
        _SECTION_RE (p ++ k ++ [EQUALS] ++ v ++ tail) = None).
Proof.
  intros Hp Hne Hsk Hkch Hsv Hdot Htail.
  set (new := p ++ k ++ [EQUALS] ++ v ++ tail).
  assert (Hm : is_Some (_KEYVAL_RE new)).
  { apply run_complete. unfold star, lazy_plus, lazy_star. cbn [splits].
    exists p, (k ++ [EQUALS] ++ v ++ tail).
    split; [done|]. split; [split; [lia|done]|]. split; [done|].
    exists k, ([EQUALS] ++ v ++ tail). split; [done|].
    split; [split; [destruct k; [done|simpl; lia]|done]|].
    split; [done|].
    exists [], ([EQUALS] ++ v ++ tail). split; [done|].
    split; [split; [simpl; lia|done]|]. split; [done|].
    exists (v ++ tail). split; [done|].
    exists [], (v ++ tail). split; [done|].
    split; [split; [simpl; lia|done]|]. split; [done|].
    exists v, tail. split; [done|].
    split; [split; [lia|done]|]. split; [done|].
    exists tail, []. rewrite app_nil_r. split; [done|].
    split; [split; [lia|done]|]. done. }
  destruct Hm as [km Hm]. exists km. split; [done|].
  destruct (keyval_before_after new km Hm)
    as (before & after & Hsplit & Hnb & Hkb & Hva).
  assert (Hna : EQUALS ∉ (p ++ k)).
  { rewrite elem_of_app. intros [Hin|Hin].
    - apply list_elem_of_In in Hin.
      rewrite forallb_forall in Hp. by specialize (Hp _ Hin).
    - apply list_elem_of_In in Hin.
      rewrite forallb_forall in Hkch. by specialize (Hkch _ Hin). }
  unfold new in Hsplit.
  change (p ++ k ++ [EQUALS] ++ v ++ tail)
    with (p ++ k ++ [EQUALS] ++ (v ++ tail)) in Hsplit.
  rewrite (app_assoc p) in Hsplit.
  apply first_split_unique in Hsplit as [<- <-]; [|done..].
  rewrite Hkb, Hva. split; [|split].
  - rewrite <- (app_nil_r k) at 1. by rewrite strip_app_ws.
  - rewrite <- (app_nil_l (v ++ tail)). by rewrite strip_app_ws.
  - intros Hlast. destruct (_SECTION_RE new) as [sm|] eqn:Hsec; [|done].
    exfalso. apply section_last in Hsec. unfold new, rstrip in Hsec.
    rewrite !app_assoc in Hsec.
    rewrite rstrip_by_app_ws in Hsec by done.
    destruct (last v) as [z|] eqn:Ez.
    + rewrite (rstrip_by_last _ _ z) in Hsec.
      * rewrite last_app, Ez in Hsec. congruence.
      * by rewrite last_app, Ez.
      * apply (rstrip_by_last_not isspace (lstrip v)).
        fold (rstrip (lstrip v)). fold (strip v). by rewrite Hsv.
    + apply last_None in Ez. subst v. rewrite app_nil_r in Hsec.
      rewrite (rstrip_by_last _ _ EQUALS) in Hsec; [|by rewrite last_snoc|done].
      by rewrite last_snoc in Hsec.
Qed.

(** X15. The line [set] writes for an existing key reads back: when the key
    is not empty and the value is stripped and without line feed, the new
    line matches the key pattern with the same key and with the new value;
    it is no section header unless the value ends in a closing bracket. *)
Theorem rewritten_line_reads_back (content : bytes) (section key v v0 : str) :
  get (Regular content) section key (loaded content)
  = Returned (Some v0) (loaded content) ->
  _norm_key key <> [] -> strip v = v -> forallb dotchar v = true ->
  exists r d' new km,
    Dict.get (_norm_section section, _norm_key key) (refs (loaded content))
    = Some r
    /\ set (Regular content) section key v (loaded content) = Returned tt d'
    /\ lines d' !! line_index r = Some new
    /\ _KEYVAL_RE new = Some km
    /\ _norm_key (group "key" km) = _norm_key key
    /\ rstrip_by is_crlf (group "val" km) = v
    /\ (last v <> Some RBRACK -> _SECTION_RE new = None).
Proof.
  intros Hget Hne Hsv Hdot. pose proof (loaded_wf content) as Hwf.
  destruct (get_existing _ section key v0 _ Hwf Hget) as (r & Hg & _).
  destruct (set_existing (Regular content) section key v _ r Hwf Hg)
    as (old & Hold & Hset).
  pose proof (wf_get _ _ _ Hwf Hg) as (Ht & _ & Hnk & _).
  injection Ht as _ Hkr.
  destruct (loaded_entry_parts content _ r Hg)
    as (old' & k0 & w1 & w2 & val & Hl & _ & _ & Hkey & _ & Hp & Hkc & _ & _
        & _ & Hs & _).
  assert (Hkch : forallb keychar (Ref.key r) = true).
  { rewrite Hkey. unfold strip, rstrip, lstrip.
    by apply forallb_rstrip_by, forallb_lstrip_by. }
  set (nl := if endswith_lf old then [LF] else []).
  assert (Hnl : forallb isspace (suffix r ++ nl) = true).
  { rewrite forallb_app, Hs. unfold nl. by destruct (endswith_lf old). }
  destruct (written_line_parses (prefix r) (Ref.key r) v (suffix r ++ nl))
    as (km & Hm & Hk & Hv & Hsec); try done.
  { by rewrite <- Hkr. }
  exists r. eexists.
  exists (prefix r ++ Ref.key r ++ [EQUALS] ++ v ++ suffix r ++ nl), km.
  split; [done|]. split; [exact Hset|]. split.
  { cbn [rewritten lines]. unfold rewrite_line. fold nl.
    apply list_lookup_insert_eq. by eapply lookup_lt_Some. }
  split; [done|]. split; [by rewrite Hk|]. done.
Qed.

Lemma rewritten_line_reads_back_witness :
  exists r d' new km,
    Dict.get (_norm_section (py "A"), _norm_key (py "foo"))
             (refs (loaded (text ["[A]"; " foo = 1 "]%string))) = Some r
    /\ set (Regular (text ["[A]"; " foo = 1 "]%string)) (py "A") (py "foo")
           (py "two words") (loaded (text ["[A]"; " foo = 1 "]%string))
       = Returned tt d'
    /\ lines d' !! line_index r = Some new
    /\ _KEYVAL_RE new = Some km
    /\ _norm_key (group "key" km) = _norm_key (py "foo")
    /\ rstrip_by is_crlf (group "val" km) = py "two words"
    /\ (last (py "two words") <> Some RBRACK -> _SECTION_RE new = None).
Proof.
  apply (rewritten_line_reads_back (text ["[A]"; " foo = 1 "]%string)
           (py "A") (py "foo") (py "two words") (py "1")).
  - reflexivity.
  - vm_compute. discriminate.
  - reflexivity.
  - reflexivity.
Defined.

(** ** Saving and loading again *)

Section CodecBack.
Local Open Scope N_scope.

Local Ltac decide_test t b :=
  let E := fresh in
  assert (E : t = b);
  [first [ apply N.ltb_lt; lia | apply N.ltb_ge; lia
         | apply N.leb_le; lia | apply N.leb_gt; lia
         | apply N.eqb_eq; lia | apply N.eqb_neq; lia ]
  | rewrite E; clear E ].

Lemma utf8_scan_encode1 (c : N) (rest : bytes) :
  encodable c = true ->
  utf8_scan (utf8_encode1 c ++ rest) = Some c :: utf8_scan rest.
Proof.
  unfold encodable. rewrite orb_true_iff, andb_true_iff, !N.ltb_lt.
  intros Hc. unfold utf8_encode1.
  pose proof (N.div_mod c 64 ltac:(lia)) as D1.
  pose proof (N.mod_lt c 64 ltac:(lia)) as M1.
  pose proof (N.div_mod (c / 64) 64 ltac:(lia)) as D2.
  pose proof (N.mod_lt (c / 64) 64 ltac:(lia)) as M2.
  pose proof (N.div_mod (c / 64 / 64) 64 ltac:(lia)) as D3.
  pose proof (N.mod_lt (c / 64 / 64) 64 ltac:(lia)) as M3.
  assert (E2 : c / 4096 = c / 64 / 64) by (by rewrite N.Div0.div_div).
  assert (E3 : c / 262144 = c / 64 / 64 / 64) by (by rewrite !N.Div0.div_div).
  rewrite E2, E3.
  set (r := c mod 64) in *. set (a := c / 64) in *.
  set (q2 := a mod 64) in *. set (b := a / 64) in *.
  set (q3 := b mod 64) in *. set (d := b / 64) in *.
  clearbody r a q2 b q3 d.
  destruct (N.ltb_spec c 0x80) as [H1|H1].
  { cbn [app utf8_scan]. by decide_test (c <? 0x80) true. }
  destruct (N.ltb_spec c 0x800) as [H2|H2].
  { cbn [app utf8_scan].
    decide_test (0xC0 + a <? 0x80) false.
    decide_test (0xC2 <=? 0xC0 + a) true.
    decide_test (0xC0 + a <=? 0xDF) true. cbn [andb].
    unfold is_cont.
    decide_test (0x80 <=? 0x80 + r) true.
    decide_test (0x80 + r <=? 0xBF) true. cbn [andb].
    unfold cp2. do 2 f_equal. lia. }
  assert (Hs : ((0xD800 <=? c) && (c <=? 0xDFFF)) = false).
  { apply andb_false_iff. destruct Hc; [left|right]; apply N.leb_gt; lia. }
  rewrite Hs.
  destruct (N.ltb_spec c 0x10000) as [H3|H3].
  { cbn [app utf8_scan].
    decide_test (0xE0 + b <? 0x80) false.
    decide_test (0xC2 <=? 0xE0 + b) true.
    decide_test (0xE0 + b <=? 0xDF) false. cbn [andb].
    decide_test (0xE0 <=? 0xE0 + b) true.
    decide_test (0xE0 + b <=? 0xEF) true. cbn [andb].
    assert (S2 : second3 (0xE0 + b) (0x80 + q2) = true).
    { unfold second3, is_cont.
      destruct (N.eqb_spec (0xE0 + b) 0xE0).
      - apply andb_true_iff. split; apply N.leb_le; lia.
      - destruct (N.eqb_spec (0xE0 + b) 0xED).
        + apply andb_true_iff. split; apply N.leb_le; lia.
        + apply andb_true_iff. split; apply N.leb_le; lia. }
    rewrite S2. unfold is_cont.
    decide_test (0x80 <=? 0x80 + r) true.
    decide_test (0x80 + r <=? 0xBF) true. cbn [andb].
    unfold cp3. do 2 f_equal. lia. }
  cbn [app utf8_scan].
  decide_test (0xF0 + d <? 0x80) false.
  decide_test (0xC2 <=? 0xF0 + d) true.
  decide_test (0xF0 + d <=? 0xDF) false. cbn [andb].
  decide_test (0xE0 <=? 0xF0 + d) true.
  decide_test (0xF0 + d <=? 0xEF) false. cbn [andb].
  decide_test (0xF0 <=? 0xF0 + d) true.
  decide_test (0xF0 + d <=? 0xF4) true. cbn [andb].
  assert (S2 : second4 (0xF0 + d) (0x80 + q3) = true).
  { unfold second4, is_cont.
    destruct (N.eqb_spec (0xF0 + d) 0xF0).
    - apply andb_true_iff. split; apply N.leb_le; lia.
    - destruct (N.eqb_spec (0xF0 + d) 0xF4).
      + apply andb_true_iff. split; apply N.leb_le; lia.
      + apply andb_true_iff. split; apply N.leb_le; lia. }
  rewrite S2. unfold is_cont.
  decide_test (0x80 <=? 0x80 + q2) true.
  decide_test (0x80 + q2 <=? 0xBF) true. cbn [andb].
  decide_test (0x80 <=? 0x80 + r) true.
  decide_test (0x80 + r <=? 0xBF) true. cbn [andb].
  unfold cp4. do 2 f_equal. lia.
Qed.

(** Decoding what was encoded gives the text back. *)
Lemma utf8_decode_encode (s : str) :
  forallb encodable s = true -> utf8_decode (utf8_encode s) = s.
Proof.
  unfold utf8_decode, utf8_encode.
  induction s as [|c s IH]; [done|]. simpl.
  rewrite andb_true_iff. intros [Hc Hs].
  rewrite utf8_scan_encode1 by done. simpl. by rewrite IH.
Qed.

Lemma translate_write_newlines (linesep : str) (s : str) :
  linesep = posix_linesep \/ linesep = windows_linesep ->
  no_cr s = true ->
  translate_newlines (write_newlines linesep s) = s.
Proof.
  intros Hsep. unfold write_newlines, no_cr.
  induction s as [|c s IH]; [done|]. cbn [forallb map concat].
  rewrite andb_true_iff, negb_true_iff. intros [Hc Hs].
  destruct (N.eqb_spec c LF) as [->|Hlf].
  - destruct Hsep as [-> | ->]; cbn; by rewrite IH.
  - cbn [app translate_newlines]. rewrite Hc. by rewrite IH.
Qed.

Lemma write_newlines_encodable (linesep : str) (s : str) :
  linesep = posix_linesep \/ linesep = windows_linesep ->
  forallb encodable s = true ->
  forallb encodable (write_newlines linesep s) = true.
Proof.
  intros Hsep. unfold write_newlines.
  induction s as [|c s IH]; [done|]. cbn [forallb map concat].
  rewrite andb_true_iff. intros [Hc Hs].
  rewrite forallb_app, IH by done. rewrite andb_true_r.
  destruct (N.eqb_spec c LF) as [->|_].
  - by destruct Hsep as [-> | ->].
  - simpl. by rewrite Hc.
Qed.

(** What was written is read back as the same text. *)
Lemma read_write_text (linesep : str) (s : str) :
  linesep = posix_linesep \/ linesep = windows_linesep ->
  no_cr s = true -> forallb encodable s = true ->
  read_text (write_text linesep s) = s.
Proof.
  intros Hsep Hcr Henc. unfold read_text, write_text.
  rewrite utf8_decode_encode by (by apply write_newlines_encodable).
  by apply translate_write_newlines.
Qed.
End CodecBack.

(** X16. What [save] writes, [load] reads back as the same text, where
    [os.linesep] is LF and where it is CRLF: for a document whose lines hold
    no carriage return and no surrogate, the file saved decodes to the lines
    put end to end, and loading it gives that text split into lines. *)
Theorem save_then_load (content : bytes) (d : IniDocument) (linesep : str) :
  reachable (Regular content) d ->
  linesep = posix_linesep \/ linesep = windows_linesep ->
  no_cr (concat (lines d)) = true ->
  forallb encodable (concat (lines d)) = true ->
  exists saved d',
    save linesep (Regular content) d = Returned (Regular saved) d
    /\ read_text saved = concat (lines d)
    /\ load (Regular saved) d = Returned tt d'
    /\ lines d' = splitlines (concat (lines d))
    /\ concat (lines d') = concat (lines d).
Proof.
  intros Hr Hsep Hcr Henc. destruct (reachable_wf _ _ Hr) as [Hwf _].
  rewrite (save_wf linesep content d Hwf).
  assert (Hread : read_text (write_text linesep (concat (lines d)))
                  = concat (lines d)).
  { by apply read_write_text. }
  eexists _, _. split; [reflexivity|]. split; [done|].
  rewrite load_loaded. split; [reflexivity|].
  unfold loaded. cbn [lines]. rewrite Hread. split; [done|].
  apply splitlines_concat.
Qed.

Lemma save_then_load_witness :
  exists saved d',
    save windows_linesep (Regular (text ["[A]"; "foo=1"]%string))
         (loaded (text ["[A]"; "foo=1"]%string))
    = Returned (Regular saved) (loaded (text ["[A]"; "foo=1"]%string))
    /\ read_text saved
       = concat (lines (loaded (text ["[A]"; "foo=1"]%string)))
    /\ load (Regular saved) (loaded (text ["[A]"; "foo=1"]%string))
       = Returned tt d'
    /\ lines d'
       = splitlines (concat (lines (loaded (text ["[A]"; "foo=1"]%string))))
    /\ concat (lines d')
       = concat (lines (loaded (text ["[A]"; "foo=1"]%string))).
Proof.
  apply (save_then_load (text ["[A]"; "foo=1"]%string)
           (loaded (text ["[A]"; "foo=1"]%string)) windows_linesep).
  - apply (reach_load _ __init__). reflexivity.
  - right. reflexivity.
  - reflexivity.
  - reflexivity.
Defined.

(** ** Listings *)

Section Sorting.
Context {A : Type} (leb : A -> A -> bool).
Hypothesis leb_total : forall x y, leb x y = false -> leb y x = true.

Lemma insert_by_perm (x : A) (l : list A) : insert_by leb x l ≡ₚ x :: l.
Proof.
  induction l as [|y l IH]; simpl; [done|].
  destruct (leb x y); [done|]. rewrite IH. apply Permutation_swap.
Qed.

Lemma sort_by_perm (l : list A) : sort_by leb l ≡ₚ l.
Proof.
  induction l as [|x l IH]; simpl; [done|].
  by rewrite insert_by_perm, IH.
Qed.

Lemma insert_by_HdRel (x y : A) (l : list A) :
  leb y x = true -> HdRel (fun a b => leb a b = true) y l ->
  HdRel (fun a b => leb a b = true) y (insert_by leb x l).
Proof.
  intros Hyx Hh. destruct l as [|z l]; simpl; [by constructor|].
  destruct (leb x z); constructor; [done|]. by inversion Hh.
Qed.

Lemma insert_by_Sorted (x : A) (l : list A) :
  Sorted (fun a b => leb a b = true) l ->
  Sorted (fun a b => leb a b = true) (insert_by leb x l).
Proof.
  induction 1 as [|y l Hs IH Hh]; simpl.
  - by repeat constructor.
  - destruct (leb x y) eqn:E.
    + constructor; [by constructor|]. by constructor.
    + constructor; [done|]. apply insert_by_HdRel; [|done].
      by apply leb_total.
Qed.

Lemma sort_by_Sorted (l : list A) :
  Sorted (fun a b => leb a b = true) (sort_by leb l).
Proof.
  induction l as [|x l IH]; simpl; [constructor|].
  by apply insert_by_Sorted.
Qed.
End Sorting.

Lemma str_leb_total (a b : str) : str_leb a b = false -> str_leb b a = true.
Proof.
  revert b. induction a as [|x a IH]; intros [|y b]; simpl; try done.
  destruct (N.ltb_spec x y) as [Hxy|Hxy]; [done|].
  destruct (N.ltb_spec y x) as [Hyx|Hyx]; [done|].
  apply IH.
Qed.

Lemma reachable_NoDup (content : bytes) (d : IniDocument) :
  reachable (Regular content) d -> NoDup (Dict.keys (refs d)).
Proof.
  intros Hr. rewrite (reachable_keys content d Hr). apply loaded_entries.
Qed.

Section ItemsFacts.
Context `{Runtime}.

(** X17. [items(section)] lists the keys of the section with their values,
    each key once, ordered by lowercased key: a pair is listed exactly when
    its key is a normalized key for which [get] returns its value. *)
Theorem items_agree_with_get (content : bytes) (d : IniDocument)
    (section : str) :
  reachable (Regular content) d ->
  exists out,
    items (Regular content) section d = Returned out d
    /\ (forall k v,
          (k, v) ∈ out
          <-> _norm_key k = k
              /\ get (Regular content) section k d = Returned (Some v) d)
    /\ NoDup out.*1
    /\ Sorted (fun a b => str_leb (lower a.1) (lower b.1) = true) out.
Proof.
  intros Hr. destruct (reachable_wf _ _ Hr) as [Hwf _].
  pose proof (reachable_NoDup content d Hr) as Hnd.
  destruct Hwf as [Hl Hent].
  unfold items, _ensure_loaded, read, ret, bind. cbv beta.
  rewrite Hl. cbv beta iota zeta. eexists. split; [reflexivity|].
  set (s := _norm_section section).
  set (pick := fun tr : (str * str) * IniValueRef =>
                 if decide (tr.1.1 = s) then Some (tr.1.2, value tr.2)
                 else None).
  assert (Hmem : forall k v,
            (k, v) ∈ omap pick (refs d)
            <-> exists r, Dict.get (s, k) (refs d) = Some r /\ value r = v).
  { intros k v. rewrite list_elem_of_omap. split.
    - intros ([[sec k'] r] & Hin & Hp). unfold pick in Hp. simpl in Hp.
      destruct (decide (sec = s)) as [->|]; [|done]. injection Hp as -> <-.
      exists r. split; [|done]. by apply dict_elem_get.
    - intros (r & Hg & <-). exists ((s, k), r). split.
      + by apply dict_get_elem.
      + unfold pick. simpl. by rewrite decide_True. }
  split; [|split].
  - intros k v. rewrite (sort_by_perm item_leb), Hmem.
    rewrite get_wf by done. fold s. split.
    + intros (r & Hg & <-).
      pose proof (wf_get d _ _ (conj Hl Hent) Hg) as (Ht & _ & Hk & _).
      injection Ht as _ Hkr.
      assert (Hnk : _norm_key k = k) by (by rewrite Hkr).
      split; [done|]. by rewrite Hnk, Hg.
    + intros [Hk Hg]. rewrite Hk in Hg. injection Hg as Hg.
      destruct (Dict.get (s, k) (refs d)) as [r|]; [|done].
      injection Hg as <-. eauto.
  - rewrite (sort_by_perm item_leb).
    clear Hmem Hent Hl. induction (refs d) as [|[[sec k] r] rs IH]; simpl.
    { constructor. }
    apply NoDup_cons in Hnd as [Hni Hnd]. specialize (IH Hnd).
    unfold pick at 1. simpl. destruct (decide (sec = s)) as [->|]; [|done].
    simpl. constructor; [|done].
    intros Hin. apply Hni. apply list_elem_of_fmap in Hin as ([k' v] & -> & Hin).
    apply list_elem_of_omap in Hin as ([[sec' k''] r'] & Hin & Hp).
    unfold pick in Hp. simpl in Hp.
    destruct (decide (sec' = s)) as [->|]; [|done]. injection Hp as -> <-.
    apply list_elem_of_fmap. by exists ((s, k'), r').
  - apply sort_by_Sorted. intros x y. apply str_leb_total.
Qed.
End ItemsFacts.

Lemma items_agree_with_get_witness :
  exists out,
    @items plain_runtime (Regular (text ["[A]"; "b=1"; "a=2"]%string))
      (py "A") (loaded (text ["[A]"; "b=1"; "a=2"]%string))
    = Returned out (loaded (text ["[A]"; "b=1"; "a=2"]%string))
    /\ (forall k v,
          (k, v) ∈ out
          <-> _norm_key k = k
              /\ get (Regular (text ["[A]"; "b=1"; "a=2"]%string)) (py "A") k
                     (loaded (text ["[A]"; "b=1"; "a=2"]%string))
                 = Returned (Some v)
                            (loaded (text ["[A]"; "b=1"; "a=2"]%string)))
    /\ NoDup out.*1
    /\ Sorted (fun a b => str_leb (@lower plain_runtime a.1)
                                  (@lower plain_runtime b.1) = true) out.
Proof.
  apply (@items_agree_with_get plain_runtime
           (text ["[A]"; "b=1"; "a=2"]%string)).
  apply (reach_load _ __init__). reflexivity.
Defined.

Section AllItems.
Context `{Runtime}.

Lemma sort_insert_insert_by (x : IniValueRef) (l : list IniValueRef) :
  sort_insert x l = insert_by sort_key_leb x l.
Proof. induction l as [|y l IH]; simpl; [done|]. by rewrite IH. Qed.

Lemma sort_refs_sort_by (l : list IniValueRef) :
  sort_refs l = sort_by sort_key_leb l.
Proof.
  unfold sort_refs, sort_by. induction l as [|x l IH]; simpl; [done|].
  by rewrite IH, sort_insert_insert_by.
Qed.

Lemma sort_key_leb_total (a b : IniValueRef) :
  sort_key_leb a b = false -> sort_key_leb b a = true.
Proof.
  unfold sort_key_leb, sort_key.
  destruct (decide (lower (section a) = lower (section b))) as [He|Hne].
  - rewrite He, !bool_decide_true by done. apply str_leb_total.
  - rewrite !bool_decide_false by done. apply str_leb_total.
Qed.

(** X18. [all_items()] returns every Entry of the document exactly once,
    ordered by lowercased section name and, within a section, by lowercased
    key. *)
Theorem all_items_sorted (content : bytes) (d : IniDocument) :
  reachable (Regular content) d ->
  exists out,
    all_items (Regular content) d = Returned out d
    /\ out ≡ₚ Dict.values (refs d)
    /\ Sorted (fun a b => sort_key_leb a b = true) out
    /\ NoDup (control_key <$> out).
Proof.
  intros Hr. destruct (reachable_wf _ _ Hr) as [[Hl Hent] _].
  unfold all_items, _ensure_loaded, read, ret, bind. cbv beta.
  rewrite Hl. cbv beta iota. eexists. split; [reflexivity|].
  rewrite sort_refs_sort_by.
  split; [apply sort_by_perm|]. split.
  - apply sort_by_Sorted. apply sort_key_leb_total.
  - rewrite (sort_by_perm sort_key_leb).
    pose proof (reachable_NoDup content d Hr) as Hnd.
    assert (Hk : control_key <$> Dict.values (refs d) = Dict.keys (refs d)).
    { unfold Dict.values, Dict.keys. clear Hnd.
      induction Hent as [|[t r] rs Hx _ IH]; [done|]. simpl.
      f_equal; [|exact IH]. destruct Hx as [Ht _]. simpl in Ht. by rewrite Ht. }
    by rewrite Hk.
Qed.
End AllItems.

Lemma all_items_sorted_witness :
  exists out,
    @all_items plain_runtime (Regular (text ["[B]"; "k=1"; "[A]"; "k=2"]%string))
      (loaded (text ["[B]"; "k=1"; "[A]"; "k=2"]%string))
    = Returned out (loaded (text ["[B]"; "k=1"; "[A]"; "k=2"]%string))
    /\ out ≡ₚ Dict.values
                (refs (loaded (text ["[B]"; "k=1"; "[A]"; "k=2"]%string)))
    /\ Sorted (fun a b => @sort_key_leb plain_runtime a b = true) out
    /\ NoDup (control_key <$> out).
Proof.
  apply (@all_items_sorted plain_runtime
           (text ["[B]"; "k=1"; "[A]"; "k=2"]%string)).
  apply (reach_load _ __init__). reflexivity.
Defined.

(** ** The file lists *)

Lemma filter_nil_length {A} (P : A -> Prop) `{forall x, Decision (P x)}
    (l : list A) :
  length (filter P l) = 0 -> forall x, x ∈ l -> ~ P x.
Proof.
  intros Hl x Hin Hp.
  assert (Hx : x ∈ filter P l) by (by apply list_elem_of_filter).
  destruct (filter P l); [by apply elem_of_nil in Hx|done].
Qed.

Lemma add_fixed_elem (fixed all_inis : list str) (f : str) :
  f ∈ all_inis ->
  f ∈ HyperSpinTab.add_fixed fixed all_inis <-> f ∈ fixed.
Proof.
  intros Hin. unfold HyperSpinTab.add_fixed. cbv zeta.
  destruct (length (filter (fun f0 => f0 ∈ all_inis) fixed) =? 0) eqn:E.
  - done.
  - rewrite list_elem_of_filter. tauto.
Qed.

(** X21. The three categories of [_refresh_lists] share the INI files of
    the folder among them: a file of the folder is offered under Hyperspin
    when it is one of the two Hyperspin names, under MainMenuChanger when
    it is one of the seven menu names, and in the system list of Sistemas X
    otherwise, so under exactly one category; the system list holds files
    of the folder only. *)
Theorem refresh_lists_partition (all_inis : list str) (f : str) :
  f ∈ all_inis ->
  (f ∈ HyperSpinTab.file_combo
         (HyperSpinTab._refresh_lists (py "Hyperspin") all_inis)
   <-> f ∈ HyperSpinTab.HYPERSPIN_FILES)
  /\ (f ∈ HyperSpinTab.file_combo
            (HyperSpinTab._refresh_lists (py "MainMenuChanger") all_inis)
      <-> f ∈ HyperSpinTab.MAINMENUCHANGER_FILES)
  /\ (f ∈ HyperSpinTab.system_combo
            (HyperSpinTab._refresh_lists (py "Sistemas X") all_inis)
      <-> (f ∉ HyperSpinTab.HYPERSPIN_FILES)
          /\ (f ∉ HyperSpinTab.MAINMENUCHANGER_FILES))
  /\ ~ (f ∈ HyperSpinTab.HYPERSPIN_FILES
        /\ f ∈ HyperSpinTab.MAINMENUCHANGER_FILES)
  /\ (forall g,
        g ∈ HyperSpinTab.system_combo
              (HyperSpinTab._refresh_lists (py "Sistemas X") all_inis) ->
        g ∈ all_inis).
Proof.
  intros Hin.
  split; [by apply add_fixed_elem|]. split; [by apply add_fixed_elem|].
  split; [|split].
  - cbn [HyperSpinTab._refresh_lists HyperSpinTab.system_combo].
    change (f ∈ filter (fun f0 => f0 ∉ (HyperSpinTab.HYPERSPIN_FILES
                                        ++ HyperSpinTab.MAINMENUCHANGER_FILES))
                       all_inis
            <-> (f ∉ HyperSpinTab.HYPERSPIN_FILES)
                /\ (f ∉ HyperSpinTab.MAINMENUCHANGER_FILES)).
    rewrite list_elem_of_filter, elem_of_app. tauto.
  - intros [Hh Hm].
    assert (Hd : forall x, x ∈ HyperSpinTab.HYPERSPIN_FILES ->
                           x ∉ HyperSpinTab.MAINMENUCHANGER_FILES).
    { intros x Hx.
      repeat (apply elem_of_cons in Hx as [->|Hx]);
        [..|by apply elem_of_nil in Hx];
        apply (bool_decide_eq_false_1 _); vm_compute; reflexivity. }
    by apply (Hd f).
  - intros g.
    change (g ∈ filter (fun f0 => f0 ∉ (HyperSpinTab.HYPERSPIN_FILES
                                        ++ HyperSpinTab.MAINMENUCHANGER_FILES))
                       all_inis -> g ∈ all_inis).
    rewrite list_elem_of_filter. tauto.
Qed.

Lemma refresh_lists_partition_witness :
  (py "Global Bezel.ini"
   ∈ HyperSpinTab.file_combo
       (HyperSpinTab._refresh_lists (py "Hyperspin")
          [py "Global Bezel.ini"; py "MAME.ini"])
   <-> py "Global Bezel.ini" ∈ HyperSpinTab.HYPERSPIN_FILES)
  /\ (py "Global Bezel.ini"
      ∈ HyperSpinTab.file_combo
          (HyperSpinTab._refresh_lists (py "MainMenuChanger")
             [py "Global Bezel.ini"; py "MAME.ini"])
      <-> py "Global Bezel.ini" ∈ HyperSpinTab.MAINMENUCHANGER_FILES)
  /\ (py "Global Bezel.ini"
      ∈ HyperSpinTab.system_combo
          (HyperSpinTab._refresh_lists (py "Sistemas X")
             [py "Global Bezel.ini"; py "MAME.ini"])
      <-> (py "Global Bezel.ini" ∉ HyperSpinTab.HYPERSPIN_FILES)
          /\ (py "Global Bezel.ini" ∉ HyperSpinTab.MAINMENUCHANGER_FILES))
  /\ ~ (py "Global Bezel.ini" ∈ HyperSpinTab.HYPERSPIN_FILES
        /\ py "Global Bezel.ini" ∈ HyperSpinTab.MAINMENUCHANGER_FILES)
  /\ (forall g,
        g ∈ HyperSpinTab.system_combo
              (HyperSpinTab._refresh_lists (py "Sistemas X")
                 [py "Global Bezel.ini"; py "MAME.ini"]) ->
        g ∈ [py "Global Bezel.ini"; py "MAME.ini"]).
Proof.
  apply (refresh_lists_partition [py "Global Bezel.ini"; py "MAME.ini"]
           (py "Global Bezel.ini")).
  apply (bool_decide_unpack _). vm_compute. reflexivity.
Defined.

Section ListIniFilesFacts.
Context `{Runtime}.

(** X22. [_list_ini_files] returns the names of the regular files of the
    folder whose lowercased name ends in [.ini], each as often as the folder
    lists it, ordered by lowercased name; it returns nothing when the path
    field is blank or names no directory. *)
Theorem list_ini_files_sorted (folder : str) (dir : option (list (str * bool))) :
  (forall name,
     name ∈ HyperSpinTab._list_ini_files folder dir
     <-> strip folder <> []
         /\ exists entries,
              dir = Some entries /\ (name, true) ∈ entries
              /\ endswith (py ".ini") (lower name) = true)
  /\ Sorted (fun a b => str_leb (lower a) (lower b) = true)
            (HyperSpinTab._list_ini_files folder dir).
Proof.
  unfold HyperSpinTab._list_ini_files. split.
  - intros name. case_bool_decide as Hf.
    { split; [by intros ?%elem_of_nil|]. by intros [? _]. }
    destruct dir as [entries|].
    2:{ split; [by intros ?%elem_of_nil|]. by intros (_ & ? & [=] & _). }
    cbv zeta. rewrite sort_by_perm, list_elem_of_omap. split.
    + intros ([n b] & Hin & Hp). cbn [fst snd] in Hp.
      destruct (endswith (py ".ini") (lower n)) eqn:He; [|done].
      destruct b; [|done]. injection Hp as <-.
      split; [done|]. exists entries. done.
    + intros (_ & entries' & [= <-] & Hin & He).
      exists (name, true). split; [done|]. cbn [fst snd]. by rewrite He.
  - case_bool_decide; [constructor|].
    destruct dir as [entries|]; [|constructor].
    apply sort_by_Sorted. intros x y. apply str_leb_total.
Qed.
End ListIniFilesFacts.

Section ColourRange.
Local Open Scope N_scope.

Lemma hexval_lt (c : N) : ishex c = true -> hexval c < 16.
Proof.
  unfold ishex, hexval.
  rewrite !orb_true_iff, !andb_true_iff, !N.leb_le. intros Hc.
  destruct (N.leb_spec c 57); [lia|]. destruct (N.leb_spec c 70); lia.
Qed.

Lemma hex_pair_lt (hx : str) (i : nat) :
  forallb ishex hx = true -> hex_pair hx i < 256.
Proof.
  intros Hh. unfold hex_pair.
  assert (Hd : forallb ishex (drop i hx) = true).
  { rewrite <- (take_drop i hx), forallb_app in Hh.
    by apply andb_true_iff in Hh as [_ ?]. }
  destruct (drop i hx) as [|a [|b r]]; [lia..|].
  simpl in Hd. apply andb_true_iff in Hd as [Ha Hd].
  apply andb_true_iff in Hd as [Hb _].
  pose proof (hexval_lt a Ha). pose proof (hexval_lt b Hb). lia.
Qed.

(** X5. A colour read by [_parse_hex_color] has its four components
    between 0 and 255, and a text of six digits gives an alpha of 255. *)
Theorem parse_hex_color_in_range (v : str) (c : QColor) :
  _parse_hex_color v = Some c ->
  color_in_range c
  /\ forall pre hx post,
       v = pre ++ py "0x" ++ hx ++ post -> forallb isspace pre = true ->
       forallb ishex hx = true -> length hx = 6%nat ->
       forallb isspace post = true ->
       alpha c = 255.
Proof.
  unfold _parse_hex_color. intros Hc.
  destruct (_HEX_COLOR_RE v) as [m|] eqn:Hm; [|done].
  assert (Hx : exists pre hx post,
             v = pre ++ py "0x" ++ hx ++ post /\ m = [("hex"%string, hx)]
             /\ forallb isspace pre = true /\ forallb ishex hx = true
             /\ (length hx = 6 \/ length hx = 8)%nat
             /\ forallb isspace post = true).
  { unfold _HEX_COLOR_RE in Hm.
    destruct (re_match (hex_color_pattern 6) v) as [m'|] eqn:E6.
    - injection Hm as <-.
      apply hex_color_match in E6 as (pre & hx & post & ? & ? & ? & ? & ? & ?).
      exists pre, hx, post. eauto 10.
    - apply hex_color_match in Hm as (pre & hx & post & ? & ? & ? & ? & ? & ?).
      exists pre, hx, post. eauto 10. }
  destruct Hx as (pre & hx & post & Hv & -> & Hp & Hh & Hl & Hs).
  cbv zeta in Hc. cbn [group String.eqb Ascii.eqb Bool.eqb] in Hc.
  split.
  - destruct (length hx =? 6)%nat; injection Hc as <-;
      repeat split; cbn [red green blue alpha];
      (lia || by apply hex_pair_lt).
  - intros pre' hx' post' Hv' Hp' Hh' Hl' Hs'.
    pose proof (hex_color_re_exact pre' hx' post' Hp' Hh' (or_introl Hl') Hs')
      as He.
    rewrite <- Hv', Hm in He. injection He as ->.
    rewrite Hl' in Hc. simpl in Hc. by injection Hc as <-.
Qed.

Lemma parse_hex_color_in_range_witness :
  color_in_range {| red := 255; green := 128; blue := 0; alpha := 255 |}
  /\ forall pre hx post,
       py " 0xff8000 " = pre ++ py "0x" ++ hx ++ post ->
       forallb isspace pre = true -> forallb ishex hx = true ->
       length hx = 6%nat -> forallb isspace post = true ->
       alpha {| red := 255; green := 128; blue := 0; alpha := 255 |} = 255.
Proof.
  apply (parse_hex_color_in_range (py " 0xff8000 ")). reflexivity.
Defined.
End ColourRange.

(** ** The form, and the file going away *)

Section FormControls.
Context `{Runtime}.

(** X19. The form [set_document] builds for a document just loaded holds,
    for every pair with a key that is not empty, the control the classifier
    chooses for the value of its Entry, and no control when the pair has no
    Entry; no pair has two controls. *)
Theorem form_has_control_per_key (content : bytes)
    (cs : list ((str * str) * QWidget)) :
  set_document (Regular content) (loaded content)
  = Returned (Some cs) (loaded content) ->
  NoDup (Dict.keys cs)
  /\ forall s k,
       k <> [] ->
       Dict.get (s, k) cs
       = match Dict.get (s, k) (refs (loaded content)) with
         | Some r => control_for (value r)
         | None => None
         end.
Proof.
  pose proof (loaded_wf content) as Hwf.
  destruct (loaded_entries content) as [Hent Hnd].
  set (d0 := loaded content) in *.
  rewrite set_document_wf by done. intros [= Hcs].
  set (items := sort_refs (Dict.values (refs d0))) in *.
  assert (Hperm : items ≡ₚ Dict.values (refs d0)) by apply sort_refs_perm.
  assert (Hkeys : Forall (fun tr => tr.1 = control_key tr.2) (refs d0)).
  { eapply Forall_impl; [exact Hent|]. intros [t r] Hl.
    by destruct Hl as (? & ? & _ & _ & _ & _ & _ & _ & _ & _ & ->). }
  assert (Hndi : NoDup (control_key <$> items)).
  { rewrite Hperm, control_keys_of_values by done. done. }
  split.
  { apply (add_controls_NoDup items [] cs Hcs). constructor. }
  intros s k Hk.
  destruct (Dict.get (s, k) (refs d0)) as [r|] eqn:Hg.
  - assert (Hin : r ∈ items).
    { rewrite Hperm. unfold Dict.values.
      apply list_elem_of_fmap. exists ((s, k), r). split; [done|].
      by apply dict_get_elem. }
    assert (Hck : control_key r = (s, k)).
    { rewrite Forall_forall in Hkeys.
      pose proof (Hkeys _ (dict_get_elem _ _ _ Hg)) as Ht. by simpl in Ht. }
    assert (Hkr : key r <> []).
    { unfold control_key in Hck. injection Hck as _ ->. done. }
    destruct (add_controls_get_item items [] cs r Hcs Hndi Hin Hkr)
      as (w & Hw & Hgw).
    by rewrite <- Hck, Hgw, Hw.
  - rewrite (add_controls_get_other items [] cs s k Hcs Hk); [done|].
    apply Forall_forall. intros r Hr Hck.
    rewrite Hperm in Hr. unfold Dict.values in Hr.
    apply list_elem_of_fmap in Hr as ([t r'] & -> & Hr). simpl in Hck.
    rewrite Forall_forall in Hkeys. pose proof (Hkeys _ Hr) as Ht.
    simpl in Ht. subst t. rewrite Hck in Hr.
    apply dict_elem_get in Hr; [|done]. congruence.
Qed.
End FormControls.

Lemma form_has_control_per_key_witness :
  NoDup (Dict.keys
           [((py "A", []), @QLabel plain_runtime);
            ((py "A", py "name"), @QLineEdit plain_runtime (py "hello"))])
  /\ forall s k,
       k <> [] ->
       Dict.get (s, k)
         [((py "A", []), @QLabel plain_runtime);
          ((py "A", py "name"), @QLineEdit plain_runtime (py "hello"))]
       = match Dict.get (s, k)
                 (refs (loaded (text ["[A]"; "name=hello"]%string))) with
         | Some r => @control_for plain_runtime (value r)
         | None => None
         end.
Proof.
  apply (@form_has_control_per_key plain_runtime
           (text ["[A]"; "name=hello"]%string)).
  reflexivity.
Defined.

(** [set] on a pair that has no Entry, when the path names no regular file:
    the line is inserted and the Entry recorded, then [_reindex_refs_from]
    marks the document as not loaded and [load] raises. *)
Lemma set_new_no_file (fs : inode) (section key v : str) (d : IniDocument) :
  wf d -> (forall c, fs <> Regular c) ->
  Dict.get (_norm_section section, _norm_key key) (refs d) = None ->
  exists d',
    set fs section key v d = Raised FileNotFoundError d'
    /\ _loaded d' = false
    /\ length (lines d') = S (length (lines d))
    /\ Dict.get (_norm_section section, _norm_key key) (refs d') <> None.
Proof.
  intros [Hl Ha] Hfs Hg.
  unfold set, _ensure_loaded, read, ret, modify, bind. cbv beta.
  rewrite Hl. cbv beta iota. rewrite Hg.
  unfold _find_section_line_index, read, ret, bind. cbv beta.
  set (ins := match find_section_from _ 0 (lines d) with
              | Some i => _find_section_end_index (i + 1)
              | None => fun d1 => Returned (length (lines d)) d1
              end d).
  assert (Hins : exists n, ins = Returned n d /\ n <= length (lines d)).
  { unfold ins. destruct (find_section_from _ _ _).
    - apply find_section_end_le.
    - eexists. split; [reflexivity|lia]. }
  destruct Hins as (n & -> & Hn).
  unfold _reindex_refs_from, read, ret, modify, raise, bind. cbv beta.
  cbn [refs lines set_refs set_lines].
  rewrite forallb_values.
  { destruct fs as [| |c]; [| |by destruct (Hfs c)];
      (eexists; split; [reflexivity|]; split; [done|];
       cbn [set_loaded set_refs set_lines lines refs];
       split; [apply length_list_insert_at|];
       by rewrite dict_get_put_eq). }
  apply dict_put_Forall.
  - eapply Forall_impl; [exact Ha|]. intros [t r] (_ & _ & _ & Hlt). simpl.
    rewrite length_list_insert_at. apply orb_true_iff. right.
    apply Nat.ltb_lt. simpl in Hlt. lia.
  - simpl. rewrite length_list_insert_at. apply orb_true_iff. right.
    apply Nat.ltb_lt. lia.
Qed.

(** A document that is not loaded raises in every method while the path
    names no regular file. *)
Lemma not_loaded_raises (fs : inode) (d : IniDocument) :
  _loaded d = false -> (forall c, fs <> Regular c) ->
  (forall s k, get fs s k d = Raised FileNotFoundError d)
  /\ (forall s k w, set fs s k w d = Raised FileNotFoundError d)
  /\ (forall linesep, save linesep fs d = Raised FileNotFoundError d)
  /\ sections fs d = Raised FileNotFoundError d.
Proof.
  intros Hl Hfs.
  unfold get, set, save, sections, _ensure_loaded, read, ret, bind.
  cbv beta. rewrite Hl.
  destruct fs as [| |c]; [| |by destruct (Hfs c)]; done.
Qed.

(** X20. When the file goes away while a document is being edited, reading
    and setting the keys that have an Entry go on as before, since a loaded
    document does not read its file. [set] on a pair that has no Entry
    reads it, and raises the file-not-found error after it has inserted the
    line, recorded the Entry and marked the document as not loaded: from
    then on every method raises that error while the file is away, and the
    first call after the file is back loads it, dropping the line and the
    Entry. *)
Theorem file_missing_while_editing (content : bytes) (d : IniDocument)
    (fs : inode) (section key v linesep : str) :
  reachable (Regular content) d ->
  (forall c, fs <> Regular c) ->
  get fs section key d = get (Regular content) section key d
  /\ sections fs d = Returned (section_order d) d
  /\ (is_Some (Dict.get (_norm_section section, _norm_key key) (refs d)) ->
      set fs section key v d = set (Regular content) section key v d)
  /\ (Dict.get (_norm_section section, _norm_key key) (refs d) = None ->
      exists d',
        set fs section key v d = Raised FileNotFoundError d'
        /\ _loaded d' = false
        /\ length (lines d') = S (length (lines d))
        /\ Dict.get (_norm_section section, _norm_key key) (refs d') <> None
        /\ (forall s k, get fs s k d' = Raised FileNotFoundError d')
        /\ (forall s k w, set fs s k w d' = Raised FileNotFoundError d')
        /\ save linesep fs d' = Raised FileNotFoundError d'
        /\ sections fs d' = Raised FileNotFoundError d'
        /\ (forall c s k,
              get (Regular c) s k d'
              = Returned (value <$> Dict.get (_norm_section s, _norm_key k)
                                             (refs (loaded c)))
                         (loaded c))).
Proof.
  intros Hr Hfs. destruct (reachable_wf _ _ Hr) as [Hwf _].
  split; [by rewrite !get_wf|].
  split.
  { destruct Hwf as [Hl _].
    unfold sections, _ensure_loaded, read, ret, bind. cbv beta.
    by rewrite Hl. }
  split.
  { intros [r Hg].
    destruct (set_existing fs section key v d r Hwf Hg) as (old & Hold & ->).
    destruct (set_existing (Regular content) section key v d r Hwf Hg)
      as (old' & Hold' & ->).
    rewrite Hold in Hold'. by injection Hold' as <-. }
  intros Hg.
  destruct (set_new_no_file fs section key v d Hwf Hfs Hg)
    as (d' & Hset & Hl' & Hlen & Hin).
  destruct (not_loaded_raises fs d' Hl' Hfs) as (H1 & H2 & H3 & H4).
  exists d'. do 7 (split; [done|]). split; [done|].
  intros c s k. unfold get, _ensure_loaded, read, ret, bind. cbv beta.
  by rewrite Hl'.
Qed.

Lemma file_missing_while_editing_witness :
  get Missing (py "A") (py "foo") (loaded (text ["[A]"; "foo=1"]%string))
  = Returned (Some (py "1")) (loaded (text ["[A]"; "foo=1"]%string))
  /\ exists d',
       set Missing (py "A") (py "baz") (py "x")
           (loaded (text ["[A]"; "foo=1"]%string))
       = Raised FileNotFoundError d'
       /\ _loaded d' = false
       /\ length (lines d') = 3
       /\ get Missing (py "A") (py "foo") d' = Raised FileNotFoundError d'
       /\ save posix_linesep Missing d' = Raised FileNotFoundError d'
       /\ get (Regular (text ["[A]"; "foo=1"]%string)) (py "A") (py "baz") d'
          = Returned None (loaded (text ["[A]"; "foo=1"]%string)).
Proof.
  destruct (file_missing_while_editing (text ["[A]"; "foo=1"]%string)
              (loaded (text ["[A]"; "foo=1"]%string)) Missing
              (py "A") (py "baz") (py "x") posix_linesep)
    as (_ & _ & _ & Hnew).
  - apply (reach_load _ __init__). reflexivity.
  - intros c. discriminate.
  - split; [reflexivity|].
    destruct (Hnew eq_refl)
      as (d' & Hset & Hl & Hlen & _ & Hget & _ & Hsave & _ & Hback).
    exists d'. split; [done|]. split; [done|]. split; [done|].
    split; [apply Hget|]. split; [done|]. apply Hback.
Defined.

(** ** The document after saving *)

Section DecodedText.
Local Open Scope N_scope.

Local Ltac to_props :=
  rewrite ?orb_true_iff, ?andb_true_iff, ?orb_true_iff, ?andb_true_iff,
    ?N.leb_le, ?N.ltb_lt, ?N.eqb_eq in *.

(** The decoder gives characters that can be encoded. *)
Lemma utf8_scan_encodable (s : bytes) :
  Forall (fun o => match o with
                   | Some c => encodable c = true
                   | None => True
                   end) (utf8_scan s).
Proof.
  induction s as [s IH] using (induction_ltof1 _ (@length N)).
  unfold ltof in IH.
  destruct s as [|b1 t1]; [constructor|]. cbn [utf8_scan].
  destruct (b1 <? 0x80) eqn:E1.
  { constructor; [|apply IH; simpl; lia].
    unfold encodable. to_props. lia. }
  destruct ((0xC2 <=? b1) && (b1 <=? 0xDF)) eqn:E2.
  { destruct t1 as [|b2 t2]; [by repeat constructor|].
    destruct (is_cont b2) eqn:C2.
    - constructor; [|apply IH; simpl; lia].
      unfold encodable, cp2, is_cont in *. to_props. lia.
    - constructor; [done|apply IH; simpl; lia]. }
  destruct ((0xE0 <=? b1) && (b1 <=? 0xEF)) eqn:E3.
  { destruct t1 as [|b2 t2]; [by repeat constructor|].
    destruct (second3 b1 b2) eqn:S2.
    2:{ constructor; [done|apply IH; simpl; lia]. }
    destruct t2 as [|b3 t3]; [by repeat constructor|].
    destruct (is_cont b3) eqn:C3.
    2:{ constructor; [done|apply IH; simpl; lia]. }
    constructor; [|apply IH; simpl; lia].
    unfold encodable, cp3, second3, is_cont in *.
    destruct (N.eqb_spec b1 0xE0); [to_props; lia|].
    destruct (N.eqb_spec b1 0xED); to_props; lia. }
  destruct ((0xF0 <=? b1) && (b1 <=? 0xF4)) eqn:E4.
  2:{ constructor; [done|apply IH; simpl; lia]. }
  destruct t1 as [|b2 t2]; [by repeat constructor|].
  destruct (second4 b1 b2) eqn:S2.
  2:{ constructor; [done|apply IH; simpl; lia]. }
  destruct t2 as [|b3 t3]; [by repeat constructor|].
  destruct (is_cont b3) eqn:C3.
  2:{ constructor; [done|apply IH; simpl; lia]. }
  destruct t3 as [|b4 t4]; [by repeat constructor|].
  destruct (is_cont b4) eqn:C4.
  2:{ constructor; [done|apply IH; simpl; lia]. }
  constructor; [|apply IH; simpl; lia].
  unfold encodable, cp4, second4, is_cont in *.
  destruct (N.eqb_spec b1 0xF0); [to_props; lia|].
  destruct (N.eqb_spec b1 0xF4); to_props; lia.
Qed.

Lemma translate_newlines_keeps (p : N -> bool) (s : str) :
  p LF = true -> forallb p s = true -> forallb p (translate_newlines s) = true.
Proof.
  intros Hlf.
  induction s as [s IH] using (induction_ltof1 _ (@length N)).
  unfold ltof in IH.
  destruct s as [|c s]; [done|]. cbn [translate_newlines forallb].
  rewrite andb_true_iff. intros [Hc Hs].
  destruct (c =? CR).
  - cbn [forallb]. rewrite Hlf. destruct s as [|d s]; [done|].
    destruct (d =? LF).
    + apply IH; [simpl; lia|]. simpl in Hs.
      by apply andb_true_iff in Hs as [_ ?].
    + apply IH; [simpl; lia|done].
  - cbn [forallb]. rewrite Hc. apply IH; [simpl; lia|done].
Qed.

Lemma translate_newlines_no_cr_out (s : str) :
  no_cr (translate_newlines s) = true.
Proof.
  unfold no_cr.
  induction s as [s IH] using (induction_ltof1 _ (@length N)).
  unfold ltof in IH.
  destruct s as [|c s]; [done|]. cbn [translate_newlines].
  destruct (N.eqb_spec c CR) as [->|Hc].
  - cbn [forallb]. destruct s as [|d s]; [done|].
    destruct (d =? LF); cbn [negb andb]; apply IH; simpl; lia.
  - cbn [forallb]. apply N.eqb_neq in Hc. rewrite Hc. cbn [negb andb].
    apply IH. simpl. lia.
Qed.

(** The text read from a file holds no carriage return and can be
    encoded. *)
Lemma read_text_clean (content : bytes) :
  no_cr (read_text content) = true
  /\ forallb encodable (read_text content) = true.
Proof.
  unfold read_text. split; [apply translate_newlines_no_cr_out|].
  apply translate_newlines_keeps; [done|].
  unfold utf8_decode. pose proof (utf8_scan_encodable content) as Hs.
  induction Hs as [|o l Ho _ IH]; [done|]. cbn [map forallb].
  rewrite IH, andb_true_r. by destruct o.
Qed.
End DecodedText.

(** X23. Saving a document just loaded and loading the saved file gives the
    same document again, whatever the bytes of the file were and with
    [os.linesep] LF or CRLF; so a second round of loading and saving writes
    the same bytes as the first. *)
Theorem load_save_stable (content : bytes) (linesep : str) :
  linesep = posix_linesep \/ linesep = windows_linesep ->
  exists saved,
    save linesep (Regular content) (loaded content)
    = Returned (Regular saved) (loaded content)
    /\ loaded saved = loaded content
    /\ saved_bytes linesep content = Some saved
    /\ saved_bytes linesep saved = Some saved.
Proof.
  intros Hsep. pose proof (loaded_wf content) as Hwf.
  destruct (read_text_clean content) as [Hcr Henc].
  rewrite (save_wf linesep content _ Hwf).
  assert (Hc : concat (lines (loaded content)) = read_text content).
  { apply splitlines_concat. }
  assert (Hread : read_text (write_text linesep (read_text content))
                  = read_text content).
  { by apply read_write_text. }
  eexists. split; [reflexivity|]. rewrite Hc.
  split; [by unfold loaded; rewrite Hread|].
  split; [apply saved_bytes_eq|].
  by rewrite saved_bytes_eq, Hread.
Qed.

Lemma load_save_stable_witness :
  exists saved,
    save posix_linesep (Regular [255; 13; 10]%N) (loaded [255; 13; 10]%N)
    = Returned (Regular saved) (loaded [255; 13; 10]%N)
    /\ loaded saved = loaded [255; 13; 10]%N
    /\ saved_bytes posix_linesep [255; 13; 10]%N = Some saved
    /\ saved_bytes posix_linesep saved = Some saved.
Proof.
  apply (load_save_stable [255; 13; 10]%N posix_linesep). by left.
Defined.

(** ** A value set and saved *)

Lemma splitlines_from_plain (cur body rest : str) :
  forallb plain body = true ->
  splitlines_from cur (body ++ rest) = splitlines_from (rev body ++ cur) rest.
Proof.
  revert cur. induction body as [|c body IH]; intros cur; [done|].
  cbn [forallb]. rewrite andb_true_iff. intros [Hc Hb].
  cbn [app splitlines_from]. unfold plain in Hc.
  apply negb_true_iff in Hc. rewrite Hc. cbn [andb].
  rewrite IH by done. simpl. by rewrite <- app_assoc.
Qed.

Lemma splitlines_from_break (cur : str) (c : N) (rest : str) :
  islinebreak c = true -> c <> CR ->
  splitlines_from cur (c :: rest) = rev (c :: cur) :: splitlines_from [] rest.
Proof.
  intros Hc Hcr. cbn [splitlines_from]. rewrite Hc.
  apply N.eqb_neq in Hcr. rewrite Hcr. by destruct rest.
Qed.

Lemma splitlines_terminated (l rest : str) :
  terminated l ->
  splitlines_from [] (l ++ rest) = l :: splitlines_from [] rest.
Proof.
  intros (body & c & -> & Hb & Hc & Hcr).
  rewrite <- app_assoc, splitlines_from_plain by done.
  cbn [app]. rewrite splitlines_from_break by done.
  simpl. by rewrite app_nil_r, rev_involutive.
Qed.

Lemma splitlines_unterminated (l : str) :
  unterminated l -> splitlines_from [] l = [l].
Proof.
  intros [Hne Hp]. rewrite <- (app_nil_r l) at 1.
  rewrite splitlines_from_plain by done. rewrite app_nil_r. simpl.
  destruct (rev l) eqn:E.
  - apply (f_equal (@rev N)) in E. rewrite rev_involutive in E. done.
  - by rewrite <- E, rev_involutive.
Qed.

(** Lines that are well split are the lines of their text. *)
Lemma splitlines_well_split (ls : list str) :
  well_split ls -> splitlines (concat ls) = ls.
Proof.
  unfold splitlines. induction 1 as [|l Hl|l ls Hl Hw IH]; simpl.
  - done.
  - rewrite app_nil_r. by apply splitlines_unterminated.
  - rewrite splitlines_terminated by done. by rewrite IH.
Qed.

Lemma well_split_splitlines_from (cur s : str) :
  forallb plain cur = true -> no_cr s = true ->
  well_split (splitlines_from cur s).
Proof.
  unfold no_cr. revert cur. induction s as [|c s IH]; intros cur Hcur Hs.
  - simpl. destruct cur as [|x cur]; [constructor|].
    apply ws_last. split.
    + intros E. apply (f_equal (@length N)) in E.
      rewrite length_rev in E. done.
    + rewrite forallb_forall in Hcur |- *. intros y Hy.
      apply Hcur. by apply in_rev.
  - cbn [forallb] in Hs. apply andb_true_iff in Hs as [Hc Hs].
    apply negb_true_iff in Hc. cbn [splitlines_from]. rewrite Hc.
    assert (Hcrlf : match s with d :: _ => false && (d =? LF)%N | [] => false end
                    = false) by (by destruct s).
    rewrite Hcrlf, andb_true_r.
    destruct (islinebreak c) eqn:Eb.
    + apply ws_cons; [|by apply IH].
      exists (rev cur), c. split; [done|]. split.
      * rewrite forallb_forall in Hcur |- *. intros y Hy.
        apply Hcur. by apply in_rev.
      * split; [done|]. by apply N.eqb_neq.
    + apply IH; [|done]. cbn [forallb]. unfold plain at 1. by rewrite Eb.
Qed.

(** The lines of a loaded document are well split. *)
Lemma loaded_well_split (content : bytes) :
  well_split (lines (loaded content)).
Proof.
  apply well_split_splitlines_from; [done|apply read_text_clean].
Qed.

Lemma well_split_app_inv (a y : list str) :
  well_split (a ++ y) -> y <> [] -> Forall terminated a /\ well_split y.
Proof.
  intros Hw Hy. induction a as [|l a IH]; [by split|].
  simpl in Hw. inversion Hw as [|l' Hl Heq|l' ls Hl Hw' Heq]; subst.
  - destruct a; [|done]. simpl in *. congruence.
  - destruct (IH Hw') as [Ha Hy']. split; [by constructor|done].
Qed.

Lemma well_split_cons_inv (l : str) (rest : list str) :
  well_split (l :: rest) ->
  (rest = [] /\ unterminated l) \/ (terminated l /\ well_split rest).
Proof. inversion 1; subst; [left|right]; done. Qed.

Lemma well_split_app (a y : list str) :
  Forall terminated a -> well_split y -> well_split (a ++ y).
Proof.
  induction 1 as [|l a Hl Ha IH]; [done|]. intros Hy. simpl.
  apply ws_cons; [done|by apply IH].
Qed.

Lemma forallb_concat_elem (p : N -> bool) (ls : list str) (l : str) :
  forallb p (concat ls) = true -> l ∈ ls -> forallb p l = true.
Proof.
  induction ls as [|x ls IH]; simpl; [by intros _ ?%elem_of_nil|].
  rewrite forallb_app, andb_true_iff. intros [Hx Hls].
  intros [->|Hin]%elem_of_cons; [done|by apply IH].
Qed.

Lemma forallb_concat_insert (p : N -> bool) (ls : list str) (i : nat)
    (new : str) :
  forallb p (concat ls) = true -> forallb p new = true ->
  forallb p (concat (<[i := new]> ls)) = true.
Proof.
  revert i. induction ls as [|x ls IH]; intros i; [done|]. simpl.
  rewrite forallb_app, andb_true_iff. intros [Hx Hls] Hn.
  destruct i as [|i]; simpl; rewrite forallb_app.
  - by rewrite Hn, Hls.
  - by rewrite Hx, IH.
Qed.

(** What comes before the last character of a line. *)
Lemma terminated_prefix (l pre post : str) :
  terminated l -> l = pre ++ post -> post <> [] -> forallb plain pre = true.
Proof.
  intros (body & c & -> & Hb & _) He Hp.
  destruct (exists_last Hp) as (post' & z & ->).
  rewrite app_assoc in He. apply app_inj_tail in He as [-> _].
  rewrite forallb_app in Hb. by apply andb_true_iff in Hb as [? _].
Qed.

Lemma defines_skip (a m m' b : list str) (n : nat) (s k v : str) :
  Forall (fun x => header_name x = None) m ->
  Forall (fun x => header_name x = None) m' ->
  defines (a ++ m ++ b) (length a + length m + n) s k v ->
  defines (a ++ m' ++ b) (length a + length m' + n) s k v.
Proof.
  intros Hm Hm' (raw & km & Hl & Hs & Hk & Hkey & Hv & Hsec).
  assert (Hnone : forall x, Forall (fun y => header_name y = None) x ->
                            omap header_name x = []).
  { induction 1 as [|y x Hy _ IH]; [done|]. simpl. by rewrite Hy. }
  assert (Hsa : forall x, Forall (fun y => header_name y = None) x ->
            section_at (a ++ x ++ b) (length a + length x + n)
            = default [] (last (omap header_name a
                                ++ omap header_name (take n b)))).
  { intros x Hx. unfold section_at.
    rewrite <- Nat.add_assoc, take_app_add, take_app_add.
    by rewrite !omap_app, (Hnone x Hx). }
  assert (Hlk : forall x, (a ++ x ++ b) !! (length a + length x + n) = b !! n).
  { intros x. rewrite <- Nat.add_assoc, lookup_app_r by lia.
    rewrite lookup_app_r by lia. f_equal. lia. }
  exists raw, km. rewrite Hlk in Hl |- *. split; [done|].
  do 4 (split; [done|]).
  rewrite Hsa by done. by rewrite Hsa in Hsec.
Qed.

Lemma plain_not_lf (l : str) :
  forallb plain l = true -> endswith_lf l = false.
Proof.
  intros Hp. unfold endswith_lf. destruct (last l) as [z|] eqn:E; [|done].
  apply last_Some in E as [l' ->]. rewrite forallb_app in Hp.
  apply andb_true_iff in Hp as [_ Hz]. simpl in Hz.
  apply andb_true_iff in Hz as [Hz _].
  destruct (N.eqb_spec z LF) as [->|]; done.
Qed.

Lemma forallb_strip (p : N -> bool) (s : str) :
  forallb p s = true -> forallb p (strip s) = true.
Proof.
  intros Hs. unfold strip, rstrip, lstrip.
  by apply forallb_rstrip_by, forallb_lstrip_by.
Qed.

(** How the line [set] writes splits into lines when it is read again:
    into itself, or into a line and an empty line when it ends in two line
    feeds. *)
Lemma rewritten_line_split (content : bytes) (t : str * str) (r : IniValueRef)
    (old v : str) (rest : list str) :
  lf_only (read_text content) = true ->
  Dict.get t (refs (loaded content)) = Some r ->
  lines (loaded content) !! line_index r = Some old ->
  well_split (old :: rest) ->
  forallb plain v = true ->
  exists tail m,
    forallb isspace tail = true
    /\ (m = [prefix r ++ Ref.key r ++ [EQUALS] ++ v ++ tail]
        \/ m = [prefix r ++ Ref.key r ++ [EQUALS] ++ v ++ tail; [LF]])
    /\ concat m = rewrite_line r v old
    /\ well_split (m ++ rest).
Proof.
  intros Hlf Hg Hold Hws Hv.
  destruct (loaded_entry_parts content t r Hg)
    as (old' & k0 & w1 & w2 & val & Hl & _ & Hshape & Hkey & _ & Hp & Hkc
        & Hw1 & Hw2 & Hd & Hs & Hempty & Hlastval & _).
  rewrite Hold in Hl. injection Hl as <-.
  assert (Hlfo : lf_only old = true).
  { unfold lf_only in *.
    apply (forallb_concat_elem _ (lines (loaded content))).
    - unfold loaded. cbn [lines]. by rewrite splitlines_concat.
    - by eapply list_elem_of_lookup_2. }
  assert (Heq_plain : plain EQUALS = true) by done.
  apply well_split_cons_inv in Hws as [[-> Hun]|[Hterm HwB]].
  - (* the last line, without terminator *)
    destruct Hun as [_ Hun]. pose proof Hun as Hun'.
    rewrite Hshape, !forallb_app in Hun'.
    apply andb_true_iff in Hun' as [Hpp Hun'].
    apply andb_true_iff in Hun' as [Hpk Hun'].
    do 4 (apply andb_true_iff in Hun' as [_ Hun']).
    exists (suffix r), [prefix r ++ Ref.key r ++ [EQUALS] ++ v ++ suffix r].
    split; [done|]. split; [by left|].
    unfold rewrite_line. rewrite (plain_not_lf old Hun).
    split; [cbn [concat]; by rewrite ?app_nil_r, <- ?app_assoc|].
    apply ws_last. split; [by destruct (prefix r), (Ref.key r)|].
    rewrite !forallb_app, Hpp, Hv, Hun', Hkey. cbn.
    rewrite forallb_strip by done. done.
  - (* a line with its terminator *)
    pose proof Hterm as (body & c & Hob & Hb & Hc & Hcr).
    assert (c = LF) as ->.
    { unfold lf_only in Hlfo. rewrite Hob, forallb_app in Hlfo.
      apply andb_true_iff in Hlfo as [_ Hz]. simpl in Hz.
      apply andb_true_iff in Hz as [Hz _]. unfold plain in Hz.
      rewrite Hc in Hz. simpl in Hz. by apply N.eqb_eq in Hz. }
    assert (Hlf' : endswith_lf old = true).
    { unfold endswith_lf. by rewrite Hob, last_snoc. }
    assert (Hpk : forallb plain (prefix r ++ k0) = true).
    { apply (terminated_prefix old _ (w1 ++ [EQUALS] ++ w2 ++ val ++ suffix r));
        [done|by rewrite <- !app_assoc|by destruct w1]. }
    rewrite forallb_app in Hpk. apply andb_true_iff in Hpk as [Hpp Hpk].
    assert (Hk : forallb plain (Ref.key r) = true).
    { rewrite Hkey. by apply forallb_strip. }
    unfold rewrite_line. rewrite Hlf'.
    destruct val as [|z0 val0] eqn:Eval.
    + rewrite Hempty by done.
      exists [LF], [prefix r ++ Ref.key r ++ [EQUALS] ++ v ++ [LF]].
      split; [done|]. split; [by left|]. split; [cbn [concat]; by rewrite ?app_nil_r, <- ?app_assoc|].
      apply ws_cons; [|done].
      exists (prefix r ++ Ref.key r ++ [EQUALS] ++ v), LF.
      split; [by rewrite <- !app_assoc|]. split; [|done].
      by rewrite !forallb_app, Hpp, Hk, Hv.
    + rewrite <- Eval in *.
      destruct (last val) as [z|] eqn:Ez.
      2:{ apply last_None in Ez. congruence. }
      destruct (suffix r) as [|x suf0] eqn:Esuf.
      { exfalso. rewrite app_nil_r in Hshape.
        assert (Hlo : last old = Some z).
        { rewrite Hshape, !app_assoc, last_app. by rewrite Ez. }
        rewrite Hob, last_snoc in Hlo. injection Hlo as <-. done. }
      rewrite <- Esuf in *.
      assert (Hsne : suffix r <> []) by (by rewrite Esuf).
      destruct (exists_last Hsne) as (suf' & c' & Hsuf').
      rewrite Hsuf' in Hshape.
      rewrite Hob in Hshape.
      replace (prefix r ++ k0 ++ w1 ++ [EQUALS] ++ w2 ++ val ++ suf' ++ [c'])
        with ((prefix r ++ k0 ++ w1 ++ [EQUALS] ++ w2 ++ val ++ suf') ++ [c'])
        in Hshape by (by rewrite <- !app_assoc).
      apply app_inj_tail in Hshape as [Hbody <-].
      assert (Hsp : forallb plain suf' = true).
      { rewrite Hbody, !forallb_app in Hb.
        do 6 (apply andb_true_iff in Hb as [_ Hb]). done. }
      exists (suf' ++ [LF]),
        [prefix r ++ Ref.key r ++ [EQUALS] ++ v ++ suf' ++ [LF]; [LF]].
      split; [by rewrite <- Hsuf'|]. split; [by right|].
      split; [rewrite Hsuf'; cbn [concat]; by rewrite ?app_nil_r, <- ?app_assoc|].
      apply ws_cons; [|apply ws_cons; [|done]].
      * exists (prefix r ++ Ref.key r ++ [EQUALS] ++ v ++ suf'), LF.
        split; [by rewrite <- !app_assoc|]. split; [|done].
        by rewrite !forallb_app, Hpp, Hk, Hv, Hsp.
      * by exists [], LF.
Qed.

Lemma get_unloaded (content : bytes) (section key : str) :
  get (Regular content) section key __init__
  = get (Regular content) section key (loaded content).
Proof. reflexivity. Qed.

Lemma rewrite_line_chars (q : N -> bool) (content : bytes) (t : str * str)
    (r : IniValueRef) (old v : str) :
  q EQUALS = true -> q LF = true ->
  Dict.get t (refs (loaded content)) = Some r ->
  lines (loaded content) !! line_index r = Some old ->
  forallb q (read_text content) = true -> forallb q v = true ->
  forallb q (rewrite_line r v old) = true.
Proof.
  intros Hqe Hql Hg Hold Hq Hv.
  destruct (loaded_entry_parts content t r Hg)
    as (old' & k0 & w1 & w2 & val & Hl & _ & Hshape & Hkey & _).
  rewrite Hold in Hl. injection Hl as <-.
  assert (Hqo : forallb q old = true).
  { apply (forallb_concat_elem _ (lines (loaded content))).
    - unfold loaded. cbn [lines]. by rewrite splitlines_concat.
    - by eapply list_elem_of_lookup_2. }
  pose proof Hqo as Hqo'. rewrite Hshape, !forallb_app in Hqo'.
  apply andb_true_iff in Hqo' as [Hqp Hqo'].
  apply andb_true_iff in Hqo' as [Hqk Hqo'].
  do 4 (apply andb_true_iff in Hqo' as [_ Hqo']).
  unfold rewrite_line. rewrite !forallb_app, Hqp, Hv, Hqo', Hkey.
  rewrite forallb_strip by done. cbn [forallb]. rewrite Hqe.
  by destruct (endswith_lf old); cbn [forallb]; rewrite ?Hql.
Qed.

(** The lines of the file after [set] on an existing key and [save], next
    to the lines before: the line of the key is replaced by the new line,
    followed by an empty line when the new line ends in two line feeds. *)
Lemma set_save_lines (content : bytes) (section key v v0 linesep : str) :
  linesep = posix_linesep \/ linesep = windows_linesep ->
  lf_only (read_text content) = true ->
  get (Regular content) section key (loaded content)
  = Returned (Some v0) (loaded content) ->
  _norm_key key <> [] -> strip v = v -> forallb plain v = true ->
  last v <> Some RBRACK -> forallb encodable v = true ->
  exists r old a b m new1 km d1 saved,
    Dict.get (_norm_section section, _norm_key key) (refs (loaded content))
    = Some r
    /\ _norm_section section = Ref.section r /\ _norm_key key = Ref.key r
    /\ set (Regular content) section key v (loaded content) = Returned tt d1
    /\ save linesep (Regular content) d1 = Returned (Regular saved) d1
    /\ lines (loaded content) = a ++ [old] ++ b
    /\ length a = line_index r
    /\ lines (loaded saved) = a ++ m ++ b
    /\ (m = [new1] \/ m = [new1; [LF]])
    /\ header_name old = None /\ header_name new1 = None
    /\ _SECTION_RE new1 = None /\ _KEYVAL_RE new1 = Some km
    /\ _norm_key (group "key" km) = Ref.key r
    /\ rstrip_by is_crlf (group "val" km) = v
    /\ Ref.section r
       = section_at (lines (loaded content)) (line_index r)
    /\ exists km0, _KEYVAL_RE old = Some km0
                   /\ _norm_key (group "key" km0) = Ref.key r.
Proof.
  intros Hsep Hlf Hget Hne Hsv Hpl Hbr Henc.
  pose proof (loaded_wf content) as Hwf.
  destruct (get_existing _ section key v0 _ Hwf Hget) as (r & Hg & _).
  destruct (set_existing (Regular content) section key v _ r Hwf Hg)
    as (old & Hold & Hset).
  pose proof (wf_get _ _ _ Hwf Hg) as (Ht & _ & _ & _).
  injection Ht as Hsr Hkr.
  destruct (loaded_entry_parts content _ r Hg)
    as (old' & k0 & w1 & w2 & val & Hl & Hnohdr & _ & Hkey & _ & Hp & Hkc
        & _ & _ & _ & _ & _ & _ & Hsecat).
  rewrite Hold in Hl. injection Hl as <-.
  assert (Hkm0 : exists km0, _KEYVAL_RE old = Some km0
                             /\ _norm_key (group "key" km0) = Ref.key r).
  { destruct (loaded_entries content) as [Hent _].
    rewrite Forall_forall in Hent.
    specialize (Hent _ (dict_get_elem _ _ _ Hg)). cbn [fst snd] in Hent.
    destruct Hent as (old' & km0 & Hl & _ & Hk0 & Hkey0 & _).
    rewrite Hold in Hl. injection Hl as <-. eauto. }
  set (ls := lines (loaded content)) in *.
  set (i := line_index r) in *.
  set (a := take i ls). set (b := drop (S i) ls).
  assert (Hi : i < length ls) by (by eapply lookup_lt_Some).
  assert (Hls : ls = a ++ [old] ++ b).
  { symmetry. by apply take_drop_middle. }
  assert (Hlena : length a = i) by (apply length_take_le; lia).
  pose proof (loaded_well_split content) as Hws. fold ls in Hws.
  rewrite Hls in Hws. apply well_split_app_inv in Hws as [Ha Hws]; [|done].
  destruct (rewritten_line_split content (_norm_section section, _norm_key key)
              r old v b Hlf Hg Hold Hws Hpl)
    as (tail & m & Htail & Hm & Hcat & Hwm).
  set (new1 := prefix r ++ Ref.key r ++ [EQUALS] ++ v ++ tail) in *.
  assert (Hvdot : forallb dotchar v = true).
  { eapply forallb_weaken; [|exact Hpl]. intros c Hc.
    unfold dotchar. destruct (N.eqb_spec c LF) as [->|]; done. }
  destruct (written_line_parses (prefix r) (Ref.key r) v tail)
    as (km & Hkv & Hk' & Hv' & Hsec'); try done.
  { by rewrite <- Hkr. }
  { rewrite Hkey. apply strip_idem. }
  { rewrite Hkey. by apply forallb_strip. }
  specialize (Hsec' Hbr). fold new1 in Hkv, Hsec'.
  set (d1 := rewritten (_norm_section section, _norm_key key) r v old
                       (loaded content)) in *.
  assert (Hwf1 : wf d1) by (by apply rewritten_wf).
  assert (Hl1 : lines d1 = a ++ rewrite_line r v old :: b).
  { unfold d1. cbn [rewritten lines]. fold ls i. by apply insert_take_drop. }
  assert (Hcat1 : concat (lines d1) = concat (a ++ m ++ b)).
  { rewrite Hl1, !concat_app. simpl. by rewrite Hcat. }
  assert (Hwx : well_split (a ++ m ++ b)) by (by apply well_split_app).
  destruct (read_text_clean content) as [Hcr Hencl].
  assert (Hcr1 : no_cr (concat (lines d1)) = true).
  { unfold no_cr, d1. cbn [rewritten lines].
    apply forallb_concat_insert.
    - unfold loaded. cbn [lines]. by rewrite splitlines_concat.
    - apply (rewrite_line_chars _ content
               (_norm_section section, _norm_key key) r old v); try done.
      eapply forallb_weaken; [|exact Hpl]. intros c Hc.
      destruct (N.eqb_spec c CR) as [->|]; done. }
  assert (Henc1 : forallb encodable (concat (lines d1)) = true).
  { unfold d1. cbn [rewritten lines]. apply forallb_concat_insert.
    - unfold loaded. cbn [lines]. by rewrite splitlines_concat.
    - by apply (rewrite_line_chars _ content
                  (_norm_section section, _norm_key key) r old v). }
  exists r, old, a, b, m, new1, km, d1,
    (write_text linesep (concat (lines d1))).
  split; [done|]. split; [done|]. split; [done|].
  split; [exact Hset|]. split; [by apply save_wf|].
  split; [done|]. split; [done|]. split.
  { unfold loaded. cbn [lines].
    rewrite read_write_text by done. rewrite Hcat1.
    by apply splitlines_well_split. }
  split; [done|].
  split; [unfold header_name; by rewrite Hnohdr|].
  split; [unfold header_name; by rewrite Hsec'|].
  done.
Qed.

(** X24. A value set and saved is the value read when the file is opened
    again. In a file whose only line boundaries are line feeds, for a key
    that has an Entry and is not empty and a value that is stripped, spans
    no line, does not end in a closing bracket and holds no surrogate:
    after [set] and [save], with [os.linesep] LF or CRLF, [get] on a new
    document of the saved file returns the value. *)
Theorem set_persists (content : bytes) (section key v v0 linesep : str) :
  linesep = posix_linesep \/ linesep = windows_linesep ->
  lf_only (read_text content) = true ->
  get (Regular content) section key (loaded content)
  = Returned (Some v0) (loaded content) ->
  _norm_key key <> [] -> strip v = v -> forallb plain v = true ->
  last v <> Some RBRACK -> forallb encodable v = true ->
  exists d1 saved,
    set (Regular content) section key v (loaded content) = Returned tt d1
    /\ save linesep (Regular content) d1 = Returned (Regular saved) d1
    /\ get (Regular saved) section key __init__
       = Returned (Some v) (loaded saved).
Proof.
  intros Hsep Hlf Hget Hne Hsv Hpl Hbr Henc.
  destruct (set_save_lines content section key v v0 linesep)
    as (r & old & a & b & m & new1 & km & d1 & saved & Hg & Hsr & Hkr & Hset
        & Hsave & Hls & Hlena & Hlines & Hm & Hold_hdr & Hnew_hdr & Hsec'
        & Hkv & Hk' & Hv' & Hsecat & _); try done.
  set (ls := lines (loaded content)) in *.
  set (i := line_index r) in *.
  exists d1, saved. split; [done|]. split; [done|].
  rewrite get_unloaded, get_wf by apply loaded_wf.
  assert (Hhead : (a ++ m ++ b) !! i = Some new1).
  { rewrite lookup_app_r by lia. rewrite Hlena, Nat.sub_diag.
    by destruct Hm as [-> | ->]. }
  assert (Hdef : defines (a ++ m ++ b) i (Ref.section r) (Ref.key r) v).
  { exists new1, km. do 5 (split; [done|]).
    rewrite Hsecat. unfold section_at. f_equal. f_equal. f_equal.
    rewrite Hls. by rewrite !take_app_length'. }
  assert (Hlater : forall n v',
            i < n -> ~ defines (a ++ m ++ b) n (Ref.section r) (Ref.key r) v').
  { intros n v' Hn Hd.
    pose proof (load_loop_get ls (Ref.section r) (Ref.key r)) as Hlg.
    change (sc_refs (load_loop 0 ls scan_init)) with (refs (loaded content))
      in Hlg.
    rewrite <- Hsr, <- Hkr, Hg in Hlg. destruct Hlg as [_ Hlast].
    rewrite Hsr, Hkr in Hlast. fold i in Hlast.
    destruct Hm as [-> | ->].
    - replace n with (length a + length [new1] + (n - i - 1)) in Hd
        by (simpl; lia).
      apply (defines_skip a _ [old] b) in Hd;
        [|by repeat constructor..].
      rewrite <- Hls in Hd. apply (Hlast _ v') in Hd; [done|]. simpl. lia.
    - destruct (decide (n = S i)) as [->|Hn'].
      + destruct Hd as (raw & km' & Hl' & _ & Hk'' & _).
        rewrite lookup_app_r in Hl' by lia.
        replace (S i - length a) with 1 in Hl' by lia.
        injection Hl' as <-. done.
      + replace n with (length a + length [new1; [LF]] + (n - i - 2)) in Hd
          by (simpl; lia).
        apply (defines_skip a _ [old] b) in Hd;
          [|by repeat constructor..].
        rewrite <- Hls in Hd. apply (Hlast _ v') in Hd; [done|]. simpl. lia. }
  destruct (load_loop_last (a ++ m ++ b) i _ _ v Hdef Hlater)
    as (r' & Hg' & _ & Hval).
  rewrite <- Hlines in Hg'.
  change (sc_refs (load_loop 0 (lines (loaded saved)) scan_init))
    with (refs (loaded saved)) in Hg'.
  rewrite Hsr, Hkr, Hg'. simpl. by rewrite Hval.
Qed.

Lemma set_persists_witness :
  exists d1 saved,
    set (Regular (text ["[A]"; "foo = 1"; "bar=2"]%string)) (py "A") (py "foo")
        (py "two words") (loaded (text ["[A]"; "foo = 1"; "bar=2"]%string))
    = Returned tt d1
    /\ save windows_linesep (Regular (text ["[A]"; "foo = 1"; "bar=2"]%string))
            d1
       = Returned (Regular saved) d1
    /\ get (Regular saved) (py "A") (py "foo") __init__
       = Returned (Some (py "two words")) (loaded saved).
Proof.
  apply (set_persists (text ["[A]"; "foo = 1"; "bar=2"]%string)
           (py "A") (py "foo") (py "two words") (py "1") windows_linesep).
  - by right.
  - reflexivity.
  - reflexivity.
  - vm_compute. discriminate.
  - reflexivity.
  - reflexivity.
  - vm_compute. discriminate.
  - reflexivity.
Defined.

(** A line defines at most one value. *)
Lemma defines_value (l : list str) (j : nat) (s k v v' : str) :
  defines l j s k v -> defines l j s k v' -> v = v'.
Proof.
  intros (raw & km & Hl & _ & Hk & _ & Hv & _)
         (raw' & km' & Hl' & _ & Hk' & _ & Hv' & _).
  rewrite Hl in Hl'. injection Hl' as <-.
  rewrite Hk in Hk'. injection Hk' as <-. by rewrite <- Hv, <- Hv'.
Qed.

(** What a line before a replaced block defines does not depend on the
    block. *)
Lemma defines_before (a x y : list str) (j : nat) (s k v : str) :
  j < length a -> defines (a ++ x) j s k v -> defines (a ++ y) j s k v.
Proof.
  intros Hj (raw & km & Hl & Hs & Hk & Hkey & Hv & Hsec).
  exists raw, km. rewrite lookup_app_l in Hl |- * by done.
  split; [done|]. do 4 (split; [done|]).
  rewrite section_at_app in Hsec |- * by lia. done.
Qed.

(** A definition outside a replaced block of lines without section headers
    is a definition by the same line after the replacement. *)
Lemma defines_move (a m m' b : list str) (j : nat) (s k v : str) :
  Forall (fun x => header_name x = None) m ->
  Forall (fun x => header_name x = None) m' ->
  (forall n w, length a <= n < length a + length m ->
               ~ defines (a ++ m ++ b) n s k w) ->
  defines (a ++ m ++ b) j s k v ->
  (j < length a /\ defines (a ++ m' ++ b) j s k v)
  \/ exists n, j = length a + length m + n
               /\ defines (a ++ m' ++ b) (length a + length m' + n) s k v.
Proof.
  intros Hm Hm' Hno Hd.
  destruct (decide (j < length a)) as [Hj|Hj].
  { left. split; [done|]. by apply (defines_before a (m ++ b)). }
  destruct (decide (j < length a + length m)) as [Hj'|Hj'].
  { exfalso. apply (Hno j v); [lia|done]. }
  right. exists (j - (length a + length m)). split; [lia|].
  apply (defines_skip a m m' b); [done..|].
  by replace (length a + length m + (j - (length a + length m))) with j by lia.
Qed.

(** The value [load] records for a key does not change when a block of
    lines that does not define the key, and holds no section header, is
    replaced by another such block. *)
Lemma load_loop_replace (a m m' b : list str) (s k : str) :
  Forall (fun x => header_name x = None) m ->
  Forall (fun x => header_name x = None) m' ->
  (forall n w, length a <= n < length a + length m ->
               ~ defines (a ++ m ++ b) n s k w) ->
  (forall n w, length a <= n < length a + length m' ->
               ~ defines (a ++ m' ++ b) n s k w) ->
  value <$> Dict.get (s, k) (sc_refs (load_loop 0 (a ++ m ++ b) scan_init))
  = value <$> Dict.get (s, k) (sc_refs (load_loop 0 (a ++ m' ++ b) scan_init)).
Proof.
  intros Hm Hm' Hno Hno'.
  pose proof (load_loop_get (a ++ m ++ b) s k) as HL.
  pose proof (load_loop_get (a ++ m' ++ b) s k) as HR.
  destruct (Dict.get (s, k) (sc_refs (load_loop 0 (a ++ m ++ b) scan_init)))
    as [r|];
    destruct (Dict.get (s, k) (sc_refs (load_loop 0 (a ++ m' ++ b) scan_init)))
    as [r'|]; simpl.
  - destruct HL as [HdL HlastL], HR as [HdR HlastR]. f_equal.
    destruct (defines_move a m m' b _ _ _ _ Hm Hm' Hno HdL)
      as [[Hj Hd]|(n & Hj & Hd)];
      destruct (defines_move a m' m b _ _ _ _ Hm' Hm Hno' HdR)
      as [[Hj' Hd']|(n' & Hj' & Hd')].
    + destruct (Nat.lt_trichotomy (line_index r) (line_index r'))
        as [Hlt|[He|Hlt]].
      * by apply HlastL in Hd'.
      * rewrite <- He in HdR. by apply (defines_value _ _ _ _ _ _ Hd HdR).
      * by apply HlastR in Hd.
    + exfalso. apply HlastL in Hd'; [done|lia].
    + exfalso. apply HlastR in Hd; [done|lia].
    + destruct (Nat.lt_trichotomy n n') as [Hlt|[He|Hlt]].
      * exfalso. apply HlastL in Hd'; [done|lia].
      * subst n'. rewrite <- Hj' in Hd.
        by apply (defines_value _ _ _ _ _ _ Hd HdR).
      * exfalso. apply HlastR in Hd; [done|lia].
  - exfalso. destruct HL as [HdL _].
    destruct (defines_move a m m' b _ _ _ _ Hm Hm' Hno HdL)
      as [[_ Hd]|(n & _ & Hd)]; by apply HR in Hd.
  - exfalso. destruct HR as [HdR _].
    destruct (defines_move a m' m b _ _ _ _ Hm' Hm Hno' HdR)
      as [[_ Hd]|(n & _ & Hd)]; by apply HL in Hd.
  - done.
Qed.

(** X25. Setting a key and saving changes no other key. Under the
    conditions of the property before, [get] on a new document of the saved
    file returns, for every other pair of normalised section and key, what
    [get] returned before the [set]: its value, or None where it had none. *)
Theorem set_keeps_other_keys (content : bytes)
    (section key v v0 linesep section' key' : str) :
  linesep = posix_linesep \/ linesep = windows_linesep ->
  lf_only (read_text content) = true ->
  get (Regular content) section key (loaded content)
  = Returned (Some v0) (loaded content) ->
  _norm_key key <> [] -> strip v = v -> forallb plain v = true ->
  last v <> Some RBRACK -> forallb encodable v = true ->
  (_norm_section section', _norm_key key')
  <> (_norm_section section, _norm_key key) ->
  exists d1 saved o,
    set (Regular content) section key v (loaded content) = Returned tt d1
    /\ save linesep (Regular content) d1 = Returned (Regular saved) d1
    /\ get (Regular content) section' key' (loaded content)
       = Returned o (loaded content)
    /\ get (Regular saved) section' key' __init__
       = Returned o (loaded saved).
Proof.
  intros Hsep Hlf Hget Hne Hsv Hpl Hbr Henc Hother.
  destruct (set_save_lines content section key v v0 linesep)
    as (r & old & a & b & m & new1 & km & d1 & saved & Hg & Hsr & Hkr & Hset
        & Hsave & Hls & Hlena & Hlines & Hm & Hold_hdr & Hnew_hdr & Hsec'
        & Hkv & Hk' & Hv' & Hsecat & km0 & Hkv0 & Hk0); try done.
  exists d1, saved,
    (value <$> Dict.get (_norm_section section', _norm_key key')
                        (refs (loaded content))).
  split; [done|]. split; [done|].
  split; [by apply get_wf, loaded_wf|].
  rewrite get_unloaded, get_wf by apply loaded_wf. f_equal.
  change (refs (loaded saved))
    with (sc_refs (load_loop 0 (lines (loaded saved)) scan_init)).
  change (refs (loaded content))
    with (sc_refs (load_loop 0 (lines (loaded content)) scan_init)).
  rewrite Hlines, Hls. symmetry.
  assert (Hsa : forall x, section_at (a ++ x) (length a)
                          = section_at (lines (loaded content)) (line_index r)).
  { intros x. rewrite Hls, <- Hlena. by rewrite !section_at_app by lia. }
  apply load_loop_replace.
  - by repeat constructor.
  - destruct Hm as [-> | ->]; by repeat constructor.
  - intros n w Hn (raw & km' & Hl & _ & Hk & Hkey & _ & Hsec).
    simpl in Hn. assert (n = length a) as -> by lia.
    rewrite lookup_app_r, Nat.sub_diag in Hl by lia. injection Hl as <-.
    rewrite Hkv0 in Hk. injection Hk as <-.
    rewrite Hsa in Hsec. apply Hother. by rewrite <- Hsec, <- Hkey, Hk0, Hsr, Hkr, Hsecat.
  - intros n w Hn (raw & km' & Hl & _ & Hk & Hkey & _ & Hsec).
    destruct (decide (n = length a)) as [->|Hn'].
    + rewrite lookup_app_r, Nat.sub_diag in Hl by lia.
      assert (raw = new1) as -> by (destruct Hm as [-> | ->]; by injection Hl).
      rewrite Hkv in Hk. injection Hk as <-.
      rewrite Hsa in Hsec. apply Hother.
      by rewrite <- Hsec, <- Hkey, Hk', Hsr, Hkr, Hsecat.
    + destruct Hm as [-> | ->]; simpl in Hn; [lia|].
      assert (n = S (length a)) as -> by lia.
      rewrite lookup_app_r in Hl by lia.
      replace (S (length a) - length a) with 1 in Hl by lia.
      injection Hl as <-. done.
Qed.

Lemma set_keeps_other_keys_witness :
  exists d1 saved,
    set (Regular (text ["[A]"; "foo = 1"; "bar=2"]%string)) (py "A") (py "foo")
        (py "two words") (loaded (text ["[A]"; "foo = 1"; "bar=2"]%string))
    = Returned tt d1
    /\ save posix_linesep (Regular (text ["[A]"; "foo = 1"; "bar=2"]%string))
            d1
       = Returned (Regular saved) d1
    /\ get (Regular (text ["[A]"; "foo = 1"; "bar=2"]%string)) (py "A")
           (py "bar") (loaded (text ["[A]"; "foo = 1"; "bar=2"]%string))
       = Returned (Some (py "2"))
                  (loaded (text ["[A]"; "foo = 1"; "bar=2"]%string))
    /\ get (Regular saved) (py "A") (py "bar") __init__
       = Returned (Some (py "2")) (loaded saved).
Proof.
  destruct (set_keeps_other_keys (text ["[A]"; "foo = 1"; "bar=2"]%string)
              (py "A") (py "foo") (py "two words") (py "1") posix_linesep
              (py "A") (py "bar"))
    as (d1 & saved & o & Hset & Hsave & Hbefore & Hafter).
  - by left.
  - reflexivity.
  - reflexivity.
  - vm_compute. discriminate.
  - reflexivity.
  - reflexivity.
  - vm_compute. discriminate.
  - reflexivity.
  - vm_compute. discriminate.
  - assert (Ho : o = Some (py "2")).
    { assert (Hg : get (Regular (text ["[A]"; "foo = 1"; "bar=2"]%string))
                       (py "A") (py "bar")
                       (loaded (text ["[A]"; "foo = 1"; "bar=2"]%string))
                   = Returned (Some (py "2"))
                       (loaded (text ["[A]"; "foo = 1"; "bar=2"]%string)))
        by reflexivity.
      rewrite Hg in Hbefore. by injection Hbefore. }
    subst o. by exists d1, saved.
Defined.
